(** * Connect-4 game backend: session registry, win detection, bot heuristic,
      matchmaking queue and the make_move handler.

    Shallow embedding of
      - src/models/types.ts
      - src/services/game.service.ts        (module [GameService])
      - src/services/bot.service.ts         (module [BotService])
      - src/services/matchmaking.service.ts (module [MatchmakingService])
      - src/websocket/game.handler.ts       (module [GameHandler], make_move only)

    Conventions.
      - JS numbers that index the board are [Z] (column and row numbers
        are integers); they may leave the board (the scanning loops step
        to -1 and to rows/cols before they stop).
      - [Date] values are [Z] timestamps; [new Date()] reads a clock value
        that the caller of the embedded function supplies as [now].
      - [uuidv4()] is an input of the embedded function (the drawn id).
      - A JS [Map] used only through get/set/delete is a [gmap]; the
        matchmaking queue, whose insertion order is observed, is an
        association list.
      - Objects held in a [Map] and mutated in place are modelled by
        re-inserting the updated record under the same key.
      - A [while] loop is a fuelled recursion returning [None] when the fuel
        is exhausted; totality lemmas show that the fuel used here always
        suffices for the four axes the source passes. *)

From stdpp Require Import gmap strings list.
From Stdlib Require Import ZArith Lia Sorted.

Local Open Scope Z_scope.

(** ** Configuration *)

Module Config.

(** [config.game.rows] and [config.game.cols] of the config object (in this
    source tree it is the last part of src/config/kafka.ts). *)
Definition rows : Z := 6.
Definition cols : Z := 7.

End Config.

(** ** src/models/types.ts *)

Module Types.

(** The string literals 'player1' | 'player2' (type of [currentTurn]). *)
Inductive Side := Player1 | Player2.

(** CellValue = 'empty' | 'player1' | 'player2'. *)
Inductive CellValue := EmptyCell | Piece (s : Side).

Inductive GameStatus := Waiting | Active | Completed | Forfeited.

#[global] Instance Side_eq_dec : EqDecision Side.
Proof. solve_decision. Defined.
#[global] Instance CellValue_eq_dec : EqDecision CellValue.
Proof. solve_decision. Defined.
#[global] Instance GameStatus_eq_dec : EqDecision GameStatus.
Proof. solve_decision. Defined.

Record Position := { row : Z; col : Z }.

(** The field [id] of the source is [player_id] here. *)
Record Player := {
  player_id : string;
  username : string;
  socketId : string;
  isBot : bool
}.

(** CellValue[][]: an array of rows, row 0 on top. *)
Abbreviation Board := (list (list CellValue)).

(** Handle returned by setTimeout. *)
Abbreviation TimerId := nat.

Record GameState := {
  game_id : string;
  board : Board;
  player1 : Player;
  player2 : option Player;
  currentTurn : Side;
  status : GameStatus;
  winner : option string;
  createdAt : Z;
  lastMoveAt : Z;
  disconnectedPlayer : option string;
  disconnectTimeout : option TimerId
}.

(** MoveResult: every field but [success] is optional. *)
Record MoveResult := {
  success : bool;
  position : option Position;
  mr_winner : option string;
  isDraw : option bool;
  error : option string
}.

End Types.
Export Types.

(** ** Board access *)

Module Grid.

(** [board[r][c]]; [None] is JS [undefined].  Every read the source makes
    is of an existing row: the indices are bounded by the configured
    dimensions, and the theorems are about 6 x 7 grids. *)
Definition cellAt (b : Board) (r c : Z) : option CellValue :=
  if bool_decide (0 ≤ r ∧ 0 ≤ c)
  then b !! Z.to_nat r ≫= λ line, line !! Z.to_nat c
  else None.

(** [board[r][c] = v], for a cell that exists (the source only ever writes
    to a cell it has just read as 'empty'). *)
Definition setCell (b : Board) (r c : Z) (v : CellValue) : Board :=
  if bool_decide (0 ≤ r ∧ 0 ≤ c) then
    match b !! Z.to_nat r with
    | Some line => <[Z.to_nat r := <[Z.to_nat c := v]> line]> b
    | None => b
    end
  else b.

(** The loop guard
    [r >= 0 && r < rows && c >= 0 && c < cols && board[r][c] === piece]. *)
Definition hit (b : Board) (piece : CellValue) (r c : Z) : bool :=
  (0 <=? r) && (r <? Config.rows) && (0 <=? c) && (c <? Config.cols)
  && bool_decide (cellAt b r c = Some piece).

(** [while (guard) { count++; r += dr; c += dc }], returning the final
    count. *)
Fixpoint scan (fuel : nat) (b : Board) (piece : CellValue)
    (r c dr dc : Z) (count : Z) : option Z :=
  match fuel with
  | O => None
  | S fuel' =>
      if hit b piece r c
      then scan fuel' b piece (r + dr) (c + dc) dr dc (count + 1)
      else Some count
  end.

(** More iterations than a scan that moves can make before it leaves the
    board (lemma [scan_terminates]). *)
Definition loop_fuel : nat := Z.to_nat (Config.rows + Config.cols).

(** The body shared by GameService.checkDirection and
    BotService.countInDirection: count starts at 1, then the positive and
    the negative direction are scanned ([r -= dr] is a step by [- dr]). *)
Definition countBothWays (b : Board) (r c dr dc : Z) (piece : CellValue)
  : option Z :=
  count ← scan loop_fuel b piece (r + dr) (c + dc) dr dc 1;
  scan loop_fuel b piece (r - dr) (c - dc) (- dr) (- dc) count.

(** A 6 x 7 grid. *)
Definition is_grid (b : Board) : bool :=
  bool_decide (length b = Z.to_nat Config.rows)
  && forallb (λ line, bool_decide (length line = Z.to_nat Config.cols)) b.

End Grid.
Export Grid.

(** ** Timers (setTimeout / clearTimeout of the JS runtime) *)

Module Runtime.

(** The closures the services arm. *)
Inductive Task :=
  | TaskMatchWithBot (p : Player)            (* () => this.matchWithBot(player) *)
  | TaskForfeit (gameId playerId : string).  (* the handler's forfeiture closure *)

Record Timers := {
  armed : gmap nat Task;
  nextTimer : TimerId
}.

Definition noTimers : Timers := {| armed := ∅; nextTimer := O |}.

(** [setTimeout(task, delay)]: a new handle, armed. *)
Definition setTimeout (t : Task) (ts : Timers) : TimerId * Timers :=
  (nextTimer ts,
   {| armed := <[nextTimer ts := t]> (armed ts); nextTimer := S (nextTimer ts) |}).

(** [clearTimeout(h)]: the handle no longer fires. *)
Definition clearTimeout (h : TimerId) (ts : Timers) : Timers :=
  {| armed := delete h (armed ts); nextTimer := nextTimer ts |}.

End Runtime.
Export Runtime.

(** ** src/services/game.service.ts *)

Module GameService.

(** The private field [games]. *)
Abbreviation Registry := (gmap string GameState).

Definition emptyBoard : Board :=
  replicate (Z.to_nat Config.rows) (replicate (Z.to_nat Config.cols) EmptyCell).

(** [createGame(player1)]; [gameId] is the uuid drawn, [now] and [now'] the
    two clock reads. *)
Definition createGame (gameId : string) (now now' : Z) (p1 : Player)
    (games : Registry) : GameState * Registry :=
  let game := {|
    game_id := gameId;
    board := emptyBoard;
    player1 := p1;
    player2 := None;
    currentTurn := Player1;
    status := Waiting;
    winner := None;
    createdAt := now;
    lastMoveAt := now';
    disconnectedPlayer := None;
    disconnectTimeout := None
  |} in
  (game, <[gameId := game]> games).

Definition getGame (gameId : string) (games : Registry) : option GameState :=
  games !! gameId.

Definition joinGame (gameId : string) (p2 : Player) (games : Registry)
  : option GameState * Registry :=
  match games !! gameId with
  | None => (None, games)
  | Some game =>
      if bool_decide (is_Some (player2 game))
         || bool_decide (status game ≠ Waiting)
      then (None, games)
      else
        let game' := {|
          game_id := game_id game;
          board := board game;
          player1 := player1 game;
          player2 := Some p2;
          currentTurn := currentTurn game;
          status := Active;
          winner := winner game;
          createdAt := createdAt game;
          lastMoveAt := lastMoveAt game;
          disconnectedPlayer := disconnectedPlayer game;
          disconnectTimeout := disconnectTimeout game
        |} in
        (Some game', <[gameId := game']> games)
  end.

(** count >= 4 after the two scans. *)
Definition checkDirection (b : Board) (r c dr dc : Z) (piece : CellValue)
  : option bool :=
  count ← countBothWays b r c dr dc piece;
  Some (4 <=? count).

(** [checkWinner(board, row, col)].  The source reads [board[row][col]] of
    a cell that exists (makeMove has just written it); for a missing cell
    the embedding answers false. *)
Definition checkWinner (b : Board) (r c : Z) : option bool :=
  match cellAt b r c with
  | Some (Piece s) =>
      let piece := Piece s in
      h ← checkDirection b r c 0 1 piece;
      if h : bool then Some true else
      v ← checkDirection b r c 1 0 piece;
      if v : bool then Some true else
      d ← checkDirection b r c 1 1 piece;
      if d : bool then Some true else
      a ← checkDirection b r c 1 (-1) piece;
      if a : bool then Some true else Some false
  | _ => Some false
  end.

(** [board[0].every(cell => cell !== 'empty')]. *)
Definition isBoardFull (b : Board) : bool :=
  match b !! O with
  | Some top => forallb (λ cell, bool_decide (cell ≠ EmptyCell)) top
  | None => false
  end.

(** [for (let r = rows - 1; r >= 0; r--) if (board[r][column] === 'empty')
    { row = r; break }], with [n] the number of rows still to visit. *)
Fixpoint findRow (b : Board) (column : Z) (n : nat) : Z :=
  match n with
  | O => -1
  | S n' =>
      if bool_decide (cellAt b (Z.of_nat n') column = Some EmptyCell)
      then Z.of_nat n'
      else findRow b column n'
  end.

Definition failure (msg : string) : MoveResult :=
  {| success := false; position := None; mr_winner := None; isDraw := None;
     error := Some msg |}.

(** The three success literals of makeMove. *)
Definition okWin (pos : Position) (w : string) : MoveResult :=
  {| success := true; position := Some pos; mr_winner := Some w;
     isDraw := None; error := None |}.

Definition okDraw (pos : Position) : MoveResult :=
  {| success := true; position := Some pos; mr_winner := None;
     isDraw := Some true; error := None |}.

Definition okMove (pos : Position) : MoveResult :=
  {| success := true; position := Some pos; mr_winner := None;
     isDraw := None; error := None |}.

Definition otherSide (s : Side) : Side :=
  match s with Player1 => Player2 | Player2 => Player1 end.

(** [game.currentTurn === 'player1' ? game.player1 : game.player2]. *)
Definition currentPlayerOf (game : GameState) : option Player :=
  match currentTurn game with
  | Player1 => Some (player1 game)
  | Player2 => player2 game
  end.

(** The session after the placement and the time stamp. *)
Definition placed (game : GameState) (r column : Z) (now : Z) : GameState :=
  {| game_id := game_id game;
     board := setCell (board game) r column (Piece (currentTurn game));
     player1 := player1 game;
     player2 := player2 game;
     currentTurn := currentTurn game;
     status := status game;
     winner := winner game;
     createdAt := createdAt game;
     lastMoveAt := now;
     disconnectedPlayer := disconnectedPlayer game;
     disconnectTimeout := disconnectTimeout game |}.

Definition withOutcome (game : GameState) (st : GameStatus)
    (w : option string) (turn : Side) : GameState :=
  {| game_id := game_id game;
     board := board game;
     player1 := player1 game;
     player2 := player2 game;
     currentTurn := turn;
     status := st;
     winner := w;
     createdAt := createdAt game;
     lastMoveAt := lastMoveAt game;
     disconnectedPlayer := disconnectedPlayer game;
     disconnectTimeout := disconnectTimeout game |}.

(** [makeMove(gameId, playerId, column)]; [None] only if a scanning loop of
    checkWinner ran out of fuel. *)
Definition makeMove (gameId playerId : string) (column : Z) (now : Z)
    (games : Registry) : option (MoveResult * Registry) :=
  match games !! gameId with
  | None => Some (failure "Game not found", games)
  | Some game =>
      if bool_decide (status game ≠ Active)
      then Some (failure "Game is not active", games)
      else
        match currentPlayerOf game with
        | None => Some (failure "Not your turn", games)
        | Some currentPlayer =>
            if bool_decide (player_id currentPlayer ≠ playerId)
            then Some (failure "Not your turn", games)
            else if (column <? 0) || (Config.cols <=? column)
            then Some (failure "Invalid column", games)
            else
              let r := findRow (board game) column (Z.to_nat Config.rows) in
              if bool_decide (r = -1)
              then Some (failure "Column is full", games)
              else
                let game1 := placed game r column now in
                let pos := {| row := r; col := column |} in
                won ← checkWinner (board game1) r column;
                if won : bool then
                  Some (okWin pos (player_id currentPlayer),
                        <[gameId := withOutcome game1 Completed
                                      (Some (player_id currentPlayer))
                                      (currentTurn game1)]> games)
                else if isBoardFull (board game1) then
                  Some (okDraw pos,
                        <[gameId := withOutcome game1 Completed (winner game1)
                                      (currentTurn game1)]> games)
                else
                  Some (okMove pos,
                        <[gameId := withOutcome game1 (status game1)
                                      (winner game1)
                                      (otherSide (currentTurn game1))]> games)
        end
  end.

Definition deleteGame (gameId : string) (games : Registry) : Registry :=
  delete gameId games.

Definition setDisconnected (gameId playerId : string) (games : Registry)
  : Registry :=
  match games !! gameId with
  | None => games
  | Some game =>
      <[gameId := {|
          game_id := game_id game;
          board := board game;
          player1 := player1 game;
          player2 := player2 game;
          currentTurn := currentTurn game;
          status := status game;
          winner := winner game;
          createdAt := createdAt game;
          lastMoveAt := lastMoveAt game;
          disconnectedPlayer := Some playerId;
          disconnectTimeout := disconnectTimeout game |}]> games
  end.

(** [clearDisconnected(gameId)]: clears the marker and, if a timer handle is
    stored, cancels it and forgets it. *)
Definition clearDisconnected (gameId : string) (games : Registry)
    (ts : Timers) : Registry * Timers :=
  match games !! gameId with
  | None => (games, ts)
  | Some game =>
      let game' := {|
          game_id := game_id game;
          board := board game;
          player1 := player1 game;
          player2 := player2 game;
          currentTurn := currentTurn game;
          status := status game;
          winner := winner game;
          createdAt := createdAt game;
          lastMoveAt := lastMoveAt game;
          disconnectedPlayer := None;
          disconnectTimeout := None |} in
      (<[gameId := game']> games,
       match disconnectTimeout game with
       | Some h => clearTimeout h ts
       | None => ts
       end)
  end.

(** [opponent?.id || null]: an absent opponent or an empty id gives null. *)
Definition idOrNull (opponent : option Player) : option string :=
  match opponent with
  | Some p => if bool_decide (player_id p = "") then None else Some (player_id p)
  | None => None
  end.

Definition forfeitGame (gameId playerId : string) (games : Registry)
  : Registry :=
  match games !! gameId with
  | None => games
  | Some game =>
      if bool_decide (status game = Active) then
        let opponent :=
          if bool_decide (player_id (player1 game) = playerId)
          then player2 game
          else Some (player1 game) in
        <[gameId := withOutcome game Forfeited (idOrNull opponent)
                      (currentTurn game)]> games
      else games
  end.

End GameService.

(** ** src/services/bot.service.ts *)

Module BotService.

Definition canPlacePiece (b : Board) (c : Z) : bool :=
  bool_decide (cellAt b 0 c = Some EmptyCell).

(** [for (let row = rows - 1; row >= 0; row--) if (board[row][col] ===
    'empty') return row; return -1], with [n] the rows still to visit. *)
Fixpoint lowestFrom (b : Board) (c : Z) (n : nat) : Z :=
  match n with
  | O => -1
  | S n' =>
      if bool_decide (cellAt b (Z.of_nat n') c = Some EmptyCell)
      then Z.of_nat n'
      else lowestFrom b c n'
  end.

Definition getLowestEmptyRow (b : Board) (c : Z) : Z :=
  lowestFrom b c (Z.to_nat Config.rows).

Definition getValidMoves (b : Board) : list Z :=
  filter (λ c, canPlacePiece b c = true) (seqZ 0 Config.cols).

Definition countInDirection (b : Board) (r c dr dc : Z) (piece : CellValue)
  : option Z :=
  countBothWays b r c dr dc piece.

Definition checkDirection (b : Board) (r c dr dc : Z) (piece : CellValue)
  : option bool :=
  count ← countInDirection b r c dr dc piece;
  Some (4 <=? count).

(** [board[row][col] = originalValue]; the original value is that of an
    existing cell wherever getBestMove calls the two probes. *)
Definition restore (b : Board) (r c : Z) (original : option CellValue)
  : Board :=
  match original with
  | Some v => setCell b r c v
  | None => b
  end.

(** [wouldWin]: place, test the four axes left to right with [||], restore.
    The board returned is the caller's array after the call. *)
Definition wouldWin (b : Board) (r c : Z) (piece : CellValue)
  : option (bool * Board) :=
  let originalValue := cellAt b r c in
  let b1 := setCell b r c piece in
  isWin ←
    (h ← checkDirection b1 r c 0 1 piece;
     if h : bool then Some true else
     v ← checkDirection b1 r c 1 0 piece;
     if v : bool then Some true else
     d ← checkDirection b1 r c 1 1 piece;
     if d : bool then Some true else
     checkDirection b1 r c 1 (-1) piece);
  Some (isWin, restore b1 r c originalValue).

(** [createsThreeInRow]: as [wouldWin] with the threshold 3 on the counts. *)
Definition createsThreeInRow (b : Board) (r c : Z) (piece : CellValue)
  : option (bool * Board) :=
  let originalValue := cellAt b r c in
  let b1 := setCell b r c piece in
  hasThree ←
    (h ← countInDirection b1 r c 0 1 piece;
     if 3 <=? h then Some true else
     v ← countInDirection b1 r c 1 0 piece;
     if 3 <=? v then Some true else
     d ← countInDirection b1 r c 1 1 piece;
     if 3 <=? d then Some true else
     a ← countInDirection b1 r c 1 (-1) piece;
     Some (3 <=? a));
  Some (hasThree, restore b1 r c originalValue).

(** One priority loop of getBestMove:
    [for (col = ...; col < cols; col++) if (canPlacePiece(board, col)) {
       row = getLowestEmptyRow(board, col);
       if (probe(board, row, col, piece)) return col } ],
    with [n] the columns still to visit; the board is threaded through the
    probes. *)
Fixpoint firstColumn
    (probe : Board → Z → Z → CellValue → option (bool * Board))
    (piece : CellValue) (n : nat) (c : Z) (b : Board)
  : option (option Z * Board) :=
  match n with
  | O => Some (None, b)
  | S n' =>
      if canPlacePiece b c then
        res ← probe b (getLowestEmptyRow b c) c piece;
        if res.1 : bool then Some (Some c, res.2)
        else firstColumn probe piece n' (c + 1) res.2
      else firstColumn probe piece n' (c + 1) b
  end.

(** [Array.prototype.sort(compare)] is stable (ECMAScript 2019): elements
    that compare equal keep their order.  Embedded as a stable insertion
    sort. *)
Fixpoint insertBy (cmp : Z → Z → Z) (x : Z) (l : list Z) : list Z :=
  match l with
  | [] => [x]
  | y :: l' => if cmp x y <? 0 then x :: y :: l' else y :: insertBy cmp x l'
  end.

Definition sortBy (cmp : Z → Z → Z) (l : list Z) : list Z :=
  foldl (λ acc x, insertBy cmp x acc) [] l.

Definition opponentOf (botPiece : Side) : Side :=
  match botPiece with Player1 => Player2 | Player2 => Player1 end.

(** [getBestMove(board, botPiece)].  The outer option is termination of the
    scanning loops; the column is [None] for the JS value [undefined]
    ([sortedMoves[0]] of an empty array); the board is the caller's array
    after the call. *)
Definition getBestMove (b : Board) (botPiece : Side)
  : option (option Z * Board) :=
  let opponentPiece := Piece (opponentOf botPiece) in
  let n := Z.to_nat Config.cols in
  win ← firstColumn wouldWin (Piece botPiece) n 0 b;
  match win.1 with
  | Some c => Some (Some c, win.2)
  | None =>
      block ← firstColumn wouldWin opponentPiece n 0 win.2;
      match block.1 with
      | Some c => Some (Some c, block.2)
      | None =>
          build ← firstColumn createsThreeInRow (Piece botPiece) n 0 block.2;
          match build.1 with
          | Some c => Some (Some c, build.2)
          | None =>
              let b' := build.2 in
              let centerCol := Config.cols `div` 2 in
              if canPlacePiece b' centerCol then Some (Some centerCol, b')
              else
                let validMoves := getValidMoves b' in
                let sortedMoves :=
                  sortBy (λ x y, Z.abs (x - centerCol) - Z.abs (y - centerCol))
                         validMoves in
                Some (head sortedMoves, b')
          end
      end
  end.

End BotService.

(** ** src/services/matchmaking.service.ts *)

Module MatchmakingService.

Record WaitingPlayer := {
  player : Player;
  timeout : TimerId
}.

(** A JS [Map<string, WaitingPlayer>] with its insertion order: [values()]
    lists the entries oldest first, [set] on a present key replaces the
    value in place, on an absent key appends. *)
Abbreviation Queue := (list (string * WaitingPlayer)).

Fixpoint qget (k : string) (q : Queue) : option WaitingPlayer :=
  match q with
  | [] => None
  | (k', e) :: q' => if bool_decide (k' = k) then Some e else qget k q'
  end.

Fixpoint qset (k : string) (e : WaitingPlayer) (q : Queue) : Queue :=
  match q with
  | [] => [(k, e)]
  | (k', e') :: q' =>
      if bool_decide (k' = k) then (k, e) :: q' else (k', e') :: qset k e q'
  end.

Fixpoint qdelete (k : string) (q : Queue) : Queue :=
  match q with
  | [] => []
  | (k', e') :: q' =>
      if bool_decide (k' = k) then qdelete k q' else (k', e') :: qdelete k q'
  end.

(** The two singleton services and the timers of the runtime. *)
Record Services := {
  games : GameService.Registry;
  waitingPlayers : Queue;
  timers : Timers
}.

(** The tail of addPlayerToQueue: arm the bot timer and store the entry. *)
Definition enqueueWaiting (p : Player) (w : Services) : Services :=
  let armedT := setTimeout (TaskMatchWithBot p) (timers w) in
  {| games := games w;
     waitingPlayers :=
       qset (socketId p) {| player := p; timeout := armedT.1 |}
            (waitingPlayers w);
     timers := armedT.2 |}.

(** [addPlayerToQueue(player)]; [uuid] is the id createGame draws if it is
    called, [now] and [now'] its clock reads. *)
Definition addPlayerToQueue (p : Player) (uuid : string) (now now' : Z)
    (w : Services) : option string * Services :=
  let waitingEntry := head (waitingPlayers w).*2 in
  match waitingEntry with
  | Some entry =>
      if bool_decide (player_id (player entry) ≠ player_id p) then
        let ts := clearTimeout (timeout entry) (timers w) in
        let q := qdelete (socketId (player entry)) (waitingPlayers w) in
        let created :=
          GameService.createGame uuid now now' (player entry) (games w) in
        let joined := GameService.joinGame (game_id created.1) p created.2 in
        (Some (game_id created.1),
         {| games := joined.2; waitingPlayers := q; timers := ts |})
      else (None, enqueueWaiting p w)
  | None => (None, enqueueWaiting p w)
  end.

(** [matchWithBot(player)]; [botId] and [uuid] are the two uuids drawn, in
    that order. *)
Definition matchWithBot (p : Player) (botId uuid : string) (now now' : Z)
    (w : Services) : Services :=
  match qget (socketId p) (waitingPlayers w) with
  | None => w
  | Some _ =>
      let q := qdelete (socketId p) (waitingPlayers w) in
      let bot := {| player_id := botId; username := "Bot"; socketId := "bot";
                    isBot := true |} in
      let created := GameService.createGame uuid now now' p (games w) in
      let joined := GameService.joinGame (game_id created.1) bot created.2 in
      {| games := joined.2; waitingPlayers := q; timers := timers w |}
  end.

Definition removePlayerFromQueue (sock : string) (w : Services) : Services :=
  match qget sock (waitingPlayers w) with
  | Some entry =>
      {| games := games w;
         waitingPlayers := qdelete sock (waitingPlayers w);
         timers := clearTimeout (timeout entry) (timers w) |}
  | None => w
  end.

Definition isPlayerInQueue (sock : string) (w : Services) : bool :=
  bool_decide (is_Some (qget sock (waitingPlayers w))).

(** The runtime fires an armed matchmaking timer: the handle is spent and
    its closure runs. *)
Definition fireTimer (h : TimerId) (botId uuid : string) (now now' : Z)
    (w : Services) : Services :=
  match armed (timers w) !! h with
  | Some (TaskMatchWithBot p) =>
      matchWithBot p botId uuid now now'
        {| games := games w; waitingPlayers := waitingPlayers w;
           timers := clearTimeout h (timers w) |}
  | _ => w
  end.

(** What can happen to the queue between two calls. *)
Inductive QueueOp :=
  | OpEnqueue (p : Player) (uuid : string) (now now' : Z)
  | OpTimeout (h : TimerId) (botId uuid : string) (now now' : Z)
  | OpRemove (sock : string)
  | OpElsewhere (games' : GameService.Registry) (timers' : Timers).
      (* the other components: they change sessions and timers, never the
         queue *)

Definition applyQueueOp (op : QueueOp) (w : Services) : Services :=
  match op with
  | OpEnqueue p uuid now now' => (addPlayerToQueue p uuid now now' w).2
  | OpTimeout h botId uuid now now' => fireTimer h botId uuid now now' w
  | OpRemove sock => removePlayerFromQueue sock w
  | OpElsewhere games' timers' =>
      {| games := games'; waitingPlayers := waitingPlayers w;
         timers := timers' |}
  end.

Definition runQueue (ops : list QueueOp) (w : Services) : Services :=
  foldl (λ w op, applyQueueOp op w) w ops.

End MatchmakingService.

(** ** src/websocket/game.handler.ts: the make_move handler *)

Module GameHandler.

(** What the handler emits up to and including the move broadcast. *)
Inductive Emit :=
  | EmitError (sock : string) (message : option string)
      (* socket.emit('error', { message }) *)
  | EmitMoveMade (room : string) (pos : option Position) (mover : Side)
      (b : Board).
      (* io.to(gameId).emit('move_made', { position, player, board }) *)

(** [game.player1.socketId === socket.id ? game.player1 : game.player2]. *)
Definition resolvePlayer (game : GameState) (sock : string) : option Player :=
  if bool_decide (socketId (player1 game) = sock)
  then Some (player1 game)
  else player2 game.

(** [handleMakeMove(socket, { gameId, column })] up to the move broadcast
    (analytics, end-of-game bookkeeping and bot scheduling follow in the
    source and leave the registry alone until the game is deleted).  The
    broadcast reads [game.currentTurn] and [game.board] from the session
    object after makeMove has mutated it. *)
Definition handleMakeMove (sock gameId : string) (column : Z) (now : Z)
    (games : GameService.Registry)
  : option (list Emit * GameService.Registry) :=
  match GameService.getGame gameId games with
  | None => Some ([EmitError sock (Some "Game not found")], games)
  | Some game =>
      match resolvePlayer game sock with
      | None =>
          Some ([EmitError sock (Some "Player not found in game")], games)
      | Some p =>
          res ← GameService.makeMove gameId (player_id p) column now games;
          if success res.1 then
            Some (match GameService.getGame gameId res.2 with
                  | Some game' =>
                      [EmitMoveMade gameId (position res.1)
                         (GameService.otherSide (currentTurn game'))
                         (board game')]
                  | None => []
                  end, res.2)
          else Some ([EmitError sock (error res.1)], res.2)
      end
  end.

End GameHandler.

(** ** Vocabulary of the specification *)

Module Spec.

(** The four axes, as the (deltaRow, deltaCol) pairs the source passes. *)
Definition axes : list (Z * Z) := [(0, 1); (1, 0); (1, 1); (1, -1)].

(** The cell (r, c) lies in a contiguous run of at least [n] cells holding
    [piece] along the axis (dr, dc): the run covers the offsets lo..hi
    around the cell. *)
Definition in_run (b : Board) (r c dr dc : Z) (piece : CellValue) (n : Z)
  : Prop :=
  ∃ lo hi : Z,
    lo ≤ 0 ≤ hi ∧ n ≤ hi - lo + 1 ∧
    ∀ i, lo ≤ i ≤ hi → cellAt b (r + i * dr) (c + i * dc) = Some piece.

Definition on_some_axis (b : Board) (r c : Z) (piece : CellValue) (n : Z)
  : Prop :=
  ∃ d, d ∈ axes ∧ in_run b r c d.1 d.2 piece n.

End Spec.

(** ** Literal boards and sessions used in the examples *)

Module Examples.

(** The empty grid with the listed cells filled in. *)
Definition boardOf (cells : list (Z * Z * Side)) : Board :=
  foldl (λ b x, setCell b x.1.1 x.1.2 (Piece x.2)) GameService.emptyBoard cells.

(** Side A on (5,0) (5,1) (5,2) and the placement on (5,3). *)
Definition rowOfFour : Board :=
  boardOf [(5, 0, Player1); (5, 1, Player1); (5, 2, Player1); (5, 3, Player1)].

(** The same with (5,2) left empty. *)
Definition rowWithGap : Board :=
  boardOf [(5, 0, Player1); (5, 1, Player1); (5, 3, Player1)].

End Examples.

(** ** Sequences of registry operations *)

Module Registry.

Import GameService.

(** A call of one of the registry operations, with the values its
    environment supplies (uuid drawn, clock reads). *)
Inductive RegOp :=
  | OpCreate (uuid : string) (now now' : Z) (p1 : Player)
  | OpJoin (gameId : string) (p2 : Player)
  | OpMove (gameId playerId : string) (column : Z) (now : Z)
  | OpForfeit (gameId playerId : string)
  | OpSetDisconnected (gameId playerId : string)
  | OpClearDisconnected (gameId : string).

(** What the call returned. *)
Inductive Outcome :=
  | OutCreated (g : GameState)
  | OutJoined (g : option GameState)
  | OutMoved (res : MoveResult)
  | OutVoid.

(** The registry together with the timers clearDisconnected may cancel. *)
Record State := {
  sessions : gmap string GameState;
  pending : Timers
}.

Definition initial : State := {| sessions := ∅; pending := noTimers |}.

Definition applyOp (op : RegOp) (st : State) : option (Outcome * State) :=
  match op with
  | OpCreate uuid now now' p1 =>
      let res := createGame uuid now now' p1 (sessions st) in
      Some (OutCreated res.1, {| sessions := res.2; pending := pending st |})
  | OpJoin gameId p2 =>
      let res := joinGame gameId p2 (sessions st) in
      Some (OutJoined res.1, {| sessions := res.2; pending := pending st |})
  | OpMove gameId playerId column now =>
      res ← makeMove gameId playerId column now (sessions st);
      Some (OutMoved res.1, {| sessions := res.2; pending := pending st |})
  | OpForfeit gameId playerId =>
      Some (OutVoid, {| sessions := forfeitGame gameId playerId (sessions st);
                        pending := pending st |})
  | OpSetDisconnected gameId playerId =>
      Some (OutVoid,
            {| sessions := setDisconnected gameId playerId (sessions st);
               pending := pending st |})
  | OpClearDisconnected gameId =>
      let res := clearDisconnected gameId (sessions st) (pending st) in
      Some (OutVoid, {| sessions := res.1; pending := res.2 |})
  end.

Fixpoint run (ops : list RegOp) (st : State) : option (list Outcome * State) :=
  match ops with
  | [] => Some ([], st)
  | op :: ops' =>
      first ← applyOp op st;
      rest ← run ops' first.2;
      Some (first.1 :: rest.1, rest.2)
  end.

(** uuidv4 never returns the id of a session already in the registry. *)
Definition freshFor (op : RegOp) (st : State) : bool :=
  match op with
  | OpCreate uuid _ _ _ => bool_decide (sessions st !! uuid = None)
  | _ => true
  end.

Fixpoint freshIds (ops : list RegOp) (st : State) : bool :=
  match ops with
  | [] => true
  | op :: ops' =>
      freshFor op st &&
      match applyOp op st with
      | Some first => freshIds ops' first.2
      | None => false
      end
  end.

(** One forward step of the status. *)
Inductive advances : GameStatus → GameStatus → Prop :=
  | adv_join : advances Waiting Active
  | adv_complete : advances Active Completed
  | adv_forfeit : advances Active Forfeited.

(** The id of the participant playing side [s]. *)
Definition sideId (g : GameState) (s : Side) : option string :=
  match s with
  | Player1 => Some (player_id (player1 g))
  | Player2 => player_id <$> player2 g
  end.

Definition holdsPiece (b : Board) (r c : Z) : bool :=
  match cellAt b r c with
  | Some (Piece _) => true
  | _ => false
  end.

(** The number of pieces in column [c]. *)
Definition piecesIn (b : Board) (c : Z) : nat :=
  length (filter (λ r, holdsPiece b r c = true) (seqZ 0 Config.rows)).

(** Whether the call [op], which returned [out], put a piece into column
    [c] of session [gid]. *)
Definition placed_by (gid : string) (c : Z) (op : RegOp) (out : Outcome) : nat :=
  match op, out with
  | OpMove gameId _ column _, OutMoved res =>
      if bool_decide (gameId = gid ∧ column = c) && success res
      then 1%nat else 0%nat
  | _, _ => 0%nat
  end.

(** The number of successful moves into column [c] of session [gid] made
    by the calls [ops], run from [st]. *)
Fixpoint placements (gid : string) (c : Z) (ops : list RegOp) (st : State)
  : nat :=
  match ops with
  | [] => O
  | op :: ops' =>
      match applyOp op st with
      | Some first =>
          (placed_by gid c op first.1 + placements gid c ops' first.2)%nat
      | None => O
      end
  end.

End Registry.

(** ** Further vocabulary of the specification *)

Module Outcomes.

(** Modelled from the spec: the failure kinds of the move operation
    (section 4.3); the source reports failures by message only. *)
Inductive ErrorKind := NotFound | NotActive | NotYourTurn | InvalidColumn.

(** The messages of GameService.makeMove, by kind. *)
Definition errorKind (msg : string) : option ErrorKind :=
  if bool_decide (msg = "Game not found") then Some NotFound
  else if bool_decide (msg = "Game is not active") then Some NotActive
  else if bool_decide (msg = "Not your turn") then Some NotYourTurn
  else if bool_decide (msg = "Invalid column") then Some InvalidColumn
  else if bool_decide (msg = "Column is full") then Some InvalidColumn
  else None.

Definition failsWith (res : MoveResult) (k : ErrorKind) : Prop :=
  success res = false ∧ error res ≫= errorKind = Some k.

(** No cell of the grid is empty. *)
Definition full (b : Board) : Prop :=
  ∀ r c, 0 ≤ r < Config.rows → 0 ≤ c < Config.cols →
         cellAt b r c ≠ Some EmptyCell.

(** Pieces rest on the bottom or on other pieces. *)
Definition stacked (b : Board) : Prop :=
  ∀ r r' c, 0 ≤ r < r' → r' < Config.rows →
            cellAt b r c ≠ Some EmptyCell → cellAt b r' c ≠ Some EmptyCell.

End Outcomes.

(** ** Invariants of registered sessions *)

Module Invariants.

Import Registry.

(** What the winner field may hold in each status. *)
Definition winnerOk (g : GameState) : Prop :=
  match status g with
  | Waiting | Active => winner g = None
  | Completed =>
      match winner g with
      | Some w =>
          ∃ r c s, cellAt (board g) r c = Some (Piece s) ∧
                   Spec.on_some_axis (board g) r c (Piece s) 4 ∧
                   sideId g s = Some w
      | None => Outcomes.full (board g)
      end
  | Forfeited =>
      ∀ w, winner g = Some w →
           w = player_id (player1 g) ∨
           ∃ p2, player2 g = Some p2 ∧ w = player_id p2
  end.

Definition sessionOk (g : GameState) : Prop :=
  is_grid (board g) = true ∧ Outcomes.stacked (board g) ∧ winnerOk g.

Definition registryOk (m : gmap string GameState) : Prop :=
  map_Forall (λ _ g, sessionOk g) m.

End Invariants.

(** ** Reachable registries and literal sessions *)

Module Reach.

Import Registry.

(** The registry states the six operations produce from the empty
    registry, uuidv4 never repeating a registered id. *)
Definition reachable (st : State) : Prop :=
  ∃ ops outs, freshIds ops initial = true ∧ run ops initial = Some (outs, st).

Definition alice : Player :=
  {| player_id := "id-alice"; username := "alice"; socketId := "sock-a";
     isBot := false |}.

Definition bob : Player :=
  {| player_id := "id-bob"; username := "bob"; socketId := "sock-b";
     isBot := false |}.

(** A session created by alice and joined by bob. *)
Definition openingOps : list RegOp :=
  [OpCreate "g1" 100 100 alice; OpJoin "g1" bob].

Definition stateAfter (ops : list RegOp) : State :=
  match run ops initial with
  | Some res => res.2
  | None => initial
  end.

Definition sessionAfter (ops : list RegOp) (gid : string) (dflt : GameState)
  : GameState :=
  default dflt (sessions (stateAfter ops) !! gid).

(** The session right after createGame, for use as a default. *)
Definition freshSession : GameState :=
  (GameService.createGame "g1" 100 100 alice ∅).1.

End Reach.

(** ** A column filled by six alternating moves *)

Module FullColumn.

Import Registry Reach.

Definition sixInColumn0 : list RegOp :=
  openingOps ++
  [OpMove "g1" "id-alice" 0 201; OpMove "g1" "id-bob" 0 202;
   OpMove "g1" "id-alice" 0 203; OpMove "g1" "id-bob" 0 204;
   OpMove "g1" "id-alice" 0 205; OpMove "g1" "id-bob" 0 206].

End FullColumn.

(** ** The priority cascade of the automated opponent, in the words of the
       specification *)

Module Cascade.

(** A column is legal when its top cell is empty. *)
Definition legal (b : Board) (c : Z) : Prop := cellAt b 0 c = Some EmptyCell.

(** Row [r] is the lowest empty row of column [c]. *)
Definition dropRow (b : Board) (c r : Z) : Prop :=
  0 ≤ r < Config.rows ∧ cellAt b r c = Some EmptyCell ∧
  ∀ i, r < i < Config.rows → cellAt b i c ≠ Some EmptyCell.

(** Dropping a piece of side [s] into the legal column [c] leaves that
    piece in a run of at least [n] along some axis. *)
Definition makesRun (b : Board) (s : Side) (n : Z) (c : Z) : Prop :=
  legal b c ∧
  ∃ r, dropRow b c r ∧
       Spec.on_some_axis (setCell b r c (Piece s)) r c (Piece s) n.

Definition winsAt (b : Board) (s : Side) : Z → Prop := makesRun b s 4.
Definition buildsAt (b : Board) (s : Side) : Z → Prop := makesRun b s 3.

(** [c] is the first (lowest) column with property [P]. *)
Definition firstWith (P : Z → Prop) (c : Z) : Prop :=
  P c ∧ ∀ j, j < c → ¬ P j.

Definition noneWith (P : Z → Prop) : Prop := ∀ j, ¬ P j.

Definition middle : Z := 3.

(** [c] is the legal column closest to the middle, the lower index winning
    a tie. *)
Definition closestLegal (b : Board) (c : Z) : Prop :=
  legal b c ∧
  ∀ c', legal b c' →
        Z.abs (c - middle) < Z.abs (c' - middle) ∨
        (Z.abs (c - middle) = Z.abs (c' - middle) ∧ c ≤ c').

(** The five tiers, each guarded by the failure of the earlier ones. *)
Definition selects (b : Board) (s : Side) (c : Z) : Prop :=
  firstWith (winsAt b s) c
  ∨ (noneWith (winsAt b s) ∧
     firstWith (winsAt b (BotService.opponentOf s)) c)
  ∨ (noneWith (winsAt b s) ∧ noneWith (winsAt b (BotService.opponentOf s)) ∧
     firstWith (buildsAt b s) c)
  ∨ (noneWith (winsAt b s) ∧ noneWith (winsAt b (BotService.opponentOf s)) ∧
     noneWith (buildsAt b s) ∧ legal b middle ∧ c = middle)
  ∨ (noneWith (winsAt b s) ∧ noneWith (winsAt b (BotService.opponentOf s)) ∧
     noneWith (buildsAt b s) ∧ ¬ legal b middle ∧ closestLegal b c).

End Cascade.

(** ** Literal boards for the automated opponent *)

Module BotExamples.

Import Examples.

(** Side A on (5,0) (5,1) (5,2); side B on (4,0) (4,1): A completes four on
    column 3, and B, moving instead, has to block there. *)
Definition threeInRow : Board :=
  boardOf [(5, 0, Player1); (4, 0, Player2); (5, 1, Player1);
           (4, 1, Player2); (5, 2, Player1)].

(** Side A can complete four both on column 0 (vertically) and on column 3
    (horizontally); six pieces each, A to move. *)
Definition twoWins : Board :=
  boardOf [(5, 0, Player1); (5, 1, Player2); (4, 0, Player1);
           (4, 1, Player2); (3, 0, Player1); (5, 2, Player2);
           (5, 4, Player1); (4, 2, Player2); (5, 5, Player1);
           (4, 4, Player2); (5, 6, Player1); (4, 5, Player2)].

(** Side A threatens column 3 while side B, to move, can itself complete
    four on column 6. *)
Definition ownWinFirst : Board :=
  boardOf [(5, 0, Player1); (5, 6, Player2); (5, 1, Player1);
           (4, 6, Player2); (5, 2, Player1); (3, 6, Player2);
           (5, 4, Player1)].

(** Every cell taken, in a pattern without four in a row. *)
Definition fullRow (a b' : Side) : list CellValue :=
  [Piece a; Piece a; Piece b'; Piece b'; Piece a; Piece a; Piece b'].

Definition fullBoard : Board :=
  [fullRow Player1 Player2; fullRow Player2 Player1;
   fullRow Player1 Player2; fullRow Player2 Player1;
   fullRow Player1 Player2; fullRow Player2 Player1].

End BotExamples.

(** ** Well-formed matchmaking queues and literal participants *)

Module QueueFacts.

Import MatchmakingService.

(** Every entry is stored under the connection handle of its participant,
    no handle is stored twice, and all waiting entries belong to one
    participant identity. *)
Definition queueOk (q : Queue) : Prop :=
  (∀ k e, (k, e) ∈ q → k = socketId (player e)) ∧
  NoDup q.*1 ∧
  (∀ k e k' e', (k, e) ∈ q → (k', e') ∈ q →
                player_id (player e) = player_id (player e')).

Definition idle : Services :=
  {| games := ∅; waitingPlayers := []; timers := noTimers |}.

End QueueFacts.

(** ** A session in which it is bob's turn *)

Module HandlerExamples.

Import Registry Reach.

Definition bobToMove : list RegOp :=
  openingOps ++ [OpMove "g1" "id-alice" 3 201].

(** The same session after alice has forfeited: the status is forfeited
    and currentTurn still names player2. *)
Definition aliceGone : list RegOp :=
  bobToMove ++ [OpForfeit "g1" "id-alice"].

End HandlerExamples.

(** ** Further invariants of registered sessions *)

Module Tally.

Import Registry.

(** The number of cells holding a piece of side [s]. *)
Definition countPieces (s : Side) (b : Board) : nat :=
  length (filter (λ v, v = Piece s) (concat b)).

(** Whether the call [op], which returned [out], was an accepted move on
    session [gid]. *)
Definition moved_by (gid : string) (op : RegOp) (out : Outcome) : nat :=
  match op, out with
  | OpMove gameId _ _ _, OutMoved res =>
      if bool_decide (gameId = gid) && success res then 1%nat else 0%nat
  | _, _ => 0%nat
  end.

(** The number of accepted moves on session [gid] among the calls [ops],
    run from [st]. *)
Fixpoint accepted (gid : string) (ops : list RegOp) (st : State) : nat :=
  match ops with
  | [] => O
  | op :: ops' =>
      match applyOp op st with
      | Some first => (moved_by gid op first.1 + accepted gid ops' first.2)%nat
      | None => O
      end
  end.

(** Player1 moves first and the sides alternate: while a session is
    running the side on turn is determined by the two piece counts. *)
Definition balanced (g : GameState) : Prop :=
  let n1 := countPieces Player1 (board g) in
  let n2 := countPieces Player2 (board g) in
  match status g with
  | Waiting | Active =>
      (currentTurn g = Player1 ∧ n1 = n2) ∨
      (currentTurn g = Player2 ∧ n1 = S n2)
  | Completed | Forfeited => n1 = n2 ∨ n1 = S n2
  end.

Definition sessionSound (gid : string) (g : GameState) : Prop :=
  game_id g = gid ∧
  (player2 g = None ↔ status g = Waiting) ∧
  (status g = Waiting → board g = GameService.emptyBoard) ∧
  (status g ≠ Completed → GameService.isBoardFull (board g) = false) ∧
  balanced g.

Definition registrySound (m : gmap string GameState) : Prop :=
  map_Forall sessionSound m.

(** What a session can become: its identity and participants stay, pieces
    stay where they are, and a finished session keeps board, turn, status,
    winner and time stamp. *)
Definition evolves (g g' : GameState) : Prop :=
  game_id g' = game_id g ∧
  player1 g' = player1 g ∧
  createdAt g' = createdAt g ∧
  (∀ p, player2 g = Some p → player2 g' = Some p) ∧
  (∀ r c s, cellAt (board g) r c = Some (Piece s) →
            cellAt (board g') r c = Some (Piece s)) ∧
  (status g = Completed ∨ status g = Forfeited →
   board g' = board g ∧ currentTurn g' = currentTurn g ∧
   status g' = status g ∧ winner g' = winner g ∧
   lastMoveAt g' = lastMoveAt g ∧ player2 g' = player2 g).

End Tally.

(** ** src/websocket/game.handler.ts: the automated move *)

Module BotMove.

Import GameService.

(** [game.player2?.isBot ? game.player2 : game.player1.isBot ? game.player1
    : null]. *)
Definition botOf (game : GameState) : option Player :=
  if match player2 game with Some p2 => isBot p2 | None => false end
  then player2 game
  else if isBot (player1 game) then Some (player1 game) else None.

(** [bot.id === game.player1.id ? 'player1' : 'player2']. *)
Definition botPieceOf (game : GameState) (bot : Player) : Side :=
  if bool_decide (player_id bot = player_id (player1 game))
  then Player1 else Player2.

(** The session object with its board array as getBestMove leaves it. *)
Definition withBoard (game : GameState) (b : Board) : GameState :=
  {| game_id := game_id game;
     board := b;
     player1 := player1 game;
     player2 := player2 game;
     currentTurn := currentTurn game;
     status := status game;
     winner := winner game;
     createdAt := createdAt game;
     lastMoveAt := lastMoveAt game;
     disconnectedPlayer := disconnectedPlayer game;
     disconnectTimeout := disconnectTimeout game |}.

(** [makeBotMove(gameId)] up to the move broadcast (analytics and the
    end-of-game bookkeeping follow in the source).  getBestMove works on
    the board array of the registered session, so the registry continues
    with the array as getBestMove leaves it.  When getBestMove answers
    [undefined], makeMove is called with an undefined column and fails
    ([undefined < 0] and [undefined >= cols] are false and no cell
    [board[r][undefined]] is 'empty', unless an earlier check has failed
    already): nothing is emitted and the registry stays. *)
Definition makeBotMove (gameId : string) (now : Z) (games : Registry)
  : option (list GameHandler.Emit * Registry) :=
  match getGame gameId games with
  | None => Some ([], games)
  | Some game =>
      if bool_decide (status game ≠ Active) then Some ([], games)
      else
        match botOf game with
        | None => Some ([], games)
        | Some bot =>
            let botPiece := botPieceOf game bot in
            best ← BotService.getBestMove (board game) botPiece;
            let games1 := <[gameId := withBoard game best.2]> games in
            match best.1 with
            | None => Some ([], games1)
            | Some column =>
                res ← makeMove gameId (player_id bot) column now games1;
                if success res.1 then
                  Some (match getGame gameId res.2 with
                        | Some game' =>
                            [GameHandler.EmitMoveMade gameId (position res.1)
                               botPiece (board game')]
                        | None => []
                        end, res.2)
                else Some ([], res.2)
            end
        end
  end.

End BotMove.

(** ** A session against the automated opponent *)

Module BotGame.

Import Registry Reach.

Definition robot : Player :=
  {| player_id := "id-bot"; username := "Bot"; socketId := "bot";
     isBot := true |}.

(** alice against the bot; alice has opened on column 3. *)
Definition botToMove : list RegOp :=
  [OpCreate "g1" 100 100 alice; OpJoin "g1" robot;
   OpMove "g1" "id-alice" 3 201].

End BotGame.

(** ** A session one move before its end *)

Module FinalMove.

Import Registry Reach.

(** alice holds three cells of column 0, bob three of column 1; alice is
    to move. *)
Definition aliceWinsNext : list RegOp :=
  openingOps ++
  [OpMove "g1" "id-alice" 0 201; OpMove "g1" "id-bob" 1 202;
   OpMove "g1" "id-alice" 0 203; OpMove "g1" "id-bob" 1 204;
   OpMove "g1" "id-alice" 0 205; OpMove "g1" "id-bob" 1 206].

(** alice's fourth piece on column 0: the result and the registry after. *)
Definition winningMove : option (MoveResult * GameService.Registry) :=
  GameService.makeMove "g1" "id-alice" 0 300
    (sessions (stateAfter aliceWinsNext)).

Definition winResult : MoveResult :=
  default (GameService.failure "") (fst <$> winningMove).

Definition afterWin : GameService.Registry :=
  default ∅ (snd <$> winningMove).

End FinalMove.

(** ** src/services/game.service.ts: the live sessions *)

Module LiveGames.

(** [getAllActiveGames()]: the sessions whose status is 'active' or
    'waiting', in the iteration order of the Map.  [order] lists the keys
    of the Map in that order; each session object comes with the key it is
    stored under. *)
Definition getAllActiveGames (order : list string)
    (games : GameService.Registry) : list (string * GameState) :=
  filter (λ kg, status kg.2 = Active ∨ status kg.2 = Waiting)
         (omap (λ k, (λ g, (k, g)) <$> games !! k) order).

End LiveGames.

(** ** src/websocket/game.handler.ts: leaving and coming back *)

Module Connection.

Import GameService MatchmakingService.

Inductive Notice :=
  | NoticeError (sock : string) (message : string)
      (* socket.emit('error', { message }) *)
  | NoticeGameRejoined (sock gameId : string) (b : Board) (turn : Side)
      (opponent : option string)
      (* socket.emit('game_rejoined', { gameId, board, currentTurn,
         opponent }) *)
  | NoticeOpponentDisconnected (sock : string).
      (* io.to(opponent.socketId).emit('opponent_disconnected') *)

Inductive Seat := First | Second.

(** [game.player1.id === playerId ? game.player1
     : game.player2?.id === playerId ? game.player2 : null]. *)
Definition seatOf (game : GameState) (playerId : string) : option Seat :=
  if bool_decide (player_id (player1 game) = playerId) then Some First
  else match player2 game with
       | Some p2 =>
           if bool_decide (player_id p2 = playerId) then Some Second else None
       | None => None
       end.

Definition withSocket (p : Player) (sock : string) : Player :=
  {| player_id := player_id p; username := username p; socketId := sock;
     isBot := isBot p |}.

(** [player.socketId = socket.id] on the participant object of the
    session. *)
Definition reseat (game : GameState) (seat : Seat) (sock : string)
  : GameState :=
  {| game_id := game_id game;
     board := board game;
     player1 := match seat with
                | First => withSocket (player1 game) sock
                | Second => player1 game
                end;
     player2 := match seat with
                | First => player2 game
                | Second => (λ p2, withSocket p2 sock) <$> player2 game
                end;
     currentTurn := currentTurn game;
     status := status game;
     winner := winner game;
     createdAt := createdAt game;
     lastMoveAt := lastMoveAt game;
     disconnectedPlayer := disconnectedPlayer game;
     disconnectTimeout := disconnectTimeout game |}.

(** [handleRejoinGame(socket, { gameId, playerId })] up to the
    'game_rejoined' event (the analytics call follows).  The event reads
    the session object after clearDisconnected. *)
Definition handleRejoinGame (sock gameId playerId : string) (w : Services)
  : list Notice * Services :=
  match getGame gameId (games w) with
  | None => ([NoticeError sock "Game not found"], w)
  | Some game =>
      match seatOf game playerId with
      | None => ([NoticeError sock "Player not in this game"], w)
      | Some seat =>
          let games1 := <[gameId := reseat game seat sock]> (games w) in
          let cleared := clearDisconnected gameId games1 (timers w) in
          (match getGame gameId cleared.1 with
           | Some game' =>
               [NoticeGameRejoined sock (game_id game') (board game')
                  (currentTurn game')
                  match seat with
                  | First => username <$> player2 game'
                  | Second => Some (username (player1 game'))
                  end]
           | None => []
           end,
           {| games := cleared.1; waitingPlayers := waitingPlayers w;
              timers := cleared.2 |})
      end
  end.

(** [g.player1.socketId === socket.id ||
     (g.player2 && g.player2.socketId === socket.id)]. *)
Definition involves (sock : string) (g : GameState) : bool :=
  bool_decide (socketId (player1 g) = sock)
  || match player2 g with
     | Some p2 => bool_decide (socketId p2 = sock)
     | None => false
     end.

(** [game.disconnectTimeout = timeout] on the session object stored under
    [key]. *)
Definition setDisconnectTimeout (key : string) (h : TimerId)
    (games : Registry) : Registry :=
  match games !! key with
  | None => games
  | Some game =>
      <[key := {|
          game_id := game_id game;
          board := board game;
          player1 := player1 game;
          player2 := player2 game;
          currentTurn := currentTurn game;
          status := status game;
          winner := winner game;
          createdAt := createdAt game;
          lastMoveAt := lastMoveAt game;
          disconnectedPlayer := disconnectedPlayer game;
          disconnectTimeout := Some h |}]> games
  end.

(** [handleDisconnect(socket)]; [order] is the iteration order of the
    registry (see getAllActiveGames).  The forfeiture closure is armed as
    [TaskForfeit game.id player.id]. *)
Definition handleDisconnect (order : list string) (sock : string)
    (w : Services) : list Notice * Services :=
  let w1 := removePlayerFromQueue sock w in
  match head (filter (λ kg, involves sock kg.2 = true)
                (LiveGames.getAllActiveGames order (games w1))) with
  | None => ([], w1)
  | Some (key, game) =>
      let player :=
        if bool_decide (socketId (player1 game) = sock)
        then Some (player1 game) else player2 game in
      match player with
      | None => ([], w1)
      | Some pl =>
          if isBot pl then ([], w1)
          else
            let games1 :=
              setDisconnected (game_id game) (player_id pl) (games w1) in
            let armedT :=
              setTimeout (TaskForfeit (game_id game) (player_id pl))
                (timers w1) in
            let games2 := setDisconnectTimeout key armedT.1 games1 in
            let opponent :=
              if bool_decide (player_id pl = player_id (player1 game))
              then player2 game else Some (player1 game) in
            (match opponent with
             | Some o =>
                 if isBot o then []
                 else [NoticeOpponentDisconnected (socketId o)]
             | None => []
             end,
             {| games := games2; waitingPlayers := waitingPlayers w1;
                timers := armedT.2 |})
      end
  end.

(** The runtime fires an armed forfeiture timer: the handle is spent and
    the closure runs, up to forfeitGame (the end-of-game bookkeeping
    follows in the source). *)
Definition fireForfeit (h : TimerId) (w : Services) : Services :=
  match armed (timers w) !! h with
  | Some (TaskForfeit gameId playerId) =>
      let ts := clearTimeout h (timers w) in
      match getGame gameId (games w) with
      | Some currentGame =>
          if bool_decide (disconnectedPlayer currentGame = Some playerId)
          then {| games := forfeitGame gameId playerId (games w);
                  waitingPlayers := waitingPlayers w; timers := ts |}
          else {| games := games w; waitingPlayers := waitingPlayers w;
                  timers := ts |}
      | None => {| games := games w; waitingPlayers := waitingPlayers w;
                   timers := ts |}
      end
  | _ => w
  end.

End Connection.

(** ** Vocabulary for the connection handlers *)

Module ConnectionFacts.

(** The sessions getAllActiveGames keeps. *)
Definition live (g : GameState) : Prop :=
  status g = Active ∨ status g = Waiting.

(** The session with the marker and the timer handle handleDisconnect
    leaves on it. *)
Definition marked (g : GameState) (pid : string) (h : TimerId) : GameState :=
  {| game_id := game_id g;
     board := board g;
     player1 := player1 g;
     player2 := player2 g;
     currentTurn := currentTurn g;
     status := status g;
     winner := winner g;
     createdAt := createdAt g;
     lastMoveAt := lastMoveAt g;
     disconnectedPlayer := Some pid;
     disconnectTimeout := Some h |}.

(** [pl] is the participant of [g] that handleDisconnect finds for the
    connection [sock], [opp] the other participant. *)
Definition holds (g : GameState) (sock : string) (pl opp : Player) : Prop :=
  (socketId (player1 g) = sock ∧ pl = player1 g ∧ player2 g = Some opp) ∨
  (socketId (player1 g) ≠ sock ∧ player2 g = Some pl ∧ socketId pl = sock ∧
   opp = player1 g).

(** The play of a session: everything but connection handles, the
    disconnect marker, its timer handle and the time stamps. *)
Definition samePlay (g g' : GameState) : Prop :=
  game_id g' = game_id g ∧ board g' = board g ∧
  currentTurn g' = currentTurn g ∧ status g' = status g ∧
  winner g' = winner g ∧
  player_id (player1 g') = player_id (player1 g) ∧
  player_id <$> player2 g' = player_id <$> player2 g.

(** Every session is still registered, with the same play. *)
Definition keepsPlay (games games' : GameService.Registry) : Prop :=
  ∀ k g, games !! k = Some g →
         ∃ g', games' !! k = Some g' ∧ samePlay g g'.

End ConnectionFacts.

(** ** alice and bob in a session, nobody waiting *)

Module ConnectionExamples.

Import Registry Reach.

Definition playing : MatchmakingService.Services :=
  {| MatchmakingService.games := sessions (stateAfter HandlerExamples.bobToMove);
     MatchmakingService.waitingPlayers := [];
     MatchmakingService.timers := noTimers |}.

End ConnectionExamples.

(** ** A session played to a draw *)

Module DrawnGame.

Import Registry Reach.

(** Forty-two moves, alice and bob alternating, none completing four. *)
Definition drawnOps : list RegOp :=
  openingOps ++
  [
   OpMove "g1" "id-alice" 5 201; OpMove "g1" "id-bob" 4 202;
   OpMove "g1" "id-alice" 5 203; OpMove "g1" "id-bob" 0 204;
   OpMove "g1" "id-alice" 6 205; OpMove "g1" "id-bob" 2 206;
   OpMove "g1" "id-alice" 4 207; OpMove "g1" "id-bob" 5 208;
   OpMove "g1" "id-alice" 5 209; OpMove "g1" "id-bob" 0 210;
   OpMove "g1" "id-alice" 4 211; OpMove "g1" "id-bob" 1 212;
   OpMove "g1" "id-alice" 1 213; OpMove "g1" "id-bob" 0 214;
   OpMove "g1" "id-alice" 4 215; OpMove "g1" "id-bob" 5 216;
   OpMove "g1" "id-alice" 6 217; OpMove "g1" "id-bob" 5 218;
   OpMove "g1" "id-alice" 3 219; OpMove "g1" "id-bob" 1 220;
   OpMove "g1" "id-alice" 1 221; OpMove "g1" "id-bob" 2 222;
   OpMove "g1" "id-alice" 2 223; OpMove "g1" "id-bob" 6 224;
   OpMove "g1" "id-alice" 2 225; OpMove "g1" "id-bob" 6 226;
   OpMove "g1" "id-alice" 6 227; OpMove "g1" "id-bob" 3 228;
   OpMove "g1" "id-alice" 6 229; OpMove "g1" "id-bob" 2 230;
   OpMove "g1" "id-alice" 0 231; OpMove "g1" "id-bob" 3 232;
   OpMove "g1" "id-alice" 0 233; OpMove "g1" "id-bob" 3 234;
   OpMove "g1" "id-alice" 3 235; OpMove "g1" "id-bob" 4 236;
   OpMove "g1" "id-alice" 3 237; OpMove "g1" "id-bob" 1 238;
   OpMove "g1" "id-alice" 4 239; OpMove "g1" "id-bob" 2 240;
   OpMove "g1" "id-alice" 1 241; OpMove "g1" "id-bob" 0 242].

End DrawnGame.

(** * Proofs *)

(** ** The grid and the scanning loop *)

Section Scan.

Context (b : Board) (piece : CellValue).

Lemma hit_true r c :
  hit b piece r c = true ↔
  0 ≤ r < Config.rows ∧ 0 ≤ c < Config.cols ∧ cellAt b r c = Some piece.
Proof.
  unfold hit. rewrite !andb_true_iff, bool_decide_eq_true.
  rewrite !Z.leb_le, !Z.ltb_lt. intuition lia.
Qed.

Lemma hit_false r c :
  hit b piece r c = false ↔
  ¬ (0 ≤ r < Config.rows ∧ 0 ≤ c < Config.cols ∧ cellAt b r c = Some piece).
Proof. rewrite <- hit_true. destruct (hit b piece r c); naive_solver. Qed.

(** A scan that returns has counted a maximal stretch of hits. *)
Lemma scan_Some fuel r c dr dc n m :
  scan fuel b piece r c dr dc n = Some m →
  ∃ k, 0 ≤ k ∧ m = n + k ∧
       (∀ i, 0 ≤ i < k → hit b piece (r + i * dr) (c + i * dc) = true) ∧
       hit b piece (r + k * dr) (c + k * dc) = false.
Proof.
  revert r c n. induction fuel as [|fuel IH]; intros r c n; simpl; [done|].
  destruct (hit b piece r c) eqn:Hh.
  - intros Hs. destruct (IH _ _ _ Hs) as (k & Hk & -> & Hall & Hstop).
    exists (k + 1). split_and!; [lia | lia | |].
    + intros i Hi. destruct (decide (i = 0)) as [->|Hne].
      * by rewrite !Z.mul_0_l, !Z.add_0_r.
      * specialize (Hall (i - 1) ltac:(lia)).
        by replace (r + dr + (i - 1) * dr) with (r + i * dr) in Hall by lia;
           replace (c + dc + (i - 1) * dc) with (c + i * dc) in Hall by lia.
    + by replace (r + (k + 1) * dr) with (r + dr + k * dr) by lia;
         replace (c + (k + 1) * dc) with (c + dc + k * dc) by lia.
  - intros [= <-]. exists 0. split_and!; [lia | lia | intros; lia |].
    by rewrite !Z.mul_0_l, !Z.add_0_r.
Qed.

(** A scan that runs out of fuel has seen nothing but hits. *)
Lemma scan_None fuel r c dr dc n :
  scan fuel b piece r c dr dc n = None →
  ∀ i, 0 ≤ i < Z.of_nat fuel →
       hit b piece (r + i * dr) (c + i * dc) = true.
Proof.
  revert r c n. induction fuel as [|fuel IH]; intros r c n; simpl.
  { intros _ i Hi. lia. }
  destruct (hit b piece r c) eqn:Hh; [|done].
  intros Hs i Hi. destruct (decide (i = 0)) as [->|Hne].
  - by rewrite !Z.mul_0_l, !Z.add_0_r.
  - specialize (IH _ _ _ Hs (i - 1) ltac:(lia)).
    by replace (r + dr + (i - 1) * dr) with (r + i * dr) in IH by lia;
       replace (c + dc + (i - 1) * dc) with (c + i * dc) in IH by lia.
Qed.

(** Along a direction that moves, the loop leaves the board before the
    fuel is spent. *)
Lemma scan_terminates r c dr dc n :
  dr ≠ 0 ∨ dc ≠ 0 →
  ∃ m, scan loop_fuel b piece r c dr dc n = Some m.
Proof.
  intros Hmove.
  destruct (scan loop_fuel b piece r c dr dc n) as [m|] eqn:Hs; [by eexists|].
  exfalso.
  assert (Z.of_nat loop_fuel = 13) as Hfuel by reflexivity.
  pose proof (scan_None _ _ _ _ _ _ Hs 0 ltac:(lia)) as H0.
  pose proof (scan_None _ _ _ _ _ _ Hs 7 ltac:(lia)) as H7.
  apply hit_true in H0 as (? & ? & _). apply hit_true in H7 as (? & ? & _).
  unfold Config.rows, Config.cols in *. lia.
Qed.

(** A stationary scan on a hit never leaves its loop. *)
Lemma scan_diverges fuel r c n :
  hit b piece r c = true → scan fuel b piece r c 0 0 n = None.
Proof.
  intros Hh. revert n. induction fuel as [|fuel IH]; intros n; simpl; [done|].
  rewrite Hh, !Z.add_0_r. apply IH.
Qed.

(** The count of the two scans: one for the cell, [kp] hits forward and
    [kn] hits backward, each stretch maximal. *)
Lemma countBothWays_spec r c dr dc :
  dr ≠ 0 ∨ dc ≠ 0 →
  ∃ kp kn, 0 ≤ kp ∧ 0 ≤ kn ∧
    countBothWays b r c dr dc piece = Some (1 + kp + kn) ∧
    (∀ i, 1 ≤ i ≤ kp → hit b piece (r + i * dr) (c + i * dc) = true) ∧
    hit b piece (r + (kp + 1) * dr) (c + (kp + 1) * dc) = false ∧
    (∀ i, 1 ≤ i ≤ kn → hit b piece (r - i * dr) (c - i * dc) = true) ∧
    hit b piece (r - (kn + 1) * dr) (c - (kn + 1) * dc) = false.
Proof.
  intros Hmove. unfold countBothWays.
  destruct (scan_terminates (r + dr) (c + dc) dr dc 1 Hmove) as [m1 Hm1].
  rewrite Hm1. cbn [mbind option_bind].
  destruct (scan_terminates (r - dr) (c - dc) (- dr) (- dc) m1
              ltac:(lia)) as [m2 Hm2].
  rewrite Hm2.
  apply scan_Some in Hm1 as (kp & Hkp & -> & Hp & Hpstop).
  apply scan_Some in Hm2 as (kn & Hkn & -> & Hn & Hnstop).
  exists kp, kn. split_and!; [done | done | f_equal; lia | | | |].
  - intros i Hi. specialize (Hp (i - 1) ltac:(lia)).
    by replace (r + dr + (i - 1) * dr) with (r + i * dr) in Hp by lia;
       replace (c + dc + (i - 1) * dc) with (c + i * dc) in Hp by lia.
  - by replace (r + (kp + 1) * dr) with (r + dr + kp * dr) by lia;
       replace (c + (kp + 1) * dc) with (c + dc + kp * dc) by lia.
  - intros i Hi. specialize (Hn (i - 1) ltac:(lia)).
    by replace (r - dr + (i - 1) * - dr) with (r - i * dr) in Hn by lia;
       replace (c - dc + (i - 1) * - dc) with (c - i * dc) in Hn by lia.
  - by replace (r - (kn + 1) * dr) with (r - dr + kn * - dr) by lia;
       replace (c - (kn + 1) * dc) with (c - dc + kn * - dc) by lia.
Qed.

End Scan.

(** ** Reading and writing cells *)

Section Cells.

Implicit Types (b : Board) (r c : Z) (v : CellValue).

Lemma cellAt_Some b r c v :
  cellAt b r c = Some v ↔
  0 ≤ r ∧ 0 ≤ c ∧ ∃ line, b !! Z.to_nat r = Some line ∧ line !! Z.to_nat c = Some v.
Proof.
  unfold cellAt. case_bool_decide as Hrc.
  - destruct (b !! Z.to_nat r) as [line|]; simpl.
    + split; [intros Hv; split_and!; [lia | lia | by exists line] |].
      by intros (_ & _ & line' & [= <-] & Hv).
    + split; [done | by intros (_ & _ & line' & [=] & _)].
  - split; [done | intros (? & ? & _); lia].
Qed.

Lemma is_grid_spec b :
  is_grid b = true ↔
  length b = 6%nat ∧ ∀ i line, b !! i = Some line → length line = 7%nat.
Proof.
  unfold is_grid. rewrite andb_true_iff, bool_decide_eq_true, forallb_forall.
  change (Z.to_nat Config.rows) with 6%nat.
  change (Z.to_nat Config.cols) with 7%nat.
  split; intros [Hl Hall]; split; try done.
  - intros i line Hi. eapply bool_decide_eq_true_1, Hall, list_elem_of_In.
    by eapply list_elem_of_lookup_2.
  - intros line Hin. apply bool_decide_eq_true_2.
    apply list_elem_of_In, list_elem_of_lookup in Hin as [i Hi]. eauto.
Qed.

Lemma is_grid_inside b r c v :
  is_grid b = true → cellAt b r c = Some v →
  0 ≤ r < Config.rows ∧ 0 ≤ c < Config.cols.
Proof.
  intros [Hl Hall]%is_grid_spec (Hr & Hc & line & Hline & Hv)%cellAt_Some.
  pose proof (lookup_lt_Some _ _ _ Hline).
  pose proof (lookup_lt_Some _ _ _ Hv).
  rewrite (Hall _ _ Hline) in *. unfold Config.rows, Config.cols. lia.
Qed.

Lemma is_grid_defined b r c :
  is_grid b = true → 0 ≤ r < Config.rows → 0 ≤ c < Config.cols →
  ∃ v, cellAt b r c = Some v.
Proof.
  intros [Hl Hall]%is_grid_spec Hr Hc. unfold Config.rows, Config.cols in *.
  destruct (lookup_lt_is_Some_2 b (Z.to_nat r)) as [line Hline]; [lia|].
  destruct (lookup_lt_is_Some_2 line (Z.to_nat c)) as [v Hv].
  { rewrite (Hall _ _ Hline). lia. }
  exists v. apply cellAt_Some. split_and!; [lia | lia | by exists line].
Qed.

Lemma cellAt_setCell_eq b r c v v0 :
  cellAt b r c = Some v0 → cellAt (setCell b r c v) r c = Some v.
Proof.
  intros (Hr & Hc & line & Hline & Hv)%cellAt_Some.
  apply cellAt_Some. split_and!; [done..|].
  unfold setCell. rewrite bool_decide_eq_true_2, Hline by done.
  exists (<[Z.to_nat c := v]> line). split.
  - apply list_lookup_insert_eq. by eapply lookup_lt_Some.
  - apply list_lookup_insert_eq. by eapply lookup_lt_Some.
Qed.

Lemma cellAt_setCell_ne b r c v r' c' :
  (r', c') ≠ (r, c) → cellAt (setCell b r c v) r' c' = cellAt b r' c'.
Proof.
  intros Hne. unfold setCell. case_bool_decide as Hrc; [|done].
  destruct (b !! Z.to_nat r) as [line|] eqn:Hline; [|done].
  unfold cellAt. case_bool_decide as Hrc'; [|done].
  destruct (decide (Z.to_nat r' = Z.to_nat r)) as [Heq|Hnr].
  - rewrite Heq. rewrite list_lookup_insert_eq, Hline by (by eapply lookup_lt_Some).
    simpl. apply list_lookup_insert_ne. intros Hc. apply Hne.
    f_equal; lia.
  - by rewrite list_lookup_insert_ne.
Qed.

(** Writing back what was read undoes a write. *)
Lemma setCell_restore b r c v v0 :
  cellAt b r c = Some v0 → setCell (setCell b r c v) r c v0 = b.
Proof.
  intros (Hr & Hc & line & Hline & Hv)%cellAt_Some.
  unfold setCell at 2. rewrite bool_decide_eq_true_2, Hline by done.
  unfold setCell. rewrite bool_decide_eq_true_2 by done.
  rewrite list_lookup_insert_eq by (by eapply lookup_lt_Some).
  rewrite list_insert_insert_eq, list_insert_insert_eq.
  rewrite (list_insert_id line) by done. by apply list_insert_id.
Qed.

Lemma is_grid_setCell b r c v : is_grid (setCell b r c v) = is_grid b.
Proof.
  unfold setCell. case_bool_decide; [|done].
  destruct (b !! Z.to_nat r) as [line|] eqn:Hline; [|done].
  apply eq_true_iff_eq. rewrite !is_grid_spec, !length_insert.
  split; intros [Hl Hall]; (split; [done|]); intros i l' Hi.
  - destruct (decide (i = Z.to_nat r)) as [->|Hne].
    + rewrite <- (length_insert l' (Z.to_nat c) v).
      apply (Hall (Z.to_nat r)).
      rewrite list_lookup_insert_eq by (by eapply lookup_lt_Some).
      congruence.
    + apply (Hall i). by rewrite list_lookup_insert_ne.
  - destruct (decide (i = Z.to_nat r)) as [->|Hne].
    + rewrite list_lookup_insert_eq in Hi by (by eapply lookup_lt_Some).
      injection Hi as <-. rewrite length_insert. eauto.
    + rewrite list_lookup_insert_ne in Hi by done. eauto.
Qed.

End Cells.

(** ** Counts and runs *)

Section Runs.

Context (b : Board) (Hgrid : is_grid b = true).

(** On a grid, the count of the two scans reaches [n] exactly when the
    cell lies in a run of at least [n]. *)
Lemma count_reaches_iff r c dr dc piece n k :
  dr ≠ 0 ∨ dc ≠ 0 →
  cellAt b r c = Some piece →
  countBothWays b r c dr dc piece = Some k →
  n ≤ k ↔ Spec.in_run b r c dr dc piece n.
Proof.
  intros Hmove Hcell Hk.
  destruct (countBothWays_spec b piece r c dr dc Hmove)
    as (kp & kn & Hkp & Hkn & Hcount & Hp & Hpstop & Hn & Hnstop).
  rewrite Hk in Hcount. injection Hcount as ->.
  split.
  - intros Hle. exists (- kn), kp. split_and!; [lia.. |].
    intros i Hi.
    destruct (Z.lt_trichotomy i 0) as [Hneg | [-> | Hpos]].
    + specialize (Hn (- i) ltac:(lia)). apply hit_true in Hn as (_ & _ & Hn).
      by replace (r - - i * dr) with (r + i * dr) in Hn by lia;
         replace (c - - i * dc) with (c + i * dc) in Hn by lia.
    + by rewrite !Z.mul_0_l, !Z.add_0_r.
    + specialize (Hp i ltac:(lia)). by apply hit_true in Hp as (_ & _ & Hp).
  - intros (lo & hi & H0 & Hlen & Hall).
    assert (hi ≤ kp) as Hhi.
    { destruct (decide (hi ≤ kp)) as [|Hgt]; [done|]. exfalso.
      apply hit_false in Hpstop. apply Hpstop.
      specialize (Hall (kp + 1) ltac:(lia)).
      destruct (is_grid_inside _ _ _ _ Hgrid Hall). done. }
    assert (- lo ≤ kn) as Hlo.
    { destruct (decide (- lo ≤ kn)) as [|Hgt]; [done|]. exfalso.
      apply hit_false in Hnstop. apply Hnstop.
      specialize (Hall (- (kn + 1)) ltac:(lia)).
      replace (r + - (kn + 1) * dr) with (r - (kn + 1) * dr) in Hall by lia.
      replace (c + - (kn + 1) * dc) with (c - (kn + 1) * dc) in Hall by lia.
      destruct (is_grid_inside _ _ _ _ Hgrid Hall). done. }
    lia.
Qed.

Lemma countBothWays_total r c dr dc piece :
  dr ≠ 0 ∨ dc ≠ 0 → ∃ k, countBothWays b r c dr dc piece = Some k ∧ 1 ≤ k.
Proof.
  intros Hmove.
  destruct (countBothWays_spec b piece r c dr dc Hmove)
    as (kp & kn & Hkp & Hkn & Hcount & _).
  exists (1 + kp + kn). split; [done | lia].
Qed.

End Runs.

(** ** GameService.checkWinner *)

Section CheckWinner.

Context (b : Board) (Hgrid : is_grid b = true).

Lemma GameService_checkDirection_spec r c dr dc piece :
  dr ≠ 0 ∨ dc ≠ 0 →
  cellAt b r c = Some piece →
  ∃ res, GameService.checkDirection b r c dr dc piece = Some res ∧
         (res = true ↔ Spec.in_run b r c dr dc piece 4).
Proof.
  intros Hmove Hcell. unfold GameService.checkDirection.
  destruct (countBothWays_total b r c dr dc piece Hmove) as (k & Hk & _).
  rewrite Hk. cbn [mbind option_bind]. eexists. split; [done|].
  rewrite Z.leb_le. by apply count_reaches_iff.
Qed.

Lemma checkWinner_spec r c s :
  cellAt b r c = Some (Piece s) →
  ∃ res, GameService.checkWinner b r c = Some res ∧
         (res = true ↔ Spec.on_some_axis b r c (Piece s) 4).
Proof.
  intros Hcell. unfold GameService.checkWinner. rewrite Hcell. cbv zeta.
  destruct (GameService_checkDirection_spec r c 0 1 _ ltac:(lia) Hcell)
    as (h & Eh & Hh).
  destruct (GameService_checkDirection_spec r c 1 0 _ ltac:(lia) Hcell)
    as (v & Ev & Hv).
  destruct (GameService_checkDirection_spec r c 1 1 _ ltac:(lia) Hcell)
    as (d & Ed & Hd).
  destruct (GameService_checkDirection_spec r c 1 (-1) _ ltac:(lia) Hcell)
    as (a & Ea & Ha).
  assert (Spec.on_some_axis b r c (Piece s) 4 ↔
          h = true ∨ v = true ∨ d = true ∨ a = true) as Haxes.
  { unfold Spec.on_some_axis, Spec.axes. rewrite Hh, Hv, Hd, Ha. split.
    - intros ([dr dc] & Hin & Hrun). simpl in Hrun.
      repeat (apply elem_of_cons in Hin as [[= -> ->]|Hin]; [tauto|]).
      by apply elem_of_nil in Hin.
    - intros [H|[H|[H|H]]];
        [exists (0, 1) | exists (1, 0) | exists (1, 1) | exists (1, -1)];
        (split; [apply list_elem_of_In; simpl; tauto | done]). }
  rewrite Eh. cbn [mbind option_bind].
  destruct h; [eexists; split; [done | rewrite Haxes; tauto]|].
  rewrite Ev. cbn [mbind option_bind].
  destruct v; [eexists; split; [done | rewrite Haxes; tauto]|].
  rewrite Ed. cbn [mbind option_bind].
  destruct d; [eexists; split; [done | rewrite Haxes; tauto]|].
  rewrite Ea. cbn [mbind option_bind].
  destruct a; eexists; (split; [done|]); rewrite Haxes; intuition congruence.
Qed.

End CheckWinner.

(** C3.  On every 6 x 7 grid and for every cell (row, column) that holds a
    piece, checkWinner returns, and it returns true exactly when the cell
    lies in a contiguous run of four or more cells holding that piece along
    one of the four axes (horizontal, vertical, the two diagonals), the run
    extending from the cell in both directions.  With side A on (5,0),
    (5,1), (5,2), the placement on (5,3) is reported as a win; with (5,2)
    empty it is not. *)
Theorem checkWinner_iff_run_of_four :
  (∀ (b : Board) (r c : Z) (s : Side),
     is_grid b = true →
     cellAt b r c = Some (Piece s) →
     ∃ res, GameService.checkWinner b r c = Some res ∧
            (res = true ↔ Spec.on_some_axis b r c (Piece s) 4))
  ∧ GameService.checkWinner Examples.rowOfFour 5 3 = Some true
  ∧ GameService.checkWinner Examples.rowWithGap 5 3 = Some false.
Proof.
  split_and!; [| by vm_compute | by vm_compute].
  intros b r c s Hgrid Hcell. by apply checkWinner_spec.
Qed.

(** The placement on (5,3) of [rowOfFour] lies in a horizontal run of four. *)
Lemma checkWinner_iff_run_of_four_witness :
  ∃ res, GameService.checkWinner Examples.rowOfFour 5 3 = Some res ∧
         (res = true ↔
          Spec.on_some_axis Examples.rowOfFour 5 3 (Piece Player1) 4).
Proof.
  apply (proj1 checkWinner_iff_run_of_four Examples.rowOfFour 5 3 Player1).
  - reflexivity.
  - reflexivity.
Defined.

(** ** GameService.makeMove *)

Section MakeMove.

Import GameService Outcomes.

Lemma findRow_cases b column n :
  (findRow b column n = -1 ∧
   ∀ i, 0 ≤ i < Z.of_nat n → cellAt b i column ≠ Some EmptyCell) ∨
  (0 ≤ findRow b column n < Z.of_nat n ∧
   cellAt b (findRow b column n) column = Some EmptyCell ∧
   ∀ i, findRow b column n < i < Z.of_nat n →
        cellAt b i column ≠ Some EmptyCell).
Proof.
  induction n as [|n IH]; simpl.
  - left. split; [done | intros; lia].
  - case_bool_decide as Hcell.
    + right. split_and!; [lia | lia | done | intros; lia].
    + destruct IH as [[Hnone Hall] | (Hr & Hcell' & Hall)].
      * left. split; [done|]. intros i Hi.
        destruct (decide (i = Z.of_nat n)) as [->|]; [done | apply Hall; lia].
      * right. split_and!; [lia | lia | done |]. intros i Hi.
        destruct (decide (i = Z.of_nat n)) as [->|]; [done | apply Hall; lia].
Qed.

Lemma checkWinner_total b r c : ∃ res, checkWinner b r c = Some res.
Proof.
  unfold checkWinner.
  destruct (cellAt b r c) as [[|s]|]; [by eexists | | by eexists].
  cbv zeta. unfold checkDirection.
  destruct (countBothWays_total b r c 0 1 (Piece s) ltac:(lia)) as (k1 & E1 & _).
  destruct (countBothWays_total b r c 1 0 (Piece s) ltac:(lia)) as (k2 & E2 & _).
  destruct (countBothWays_total b r c 1 1 (Piece s) ltac:(lia)) as (k3 & E3 & _).
  destruct (countBothWays_total b r c 1 (-1) (Piece s) ltac:(lia)) as (k4 & E4 & _).
  rewrite E1. cbn [mbind option_bind]. destruct (4 <=? k1); [by eexists|].
  rewrite E2. cbn [mbind option_bind]. destruct (4 <=? k2); [by eexists|].
  rewrite E3. cbn [mbind option_bind]. destruct (4 <=? k3); [by eexists|].
  rewrite E4. cbn [mbind option_bind]. destruct (4 <=? k4); by eexists.
Qed.

(** makeMove always returns. *)
Lemma makeMove_total gid pid column now (games : gmap string GameState) :
  ∃ res games', makeMove gid pid column now games = Some (res, games').
Proof.
  unfold makeMove. destruct (games !! gid) as [game|]; [|by eexists _, _].
  case_bool_decide; [by eexists _, _|].
  destruct (currentPlayerOf game) as [p|]; [|by eexists _, _].
  case_bool_decide; [by eexists _, _|].
  destruct (_ || _); [by eexists _, _|]. cbv zeta.
  case_bool_decide; [by eexists _, _|].
  destruct (checkWinner_total
              (board (placed game (findRow (board game) column
                                     (Z.to_nat Config.rows)) column now))
              (findRow (board game) column (Z.to_nat Config.rows)) column)
    as [won ->].
  cbn [mbind option_bind].
  destruct won; [by eexists _, _|]. destruct (isBoardFull _); by eexists _, _.
Qed.

(** A failed move leaves the registry as it was. *)
Lemma makeMove_failure_unchanged gid pid column now
    (games games' : gmap string GameState) res :
  makeMove gid pid column now games = Some (res, games') →
  success res = false → games' = games.
Proof.
  unfold makeMove. destruct (games !! gid) as [game|]; [|by intros [= <- <-]].
  case_bool_decide; [by intros [= <- <-]|].
  destruct (currentPlayerOf game) as [p|]; [|by intros [= <- <-]].
  case_bool_decide; [by intros [= <- <-]|].
  destruct (_ || _); [by intros [= <- <-]|]. cbv zeta.
  case_bool_decide; [by intros [= <- <-]|].
  destruct (checkWinner _ _ _) as [won|]; [|done]. cbn [mbind option_bind].
  destruct won; [by intros [= <- <-]|].
  destruct (isBoardFull _); by intros [= <- <-].
Qed.

(** The error, check by check. *)
Lemma makeMove_not_found gid pid column now (games : gmap string GameState) :
  games !! gid = None →
  makeMove gid pid column now games = Some (failure "Game not found", games).
Proof. intros Hg. unfold makeMove. by rewrite Hg. Qed.

Lemma makeMove_not_active gid pid column now
    (games : gmap string GameState) game :
  games !! gid = Some game → status game ≠ Active →
  makeMove gid pid column now games = Some (failure "Game is not active", games).
Proof.
  intros Hg Hst. unfold makeMove. rewrite Hg. by rewrite bool_decide_eq_true_2.
Qed.

Lemma makeMove_not_your_turn gid pid column now
    (games : gmap string GameState) game :
  games !! gid = Some game → status game = Active →
  (∀ p, currentPlayerOf game = Some p → player_id p ≠ pid) →
  makeMove gid pid column now games = Some (failure "Not your turn", games).
Proof.
  intros Hg Hst Hturn. unfold makeMove. rewrite Hg.
  rewrite bool_decide_eq_false_2 by (by intros []).
  destruct (currentPlayerOf game) as [p|]; [|done].
  by rewrite bool_decide_eq_true_2 by (by apply Hturn).
Qed.

Lemma makeMove_out_of_range gid pid column now
    (games : gmap string GameState) game p :
  games !! gid = Some game → status game = Active →
  currentPlayerOf game = Some p → player_id p = pid →
  column < 0 ∨ Config.cols ≤ column →
  makeMove gid pid column now games = Some (failure "Invalid column", games).
Proof.
  intros Hg Hst Hp Hid Hcol. unfold makeMove. rewrite Hg, Hp.
  rewrite bool_decide_eq_false_2 by (by intros []).
  rewrite bool_decide_eq_false_2 by (by intros []).
  destruct (_ || _) eqn:Hrange; [done|].
  apply orb_false_iff in Hrange as [?%Z.ltb_ge ?%Z.leb_gt]. lia.
Qed.

Lemma makeMove_column_full gid pid column now
    (games : gmap string GameState) game p :
  games !! gid = Some game → status game = Active →
  currentPlayerOf game = Some p → player_id p = pid →
  0 ≤ column < Config.cols →
  (∀ r, 0 ≤ r < Config.rows → cellAt (board game) r column ≠ Some EmptyCell) →
  makeMove gid pid column now games = Some (failure "Column is full", games).
Proof.
  intros Hg Hst Hp Hid Hcol Hfull. unfold makeMove. rewrite Hg, Hp.
  rewrite bool_decide_eq_false_2 by (by intros []).
  rewrite bool_decide_eq_false_2 by (by intros []).
  destruct (_ || _) eqn:Hrange.
  { apply orb_true_iff in Hrange as [?%Z.ltb_lt | ?%Z.leb_le]; lia. }
  cbv zeta.
  destruct (findRow_cases (board game) column (Z.to_nat Config.rows))
    as [[-> _] | (Hr & Hcell & _)]; [done|].
  exfalso. eapply Hfull; [|done]. unfold Config.rows in *. lia.
Qed.

End MakeMove.

(** ** Invariants of the registry *)

Section RegistryInvariants.

Import GameService Outcomes Registry Invariants.

Lemma emptyBoard_cell r c :
  0 ≤ r < Config.rows → 0 ≤ c < Config.cols →
  cellAt emptyBoard r c = Some EmptyCell.
Proof.
  intros Hr Hc. apply cellAt_Some. split_and!; [lia | lia |].
  unfold emptyBoard. eexists. split.
  - apply lookup_replicate_2. unfold Config.rows in *. lia.
  - apply lookup_replicate_2. unfold Config.cols in *. lia.
Qed.

Lemma emptyBoard_stacked : stacked emptyBoard.
Proof.
  intros r r' c Hr Hr' Hcell Hcell'. apply Hcell.
  destruct (is_grid_inside emptyBoard r' c EmptyCell eq_refl Hcell') as [_ Hc].
  apply emptyBoard_cell; lia.
Qed.

Lemma isBoardFull_top b :
  is_grid b = true →
  isBoardFull b = true ↔
  ∀ c, 0 ≤ c < Config.cols → cellAt b 0 c ≠ Some EmptyCell.
Proof.
  intros Hgrid. pose proof Hgrid as [Hlen Hall]%is_grid_spec.
  unfold isBoardFull.
  destruct (b !! 0%nat) as [top|] eqn:Htop.
  2: { apply lookup_ge_None in Htop. lia. }
  rewrite forallb_forall. split.
  - intros Hfull c Hc Hcell.
    apply cellAt_Some in Hcell as (_ & _ & line & Hline & Hv).
    change (Z.to_nat 0) with 0%nat in Hline. rewrite Htop in Hline.
    injection Hline as <-.
    specialize (Hfull EmptyCell). rewrite bool_decide_eq_true in Hfull.
    apply Hfull; [|done]. apply list_elem_of_In. by eapply list_elem_of_lookup_2.
  - intros Hfull v Hin. apply bool_decide_eq_true_2. intros ->.
    apply list_elem_of_In, list_elem_of_lookup in Hin as [i Hi].
    pose proof (lookup_lt_Some _ _ _ Hi) as Hlt.
    rewrite (Hall _ _ Htop) in Hlt.
    apply (Hfull (Z.of_nat i)); [unfold Config.cols; lia|].
    apply cellAt_Some. split_and!; [lia | lia |].
    exists top. by rewrite Nat2Z.id.
Qed.

(** On a grid whose pieces are stacked, a full top row is a full grid. *)
Lemma isBoardFull_full b :
  is_grid b = true → stacked b → isBoardFull b = true ↔ full b.
Proof.
  intros Hgrid Hst. rewrite isBoardFull_top by done. split.
  - intros Htop r c Hr Hc.
    destruct (decide (r = 0)) as [->|]; [by apply Htop|].
    apply (Hst 0 r c); [lia | lia | by apply Htop].
  - intros Hfull c Hc. apply Hfull; [unfold Config.rows; lia | done].
Qed.

(** Placing on the lowest empty cell keeps the pieces stacked. *)
Lemma stacked_setCell b r c s :
  stacked b →
  (∀ i, r < i < Config.rows → cellAt b i c ≠ Some EmptyCell) →
  cellAt b r c = Some EmptyCell →
  stacked (setCell b r c (Piece s)).
Proof.
  intros Hst Hbelow Hcell r0 r' c0 Hr0 Hr' Hfilled.
  destruct (decide ((r', c0) = (r, c))) as [[= -> ->]|Hne'].
  { by rewrite (cellAt_setCell_eq _ _ _ _ _ Hcell). }
  rewrite cellAt_setCell_ne by done.
  destruct (decide ((r0, c0) = (r, c))) as [[= -> ->]|Hne0].
  - apply Hbelow. lia.
  - rewrite cellAt_setCell_ne in Hfilled by done. by eapply Hst.
Qed.

Lemma currentPlayerOf_sideId g p :
  currentPlayerOf g = Some p → sideId g (currentTurn g) = Some (player_id p).
Proof.
  unfold currentPlayerOf, sideId.
  destruct (currentTurn g); [by intros [= <-] | by intros ->].
Qed.

End RegistryInvariants.

(** ** Successful moves and what the operations preserve *)

Section Preservation.

Import GameService Outcomes Registry Invariants.

(** Every way makeMove can return: a failure that leaves the registry
    alone, or a placement on the lowest empty cell by the participant whose
    turn it is, followed by the win, draw or turn branch. *)
Lemma makeMove_inv gid pid column now
    (games games' : gmap string GameState) res :
  makeMove gid pid column now games = Some (res, games') →
  (success res = false ∧ games' = games) ∨
  ∃ game p r won,
    games !! gid = Some game ∧ status game = Active ∧
    currentPlayerOf game = Some p ∧ player_id p = pid ∧
    0 ≤ column < Config.cols ∧ 0 ≤ r < Config.rows ∧
    cellAt (board game) r column = Some EmptyCell ∧
    (∀ i, r < i < Config.rows → cellAt (board game) i column ≠ Some EmptyCell) ∧
    checkWinner (board (placed game r column now)) r column = Some won ∧
    let game1 := placed game r column now in
    let pos := {| row := r; col := column |} in
    (res, games') =
      if won then
        (okWin pos pid,
         <[gid := withOutcome game1 Completed (Some pid) (currentTurn game)]> games)
      else if isBoardFull (board game1) then
        (okDraw pos,
         <[gid := withOutcome game1 Completed (winner game) (currentTurn game)]> games)
      else
        (okMove pos,
         <[gid := withOutcome game1 Active (winner game)
                    (otherSide (currentTurn game))]> games).
Proof.
  unfold makeMove. destruct (games !! gid) as [game|] eqn:Hg.
  2: { intros [= <- <-]. by left. }
  case_bool_decide as Hst; [intros [= <- <-]; by left|].
  destruct (currentPlayerOf game) as [p|] eqn:Hp; [|intros [= <- <-]; by left].
  case_bool_decide as Hid; [intros [= <- <-]; by left|].
  destruct (_ || _) eqn:Hrange; [intros [= <- <-]; by left|].
  apply orb_false_iff in Hrange as [Hlo%Z.ltb_ge Hhi%Z.leb_gt].
  cbv zeta. case_bool_decide as Hrow; [intros [= <- <-]; by left|].
  destruct (findRow_cases (board game) column (Z.to_nat Config.rows))
    as [[Hnone _] | (Hr & Hcell & Hbelow)]; [done|].
  set (r := findRow (board game) column (Z.to_nat Config.rows)) in *.
  destruct (checkWinner (board (placed game r column now)) r column)
    as [won|] eqn:Hwon; [|done].
  cbn [mbind option_bind]. intros Hres. right.
  pose proof Hst as Hact. pose proof Hid as Hpid.
  exists game, p, r, won.
  change (Z.of_nat (Z.to_nat Config.rows)) with Config.rows in *.
  split_and!; try done; try lia.
  cbv zeta. rewrite <- Hpid.
  destruct won; [by injection Hres as <- <-|].
  simpl in Hres. rewrite Hact in Hres.
  destruct (isBoardFull _); by injection Hres as <- <-.
Qed.

(** With the session active, the caller on turn and a column that has an
    empty cell, makeMove does not fail. *)
Lemma makeMove_succeeds gid column now (games : gmap string GameState) game p :
  games !! gid = Some game → status game = Active →
  currentPlayerOf game = Some p →
  0 ≤ column < Config.cols →
  (∃ r0, 0 ≤ r0 < Config.rows ∧ cellAt (board game) r0 column = Some EmptyCell) →
  ∃ res games',
    makeMove gid (player_id p) column now games = Some (res, games') ∧
    success res = true.
Proof.
  intros Hg Hst Hp Hcol (r0 & Hr0 & Hcell0).
  destruct (makeMove_total gid (player_id p) column now games)
    as (res & games' & Hmove).
  exists res, games'. split; [done|].
  revert Hmove. unfold makeMove. rewrite Hg, Hp.
  rewrite bool_decide_eq_false_2 by (by intros []).
  rewrite bool_decide_eq_false_2 by (by intros []).
  destruct (_ || _) eqn:Hrange.
  { apply orb_true_iff in Hrange as [?%Z.ltb_lt | ?%Z.leb_le]; lia. }
  cbv zeta.
  destruct (findRow_cases (board game) column (Z.to_nat Config.rows))
    as [[_ Hnone] | (Hr & _)].
  { exfalso. apply (Hnone r0); [|done]. unfold Config.rows in *. lia. }
  rewrite bool_decide_eq_false_2 by lia.
  destruct (checkWinner _ _ _) as [won|]; [|done]. cbn [mbind option_bind].
  destruct won; [by intros [= <- _]|].
  destruct (isBoardFull _); by intros [= <- _].
Qed.

Lemma sessionOk_same_core g g' :
  board g' = board g → status g' = status g → winner g' = winner g →
  player1 g' = player1 g → player2 g' = player2 g →
  sessionOk g → sessionOk g'.
Proof.
  intros Hb Hs Hw H1 H2 (Hgrid & Hst & Hwin).
  unfold sessionOk, winnerOk, sideId in *. by rewrite Hb, Hs, Hw, H1, H2.
Qed.

Lemma createGame_ok uuid now now' p1 (games : gmap string GameState) :
  registryOk games → registryOk (createGame uuid now now' p1 games).2.
Proof.
  intros Hok. apply map_Forall_insert_2; [|done].
  split_and!; [done | apply emptyBoard_stacked | done].
Qed.

Lemma joinGame_ok gid p2 (games : gmap string GameState) :
  registryOk games → registryOk (joinGame gid p2 games).2.
Proof.
  intros Hok. unfold joinGame.
  destruct (games !! gid) as [game|] eqn:Hg; [|done].
  case_bool_decide as Hp2; [done|]. case_bool_decide as Hst; [done|]. simpl.
  apply map_Forall_insert_2; [|done].
  destruct (Hok _ _ Hg) as (Hgrid & Hstk & Hwin).
  split_and!; [done | done |].
  unfold winnerOk in *. simpl.
  assert (status game = Waiting) as Hw by (by destruct (status game)).
  by rewrite Hw in Hwin.
Qed.

Lemma makeMove_ok gid pid column now (games games' : gmap string GameState) res :
  makeMove gid pid column now games = Some (res, games') →
  registryOk games → registryOk games'.
Proof.
  intros Hmove Hok.
  destruct (makeMove_inv _ _ _ _ _ _ _ Hmove)
    as [[_ ->] | (game & p & r & won & Hg & Hst & Hp & Hpid & Hcol & Hr &
                   Hcell & Hbelow & Hwon & Hres)]; [done|].
  destruct (Hok _ _ Hg) as (Hgrid & Hstk & Hwin).
  unfold winnerOk in Hwin. rewrite Hst in Hwin.
  set (b1 := setCell (board game) r column (Piece (currentTurn game))).
  assert (is_grid b1 = true) as Hgrid1 by (by unfold b1; rewrite is_grid_setCell).
  assert (stacked b1) as Hstk1 by (by apply stacked_setCell).
  assert (cellAt b1 r column = Some (Piece (currentTurn game))) as Hcell1
    by (by eapply cellAt_setCell_eq).
  cbv zeta in Hres.
  destruct won.
  - injection Hres as -> ->. apply map_Forall_insert_2; [|done].
    split_and!; [done | done |]. unfold winnerOk. simpl.
    exists r, column, (currentTurn game). split_and!; [done | |].
    + destruct (checkWinner_spec b1 Hgrid1 r column _ Hcell1)
        as (won' & Hwon' & Hiff).
      simpl in Hwon. fold b1 in Hwon. rewrite Hwon in Hwon'.
      injection Hwon' as <-. by apply Hiff.
    + rewrite <- Hpid. by apply currentPlayerOf_sideId in Hp.
  - simpl in Hres. fold b1 in Hres.
    destruct (isBoardFull b1) eqn:Hfull; injection Hres as -> ->;
      (apply map_Forall_insert_2; [|done]);
      (split_and!; [done | done |]); unfold winnerOk; simpl.
    + rewrite Hwin. by apply isBoardFull_full.
    + done.
Qed.

Lemma forfeitGame_ok gid pid (games : gmap string GameState) :
  registryOk games → registryOk (forfeitGame gid pid games).
Proof.
  intros Hok. unfold forfeitGame.
  destruct (games !! gid) as [game|] eqn:Hg; [|done].
  case_bool_decide as Hst; [|done].
  apply map_Forall_insert_2; [|done].
  destruct (Hok _ _ Hg) as (Hgrid & Hstk & Hwin).
  split_and!; [done | done |]. unfold winnerOk. simpl.
  intros w Hw. case_bool_decide as H1.
  - right. destruct (player2 game) as [p2|]; [|done]. simpl in Hw.
    case_bool_decide; [done|]. injection Hw as <-. by exists p2.
  - left. simpl in Hw. case_bool_decide; [done|]. by injection Hw as <-.
Qed.

Lemma setDisconnected_ok gid pid (games : gmap string GameState) :
  registryOk games → registryOk (setDisconnected gid pid games).
Proof.
  intros Hok. unfold setDisconnected.
  destruct (games !! gid) as [game|] eqn:Hg; [|done].
  apply map_Forall_insert_2; [|done].
  by eapply sessionOk_same_core; [..|by apply (Hok _ _ Hg)].
Qed.

Lemma clearDisconnected_ok gid (games : gmap string GameState) ts :
  registryOk games → registryOk (clearDisconnected gid games ts).1.
Proof.
  intros Hok. unfold clearDisconnected.
  destruct (games !! gid) as [game|] eqn:Hg; [|done].
  apply map_Forall_insert_2; [|done].
  by eapply sessionOk_same_core; [..|by apply (Hok _ _ Hg)].
Qed.

Lemma applyOp_total op st : ∃ out st', applyOp op st = Some (out, st').
Proof.
  destruct op as [uuid now now' p1 | gid p2 | gid pid column now | gid pid
                 | gid pid | gid]; simpl; try by eexists _, _.
  destruct (makeMove_total gid pid column now (sessions st))
    as (res & games' & ->).
  by eexists _, _.
Qed.

Lemma applyOp_ok op st out st' :
  applyOp op st = Some (out, st') →
  registryOk (sessions st) → registryOk (sessions st').
Proof.
  destruct op as [uuid now now' p1 | gid p2 | gid pid column now | gid pid
                 | gid pid | gid]; simpl.
  - intros [= _ <-]. simpl. apply createGame_ok.
  - intros [= _ <-]. simpl. apply joinGame_ok.
  - destruct (makeMove gid pid column now (sessions st)) as [[res games']|]
      eqn:Hmove; [|done].
    intros [= _ <-]. simpl. by eapply makeMove_ok.
  - intros [= _ <-]. simpl. apply forfeitGame_ok.
  - intros [= _ <-]. simpl. apply setDisconnected_ok.
  - intros [= _ <-]. simpl. apply clearDisconnected_ok.
Qed.

Lemma run_total ops st : ∃ outs st', run ops st = Some (outs, st').
Proof.
  revert st. induction ops as [|op ops IH]; intros st; simpl.
  - by eexists _, _.
  - destruct (applyOp_total op st) as (out & st1 & ->).
    cbn [mbind option_bind]. simpl.
    destruct (IH st1) as (outs & st' & ->). by eexists _, _.
Qed.

Lemma run_ok ops st outs st' :
  run ops st = Some (outs, st') →
  registryOk (sessions st) → registryOk (sessions st').
Proof.
  revert st outs. induction ops as [|op ops IH]; intros st outs; simpl.
  - by intros [= _ <-].
  - destruct (applyOp op st) as [[out st1]|] eqn:Hop; [|done].
    cbn [mbind option_bind]. simpl.
    destruct (run ops st1) as [[outs1 st2]|] eqn:Hrun; [|done].
    intros [= _ <-]. simpl. intros Hok.
    eapply IH; [done|]. by eapply applyOp_ok.
Qed.

Lemma initial_ok : registryOk (sessions initial).
Proof. apply map_Forall_empty. Qed.

End Preservation.

(** ** Moves on registered sessions *)

Section RegisteredMoves.

Import GameService Outcomes Registry Invariants Reach.

Lemma reachable_ok st : reachable st → registryOk (sessions st).
Proof.
  intros (ops & outs & _ & Hrun). eapply run_ok; [done | apply initial_ok].
Qed.

End RegisteredMoves.

(** C1.  In a registry reached by the registry operations, for a session
    with status active, the participant whose turn it is and a column in
    range that has an empty cell, makeMove returns a success: the piece of
    the side on turn is written to the lowest empty row of the column (all
    other cells are as before), lastMoveAt is the time of the call, and
    then exactly one of the following holds.  (a) The placed cell lies in a
    run of four: status completed, winner the mover, a win result.  (b) No
    run of four and the grid is full: status completed, no winner, a draw
    result.  (c) Neither: status still active, currentTurn is the other
    side, a plain result.  Every result carries the position. *)
Theorem makeMove_accepts_and_branches
    (st : Registry.State) (gid : string) (game : GameState) (p : Player)
    (column now : Z) :
  Reach.reachable st →
  Registry.sessions st !! gid = Some game →
  status game = Active →
  GameService.currentPlayerOf game = Some p →
  0 ≤ column < Config.cols →
  (∃ r0, 0 ≤ r0 < Config.rows ∧
         cellAt (board game) r0 column = Some EmptyCell) →
  ∃ r res game',
    GameService.makeMove gid (player_id p) column now (Registry.sessions st)
      = Some (res, <[gid := game']> (Registry.sessions st)) ∧
    (0 ≤ r < Config.rows ∧
     cellAt (board game) r column = Some EmptyCell ∧
     ∀ i, r < i < Config.rows → cellAt (board game) i column ≠ Some EmptyCell) ∧
    (board game' = setCell (board game) r column (Piece (currentTurn game)) ∧
     cellAt (board game') r column = Some (Piece (currentTurn game)) ∧
     ∀ r' c', (r', c') ≠ (r, column) →
              cellAt (board game') r' c' = cellAt (board game) r' c') ∧
    lastMoveAt game' = now ∧
    (player1 game' = player1 game ∧ player2 game' = player2 game ∧
     game_id game' = game_id game ∧ createdAt game' = createdAt game) ∧
    (success res = true ∧ error res = None ∧
     position res = Some {| row := r; col := column |}) ∧
    let four :=
      Spec.on_some_axis (board game') r column (Piece (currentTurn game)) 4 in
    ((four ∧ status game' = Completed ∧
      winner game' = Some (player_id p) ∧
      mr_winner res = Some (player_id p) ∧ isDraw res = None)
     ∨ (¬ four ∧ Outcomes.full (board game') ∧ status game' = Completed ∧
        winner game' = None ∧ mr_winner res = None ∧ isDraw res = Some true)
     ∨ (¬ four ∧ ¬ Outcomes.full (board game') ∧ status game' = Active ∧
        winner game' = None ∧
        currentTurn game' = GameService.otherSide (currentTurn game) ∧
        mr_winner res = None ∧ isDraw res = None)).
Proof.
  intros Hreach Hg Hst Hp Hcol Hroom.
  destruct (reachable_ok st Hreach _ _ Hg) as (Hgrid & Hstk & Hwin).
  unfold Invariants.winnerOk in Hwin. rewrite Hst in Hwin.
  destruct (makeMove_succeeds gid column now _ game p Hg Hst Hp Hcol Hroom)
    as (res & games' & Hmove & Hsucc).
  destruct (makeMove_inv _ _ _ _ _ _ _ Hmove)
    as [[Hfail _] | (game0 & p0 & r & won & Hg0 & _ & Hp0 & _ & _ & Hr &
                     Hcell & Hbelow & Hwon & Hres)]; [congruence|].
  rewrite Hg in Hg0. injection Hg0 as <-.
  rewrite Hp in Hp0. injection Hp0 as <-.
  set (b1 := setCell (board game) r column (Piece (currentTurn game))) in *.
  assert (is_grid b1 = true) as Hgrid1 by (by unfold b1; rewrite is_grid_setCell).
  assert (Outcomes.stacked b1) as Hstk1 by (by apply stacked_setCell).
  assert (cellAt b1 r column = Some (Piece (currentTurn game))) as Hcell1
    by (by eapply cellAt_setCell_eq).
  destruct (checkWinner_spec b1 Hgrid1 r column _ Hcell1)
    as (won' & Hwon' & Hiff).
  simpl in Hwon. fold b1 in Hwon. rewrite Hwon in Hwon'. injection Hwon' as <-.
  cbv zeta in Hres. exists r, res.
  destruct won.
  - injection Hres as -> ->. eexists. split; [done|]. simpl. fold b1.
    split_and!; try done; try lia.
    { intros r' c' Hne. by apply cellAt_setCell_ne. }
    left. split_and!; try done. by apply Hiff.
  - assert (¬ Spec.on_some_axis b1 r column (Piece (currentTurn game)) 4)
      as Hno by (rewrite <- Hiff; congruence).
    simpl in Hres. fold b1 in Hres.
    destruct (GameService.isBoardFull b1) eqn:Hfull; injection Hres as -> ->;
      (eexists; split; [done|]); simpl; fold b1;
      (split_and!; try done; try lia;
       [intros r' c' Hne; by apply cellAt_setCell_ne|]).
    + right; left. split_and!; try done. by apply isBoardFull_full.
    + right; right. split_and!; try done.
      rewrite <- isBoardFull_full by done. congruence.
Qed.

(** The opening move of a fresh two-player session, column 3. *)
Lemma makeMove_accepts_and_branches_witness :
  ∃ r res game',
    GameService.makeMove "g1" "id-alice" 3 205
      (Registry.sessions (Reach.stateAfter Reach.openingOps))
      = Some (res, <["g1" := game']>
                     (Registry.sessions (Reach.stateAfter Reach.openingOps))) ∧
    cellAt (board game') r 3 = Some (Piece Player1) ∧
    lastMoveAt game' = 205 ∧ success res = true.
Proof.
  destruct (makeMove_accepts_and_branches
              (Reach.stateAfter Reach.openingOps) "g1"
              (Reach.sessionAfter Reach.openingOps "g1" Reach.freshSession)
              Reach.alice 3 205)
    as (r & res & game' & Hmove & _ & (_ & Hc & _) & Hl & _ & (Hs & _) & _).
  - exists Reach.openingOps. eexists. split; vm_compute; reflexivity.
  - vm_compute. reflexivity.
  - reflexivity.
  - reflexivity.
  - unfold Config.cols. lia.
  - exists 5. split; [unfold Config.rows; lia | reflexivity].
  - exists r, res, game'. split_and!; [exact Hmove | exact Hc | exact Hl | exact Hs].
Defined.

(** ** Counting the pieces of a column *)

Section ColumnCount.

Import GameService Outcomes Registry Invariants Reach.

Lemma filter_agree (l : list Z) (f g : Z → bool) :
  (∀ x, x ∈ l → g x = f x) →
  filter (λ x, g x = true) l = filter (λ x, f x = true) l.
Proof.
  induction l as [|x l IH]; intros Hsame; [done|].
  rewrite !filter_cons, (Hsame x) by (by left).
  rewrite IH; [done|]. intros y Hy. apply Hsame. by right.
Qed.

Lemma filter_none (l : list Z) (f : Z → bool) :
  (∀ x, x ∈ l → f x = false) → filter (λ x, f x = true) l = [].
Proof.
  induction l as [|x l IH]; intros Hnone; [done|].
  rewrite filter_cons, (Hnone x) by (by left). simpl.
  apply IH. intros y Hy. apply Hnone. by right.
Qed.

Lemma count_one_more (l : list Z) (r : Z) (f g : Z → bool) :
  NoDup l → r ∈ l → f r = false → g r = true →
  (∀ x, x ≠ r → g x = f x) →
  length (filter (λ x, g x = true) l) = S (length (filter (λ x, f x = true) l)).
Proof.
  intros Hnd Hin Hf Hg Hsame.
  induction l as [|x l IH]; [by apply elem_of_nil in Hin|].
  apply NoDup_cons in Hnd as [Hx Hnd]. rewrite !filter_cons.
  destruct (decide (x = r)) as [->|Hne].
  - rewrite Hf, Hg. simpl. f_equal. f_equal.
    apply filter_agree. intros y Hy. apply Hsame. by intros ->.
  - apply elem_of_cons in Hin as [->|Hin]; [done|].
    rewrite (Hsame x Hne). specialize (IH Hnd Hin).
    destruct (decide (f x = true)); simpl; by rewrite IH.
Qed.

Lemma count_all (l : list Z) (f : Z → bool) :
  length (filter (λ x, f x = true) l) = length l → ∀ x, x ∈ l → f x = true.
Proof.
  induction l as [|y l IH]; intros Hlen x Hin; [by apply elem_of_nil in Hin|].
  rewrite filter_cons in Hlen.
  pose proof (length_filter (λ x, f x = true) l) as Hle.
  destruct (decide (f y = true)) as [Hy|Hy]; simpl in Hlen; [|lia].
  apply elem_of_cons in Hin as [->|Hin]; [done|]. apply IH; [lia | done].
Qed.

Lemma holdsPiece_setCell b r c s v0 r' c' :
  cellAt b r c = Some v0 →
  holdsPiece (setCell b r c (Piece s)) r' c' =
  if bool_decide ((r', c') = (r, c)) then true else holdsPiece b r' c'.
Proof.
  intros Hcell. unfold holdsPiece. case_bool_decide as Heq.
  - injection Heq as -> ->. by rewrite (cellAt_setCell_eq _ _ _ _ _ Hcell).
  - by rewrite cellAt_setCell_ne.
Qed.

Lemma piecesIn_setCell_same b r c s :
  0 ≤ r < Config.rows → cellAt b r c = Some EmptyCell →
  piecesIn (setCell b r c (Piece s)) c = S (piecesIn b c).
Proof.
  intros Hr Hcell. unfold piecesIn.
  apply (count_one_more _ r (λ x, holdsPiece b x c)).
  - apply NoDup_seqZ.
  - apply elem_of_seqZ. lia.
  - unfold holdsPiece. by rewrite Hcell.
  - rewrite (holdsPiece_setCell _ _ _ _ _ _ _ Hcell).
    by rewrite bool_decide_eq_true_2.
  - intros x Hx. rewrite (holdsPiece_setCell _ _ _ _ _ _ _ Hcell).
    rewrite bool_decide_eq_false_2; [done | congruence].
Qed.

Lemma piecesIn_setCell_other b r c s v0 c' :
  cellAt b r c = Some v0 → c' ≠ c →
  piecesIn (setCell b r c (Piece s)) c' = piecesIn b c'.
Proof.
  intros Hcell Hne. unfold piecesIn. f_equal.
  apply filter_agree. intros x _.
  rewrite (holdsPiece_setCell _ _ _ _ _ _ _ Hcell).
  rewrite bool_decide_eq_false_2; [done | congruence].
Qed.

Lemma piecesIn_emptyBoard c : piecesIn emptyBoard c = 0%nat.
Proof.
  unfold piecesIn. rewrite filter_none; [done|].
  intros r _. unfold holdsPiece.
  destruct (cellAt emptyBoard r c) as [v|] eqn:Hcell; [|done].
  destruct (is_grid_inside emptyBoard r c v eq_refl Hcell) as [Hr Hc].
  rewrite emptyBoard_cell in Hcell by done. by injection Hcell as <-.
Qed.

Lemma piecesIn_le b c : (piecesIn b c ≤ 6)%nat.
Proof.
  unfold piecesIn. etrans; [apply length_filter|].
  by rewrite length_seqZ.
Qed.

(** Six pieces in a column leave it no empty cell. *)
Lemma piecesIn_six b c :
  piecesIn b c = 6%nat →
  ∀ r, 0 ≤ r < Config.rows → cellAt b r c ≠ Some EmptyCell.
Proof.
  intros Hsix r Hr Hcell.
  assert (holdsPiece b r c = true) as Hp.
  { apply (count_all (seqZ 0 Config.rows) (λ x, holdsPiece b x c)).
    - fold (piecesIn b c). by rewrite Hsix, length_seqZ.
    - apply elem_of_seqZ. lia. }
  unfold holdsPiece in Hp. by rewrite Hcell in Hp.
Qed.

Lemma applyOp_count op st out st' gid c :
  freshFor op st = true →
  applyOp op st = Some (out, st') →
  match sessions st !! gid with
  | Some g =>
      ∃ g', sessions st' !! gid = Some g' ∧
            piecesIn (board g') c = (piecesIn (board g) c + placed_by gid c op out)%nat
  | None =>
      placed_by gid c op out = 0%nat ∧
      ∀ g', sessions st' !! gid = Some g' → piecesIn (board g') c = 0%nat
  end.
Proof.
  intros Hfresh.
  destruct op as [uuid now now' p1 | gameId p2 | gameId pid column now
                 | gameId pid | gameId pid | gameId]; simpl.
  - intros [= <- <-]. simpl. apply bool_decide_eq_true_1 in Hfresh.
    destruct (decide (uuid = gid)) as [->|Hne].
    + rewrite Hfresh, lookup_insert_eq. split; [done|].
      intros g' [= <-]. apply piecesIn_emptyBoard.
    + rewrite lookup_insert_ne by done.
      destruct (sessions st !! gid); [eexists; split; [done | lia] | done].
  - intros [= <- <-]. simpl. unfold joinGame.
    destruct (sessions st !! gameId) as [game|] eqn:Hg; simpl.
    2: { destruct (sessions st !! gid); [eexists; split; [done | lia] | done]. }
    destruct (_ || _); simpl.
    { destruct (sessions st !! gid); [eexists; split; [done | lia] | done]. }
    destruct (decide (gameId = gid)) as [->|Hne].
    + rewrite Hg, lookup_insert_eq. eexists. split; [done | simpl; lia].
    + rewrite lookup_insert_ne by done.
      destruct (sessions st !! gid); [eexists; split; [done | lia] | done].
  - destruct (makeMove gameId pid column now (sessions st))
      as [[res games']|] eqn:Hmove; [|done].
    intros [= <- <-]. simpl.
    destruct (makeMove_inv _ _ _ _ _ _ _ Hmove)
      as [[Hfail ->] | (game & p & r & won & Hg & _ & _ & _ & _ & Hr & Hcell &
                        _ & _ & Hres)].
    { rewrite Hfail, andb_false_r.
      destruct (sessions st !! gid); [eexists; split; [done | lia] | done]. }
    cbv zeta in Hres.
    assert (success res = true ∧
            ∃ g', games' = <[gameId := g']> (sessions st) ∧
                  board g' = setCell (board game) r column
                               (Piece (currentTurn game)))
      as (Hsucc & g' & -> & Hb).
    { destruct won; [injection Hres as -> ->; split; [done | by eexists]|].
      destruct (isBoardFull _);
        injection Hres as -> ->; (split; [done | by eexists]). }
    rewrite Hsucc, andb_true_r.
    destruct (decide (gameId = gid)) as [->|Hne].
    + rewrite Hg, lookup_insert_eq. eexists. split; [done|]. rewrite Hb.
      destruct (decide (column = c)) as [->|Hc].
      * rewrite bool_decide_eq_true_2 by done.
        rewrite piecesIn_setCell_same by done. lia.
      * rewrite bool_decide_eq_false_2 by (by intros [_ ?]).
        rewrite (piecesIn_setCell_other _ _ _ _ _ _ Hcell) by done. lia.
    + rewrite lookup_insert_ne by done.
      rewrite bool_decide_eq_false_2 by (by intros [? _]).
      destruct (sessions st !! gid); [eexists; split; [done | lia] | done].
  - intros [= <- <-]. simpl. unfold forfeitGame.
    destruct (sessions st !! gameId) as [game|] eqn:Hg; simpl.
    2: { destruct (sessions st !! gid); [eexists; split; [done | lia] | done]. }
    case_bool_decide.
    2: { destruct (sessions st !! gid); [eexists; split; [done | lia] | done]. }
    destruct (decide (gameId = gid)) as [->|Hne].
    + rewrite Hg, lookup_insert_eq. eexists. split; [done | simpl; lia].
    + rewrite lookup_insert_ne by done.
      destruct (sessions st !! gid); [eexists; split; [done | lia] | done].
  - intros [= <- <-]. simpl. unfold setDisconnected.
    destruct (sessions st !! gameId) as [game|] eqn:Hg; simpl.
    2: { destruct (sessions st !! gid); [eexists; split; [done | lia] | done]. }
    destruct (decide (gameId = gid)) as [->|Hne].
    + rewrite Hg, lookup_insert_eq. eexists. split; [done | simpl; lia].
    + rewrite lookup_insert_ne by done.
      destruct (sessions st !! gid); [eexists; split; [done | lia] | done].
  - intros [= <- <-]. simpl. unfold clearDisconnected.
    destruct (sessions st !! gameId) as [game|] eqn:Hg; simpl.
    2: { destruct (sessions st !! gid); [eexists; split; [done | lia] | done]. }
    destruct (decide (gameId = gid)) as [->|Hne].
    + rewrite Hg, lookup_insert_eq. eexists. split; [done | simpl; lia].
    + rewrite lookup_insert_ne by done.
      destruct (sessions st !! gid); [eexists; split; [done | lia] | done].
Qed.

Lemma run_count ops st outs st' gid c :
  freshIds ops st = true →
  run ops st = Some (outs, st') →
  match sessions st !! gid with
  | Some g =>
      ∃ g', sessions st' !! gid = Some g' ∧
            piecesIn (board g') c = (piecesIn (board g) c + placements gid c ops st)%nat
  | None =>
      ∀ g', sessions st' !! gid = Some g' →
            piecesIn (board g') c = placements gid c ops st
  end.
Proof.
  revert st outs. induction ops as [|op ops IH]; intros st outs; simpl.
  - intros _ [= _ <-].
    destruct (sessions st !! gid) as [g|] eqn:Hg;
      [eexists; split; [done | lia] | done].
  - intros [Hfresh Hrest]%andb_true_iff.
    destruct (applyOp op st) as [[out st1]|] eqn:Hop; [|done].
    cbn [mbind option_bind]. simpl in *.
    destruct (run ops st1) as [[outs1 st2]|] eqn:Hrun; [|done].
    intros [= _ <-]. simpl.
    pose proof (applyOp_count op st out st1 gid c Hfresh Hop) as Hstep.
    specialize (IH st1 outs1 Hrest Hrun).
    destruct (sessions st !! gid) as [g|].
    + destruct Hstep as (g1 & Hg1 & Hn1). rewrite Hg1 in IH.
      destruct IH as (g2 & Hg2 & Hn2). exists g2. split; [done | lia].
    + destruct Hstep as [-> Hzero].
      destruct (sessions st1 !! gid) as [g1|].
      * destruct IH as (g2 & Hg2 & Hn2). intros g' Hg'.
        rewrite Hg2 in Hg'. injection Hg' as <-.
        rewrite Hn2, (Hzero g1 eq_refl). lia.
      * intros g' Hg'. by rewrite (IH g' Hg').
Qed.

End ColumnCount.

(** ** Failed calls *)

Section FailedCalls.

Import GameService Outcomes Registry Invariants Reach.

Lemma failsWith_failure msg k :
  errorKind msg = Some k → failsWith (failure msg) k.
Proof. intros Hk. by split. Qed.

Lemma joinGame_failure_unchanged gid p2 (games : gmap string GameState) :
  (joinGame gid p2 games).1 = None → (joinGame gid p2 games).2 = games.
Proof.
  unfold joinGame. destruct (games !! gid) as [game|]; [|done].
  by destruct (_ || _).
Qed.

Lemma forfeitGame_noop gid pid (games : gmap string GameState) :
  (∀ game, games !! gid = Some game → status game ≠ Active) →
  forfeitGame gid pid games = games.
Proof.
  intros Hno. unfold forfeitGame.
  destruct (games !! gid) as [game|] eqn:Hg; [|done].
  by rewrite bool_decide_eq_false_2 by (by apply Hno).
Qed.

(** A column that holds six pieces refuses every move. *)
Lemma makeMove_six_pieces gid pid c now (games : gmap string GameState) :
  (∀ g, games !! gid = Some g → piecesIn (board g) c = 6%nat) →
  ∃ res, makeMove gid pid c now games = Some (res, games) ∧
         success res = false.
Proof.
  intros Hsix.
  destruct (makeMove_total gid pid c now games) as (res & games' & Hmove).
  destruct (makeMove_inv _ _ _ _ _ _ _ Hmove)
    as [[Hfail ->] | (game & p & r & won & Hg & _ & _ & _ & _ & Hr & Hcell & _)].
  - by exists res.
  - exfalso. by eapply (piecesIn_six _ _ (Hsix _ Hg)).
Qed.

End FailedCalls.

(** C2.  makeMove reports: 'Game not found' (NotFound) when no session has
    the id; 'Game is not active' (NotActive) when the session is not
    active; 'Not your turn' (NotYourTurn) when the caller is not the
    participant on turn; 'Invalid column' or 'Column is full' (both
    InvalidColumn) when the column is out of range or has no empty cell.
    A failed makeMove, a joinGame that returns null and a forfeitGame on a
    missing or non-active session leave the registry exactly as it was.
    And in a reachable registry, once six moves into one column of a
    session have succeeded, every further move into that column fails (with
    InvalidColumn when the session is active and the caller is on turn);
    no column ever takes a seventh piece. *)
Theorem failed_calls_change_nothing :
  (∀ (games : gmap string GameState) gid pid column now,
     ∃ res games',
       GameService.makeMove gid pid column now games = Some (res, games') ∧
       (games !! gid = None → Outcomes.failsWith res Outcomes.NotFound) ∧
       (∀ game, games !! gid = Some game → status game ≠ Active →
                Outcomes.failsWith res Outcomes.NotActive) ∧
       (∀ game, games !! gid = Some game → status game = Active →
                (∀ p, GameService.currentPlayerOf game = Some p →
                      player_id p ≠ pid) →
                Outcomes.failsWith res Outcomes.NotYourTurn) ∧
       (∀ game p, games !! gid = Some game → status game = Active →
                  GameService.currentPlayerOf game = Some p →
                  player_id p = pid →
                  (column < 0 ∨ Config.cols ≤ column ∨
                   ∀ r, 0 ≤ r < Config.rows →
                        cellAt (board game) r column ≠ Some EmptyCell) →
                  Outcomes.failsWith res Outcomes.InvalidColumn) ∧
       (success res = false → games' = games))
  ∧ (∀ (games : gmap string GameState) gid p2,
       (GameService.joinGame gid p2 games).1 = None →
       (GameService.joinGame gid p2 games).2 = games)
  ∧ (∀ (games : gmap string GameState) gid pid,
       (∀ game, games !! gid = Some game → status game ≠ Active) →
       GameService.forfeitGame gid pid games = games)
  ∧ (∀ ops outs st gid c,
       Registry.freshIds ops Registry.initial = true →
       Registry.run ops Registry.initial = Some (outs, st) →
       (Registry.placements gid c ops Registry.initial ≤ 6)%nat ∧
       (Registry.placements gid c ops Registry.initial = 6%nat →
        ∀ pid now,
          ∃ res,
            GameService.makeMove gid pid c now (Registry.sessions st)
              = Some (res, Registry.sessions st) ∧
            success res = false ∧
            (∀ g p, Registry.sessions st !! gid = Some g →
                    status g = Active →
                    GameService.currentPlayerOf g = Some p →
                    player_id p = pid →
                    0 ≤ c < Config.cols →
                    Outcomes.failsWith res Outcomes.InvalidColumn))).
Proof.
  split_and!.
  - intros games gid pid column now.
    destruct (makeMove_total gid pid column now games)
      as (res & games' & Hmove).
    exists res, games'. split_and!; [done | | | | |].
    + intros Hg. rewrite makeMove_not_found in Hmove by done.
      injection Hmove as <- _. by apply failsWith_failure.
    + intros game Hg Hst.
      rewrite (makeMove_not_active _ _ _ _ _ _ Hg Hst) in Hmove.
      injection Hmove as <- _. by apply failsWith_failure.
    + intros game Hg Hst Hturn.
      rewrite (makeMove_not_your_turn _ _ _ _ _ _ Hg Hst Hturn) in Hmove.
      injection Hmove as <- _. by apply failsWith_failure.
    + intros game p Hg Hst Hp Hid [Hlo | [Hhi | Hfull]].
      * rewrite (makeMove_out_of_range _ _ _ _ _ _ _ Hg Hst Hp Hid) in Hmove
          by lia.
        injection Hmove as <- _. by apply failsWith_failure.
      * rewrite (makeMove_out_of_range _ _ _ _ _ _ _ Hg Hst Hp Hid) in Hmove
          by lia.
        injection Hmove as <- _. by apply failsWith_failure.
      * destruct (decide (0 ≤ column < Config.cols)) as [Hcol|Hcol].
        -- rewrite (makeMove_column_full _ _ _ _ _ _ _ Hg Hst Hp Hid Hcol Hfull)
             in Hmove.
           injection Hmove as <- _. by apply failsWith_failure.
        -- rewrite (makeMove_out_of_range _ _ _ _ _ _ _ Hg Hst Hp Hid) in Hmove
             by lia.
           injection Hmove as <- _. by apply failsWith_failure.
    + intros Hfail. by eapply makeMove_failure_unchanged.
  - intros games gid p2. apply joinGame_failure_unchanged.
  - intros games gid pid. apply forfeitGame_noop.
  - intros ops outs st gid c Hfresh Hrun.
    pose proof (run_count ops _ outs st gid c Hfresh Hrun) as Hcount.
    simpl in Hcount. rewrite lookup_empty in Hcount.
    assert (∀ g, Registry.sessions st !! gid = Some g →
                 Registry.piecesIn (board g) c =
                 Registry.placements gid c ops Registry.initial) as Hpieces
      by done.
    split.
    + destruct (Registry.sessions st !! gid) as [g|] eqn:Hg.
      * rewrite <- (Hpieces g eq_refl). apply piecesIn_le.
      * clear Hpieces Hcount. revert Hg Hrun Hfresh.
        generalize Registry.initial. revert outs.
        induction ops as [|op ops IH]; intros outs st0 Hg; simpl; [lia|].
        destruct (Registry.applyOp op st0) as [[out st1]|] eqn:Hop; [|lia].
        cbn [mbind option_bind]. simpl.
        destruct (Registry.run ops st1) as [[outs1 st2]|] eqn:Hrun; [|done].
        intros [= _ <-] [Hf Hrest]%andb_true_iff.
        specialize (IH _ _ Hg Hrun Hrest).
        pose proof (run_count ops st1 outs1 st2 gid c Hrest Hrun) as H1.
        pose proof (applyOp_count op st0 out st1 gid c Hf Hop) as H0.
        destruct (Registry.sessions st0 !! gid) as [g0|].
        { destruct H0 as (g1 & Hg1 & _). rewrite Hg1 in H1.
          destruct H1 as (g2 & Hg2 & _). congruence. }
        destruct H0 as [-> _]. lia.
    + intros Hsix pid now.
      destruct (makeMove_six_pieces gid pid c now (Registry.sessions st))
        as (res & Hmove & Hfail).
      { intros g Hg. by rewrite (Hpieces g Hg). }
      exists res. split_and!; [done | done |].
      intros g p Hg Hst Hp Hid Hc.
      rewrite (makeMove_column_full _ _ _ _ _ _ _ Hg Hst Hp Hid Hc) in Hmove.
      * injection Hmove as <-. by apply failsWith_failure.
      * apply piecesIn_six. by rewrite (Hpieces g Hg).
Qed.

(** Six alternating moves fill column 0; the seventh is refused. *)
Lemma failed_calls_change_nothing_witness :
  ∃ res,
    GameService.makeMove "g1" "id-alice" 0 207
      (Registry.sessions (Reach.stateAfter FullColumn.sixInColumn0))
    = Some (res, Registry.sessions (Reach.stateAfter FullColumn.sixInColumn0)) ∧
    success res = false.
Proof.
  destruct failed_calls_change_nothing as (_ & _ & _ & Hsix).
  destruct (Hsix FullColumn.sixInColumn0
              (default [] (fst <$> Registry.run FullColumn.sixInColumn0
                                     Registry.initial))
              (Reach.stateAfter FullColumn.sixInColumn0) "g1" 0)
    as [_ Hfull].
  - vm_compute. reflexivity.
  - vm_compute. reflexivity.
  - destruct (Hfull ltac:(vm_compute; reflexivity) "id-alice" 207)
      as (res & Hmove & Hfail & _).
    exists res. split; [exact Hmove | exact Hfail].
Defined.

(** ** The status only moves forward *)

Section StatusOrder.

Import GameService Outcomes Registry Invariants Reach.

Lemma advances_closure s s' :
  rtc advances s s' →
  match s with
  | Waiting => True
  | Active => s' ≠ Waiting
  | Completed => s' = Completed
  | Forfeited => s' = Forfeited
  end.
Proof.
  induction 1 as [s | s s1 s' Hstep _ IH]; [by destruct s|].
  destruct Hstep; simpl in *; by subst.
Qed.

(** One operation keeps every registered session registered and moves its
    status by at most one forward step. *)
Lemma applyOp_status op st out st' gid g :
  freshFor op st = true →
  applyOp op st = Some (out, st') →
  sessions st !! gid = Some g →
  ∃ g', sessions st' !! gid = Some g' ∧
        (status g' = status g ∨ advances (status g) (status g')).
Proof.
  intros Hfresh Hop Hg.
  destruct op as [uuid now now' p1 | gameId p2 | gameId pid column now
                 | gameId pid | gameId pid | gameId]; simpl in Hop.
  - injection Hop as <- <-. simpl. apply bool_decide_eq_true_1 in Hfresh.
    exists g. rewrite lookup_insert_ne by congruence. by split; [|left].
  - injection Hop as <- <-. simpl. unfold joinGame.
    destruct (sessions st !! gameId) as [game|] eqn:Hgame; simpl;
      [|by exists g; split; [|left]].
    case_bool_decide as Hp2; simpl; [by exists g; split; [|left]|].
    case_bool_decide as Hst; simpl; [by exists g; split; [|left]|].
    destruct (decide (gameId = gid)) as [->|Hne].
    + rewrite Hg in Hgame. injection Hgame as <-.
      rewrite lookup_insert_eq. eexists. split; [done|]. simpl.
      right. rewrite Hst. constructor.
    + rewrite lookup_insert_ne by done. by exists g; split; [|left].
  - destruct (makeMove gameId pid column now (sessions st))
      as [[res games']|] eqn:Hmove; [|done].
    injection Hop as <- <-. simpl.
    destruct (makeMove_inv _ _ _ _ _ _ _ Hmove)
      as [[_ ->] | (game & p & r & won & Hgame & Hst & _ & _ & _ & _ & _ & _ &
                    _ & Hres)]; [by exists g; split; [|left]|].
    cbv zeta in Hres.
    destruct (decide (gameId = gid)) as [->|Hne].
    + rewrite Hg in Hgame. injection Hgame as <-.
      destruct won; [|destruct (isBoardFull _)];
        injection Hres as -> ->; rewrite lookup_insert_eq;
        (eexists; split; [done|]); simpl; rewrite Hst;
        [right; constructor | right; constructor | by left].
    + assert (games' !! gid = Some g) as Hsame.
      { destruct won; [|destruct (isBoardFull _)];
          injection Hres as -> ->; by rewrite lookup_insert_ne. }
      by exists g; split; [|left].
  - injection Hop as <- <-. simpl. unfold forfeitGame.
    destruct (sessions st !! gameId) as [game|] eqn:Hgame;
      [|by exists g; split; [|left]].
    case_bool_decide as Hst; [|by exists g; split; [|left]].
    destruct (decide (gameId = gid)) as [->|Hne].
    + rewrite Hg in Hgame. injection Hgame as <-.
      rewrite lookup_insert_eq. eexists. split; [done|]. simpl.
      right. rewrite Hst. constructor.
    + rewrite lookup_insert_ne by done. by exists g; split; [|left].
  - injection Hop as <- <-. simpl. unfold setDisconnected.
    destruct (sessions st !! gameId) as [game|] eqn:Hgame;
      [|by exists g; split; [|left]].
    destruct (decide (gameId = gid)) as [->|Hne].
    + rewrite Hg in Hgame. injection Hgame as <-.
      rewrite lookup_insert_eq. eexists. split; [done | by left].
    + rewrite lookup_insert_ne by done. by exists g; split; [|left].
  - injection Hop as <- <-. simpl. unfold clearDisconnected.
    destruct (sessions st !! gameId) as [game|] eqn:Hgame;
      [|by exists g; split; [|left]].
    destruct (decide (gameId = gid)) as [->|Hne].
    + rewrite Hg in Hgame. injection Hgame as <-. simpl.
      rewrite lookup_insert_eq. eexists. split; [done | by left].
    + simpl. rewrite lookup_insert_ne by done. by exists g; split; [|left].
Qed.

Lemma run_status ops st outs st' gid g :
  freshIds ops st = true →
  run ops st = Some (outs, st') →
  sessions st !! gid = Some g →
  ∃ g', sessions st' !! gid = Some g' ∧ rtc advances (status g) (status g').
Proof.
  revert st outs g. induction ops as [|op ops IH]; intros st outs g; simpl.
  - intros _ [= _ <-] Hg. by exists g.
  - intros [Hfresh Hrest]%andb_true_iff.
    destruct (applyOp op st) as [[out st1]|] eqn:Hop; [|done].
    cbn [mbind option_bind]. simpl in *.
    destruct (run ops st1) as [[outs1 st2]|] eqn:Hrun; [|done].
    intros [= _ <-] Hg. simpl.
    destruct (applyOp_status op st out st1 gid g Hfresh Hop Hg)
      as (g1 & Hg1 & Hstep).
    destruct (IH st1 outs1 g1 Hrest Hrun Hg1) as (g2 & Hg2 & Hrtc).
    exists g2. split; [done|].
    destruct Hstep as [<- | Hadv]; [done | by eapply rtc_l].
Qed.

End StatusOrder.

(** C6.  Any sequence of createGame, joinGame, makeMove, forfeitGame,
    setDisconnected and clearDisconnected calls (uuids fresh) runs to the
    end, keeps every session registered, and moves its status only along
    waiting -> active -> completed | forfeited: a session that is not
    waiting is never waiting again, and a completed or forfeited session
    keeps its status for ever (so it is never active again). *)
Theorem status_moves_forward_only
    (ops : list Registry.RegOp) (st : Registry.State) :
  Registry.freshIds ops st = true →
  ∃ outs st',
    Registry.run ops st = Some (outs, st') ∧
    ∀ gid g,
      Registry.sessions st !! gid = Some g →
      ∃ g', Registry.sessions st' !! gid = Some g' ∧
            rtc Registry.advances (status g) (status g') ∧
            (status g ≠ Waiting → status g' ≠ Waiting) ∧
            (status g = Completed ∨ status g = Forfeited →
             status g' = status g).
Proof.
  intros Hfresh.
  destruct (run_total ops st) as (outs & st' & Hrun).
  exists outs, st'. split; [done|]. intros gid g Hg.
  destruct (run_status ops st outs st' gid g Hfresh Hrun Hg)
    as (g' & Hg' & Hrtc).
  exists g'. split_and!; [done | done | |].
  - intros Hnw. apply advances_closure in Hrtc.
    destruct (status g); [done | done | by rewrite Hrtc | by rewrite Hrtc].
  - intros Hterm. apply advances_closure in Hrtc.
    destruct (status g); [by destruct Hterm | by destruct Hterm | done | done].
Qed.

(** A session played to a full column, then forfeited and joined again. *)
Lemma status_moves_forward_only_witness :
  ∃ outs st',
    Registry.run [Registry.OpForfeit "g1" "id-bob";
                  Registry.OpJoin "g1" Reach.alice;
                  Registry.OpMove "g1" "id-alice" 1 300]
      (Reach.stateAfter FullColumn.sixInColumn0) = Some (outs, st') ∧
    ∃ g', Registry.sessions st' !! "g1" = Some g' ∧ status g' ≠ Waiting.
Proof.
  destruct (status_moves_forward_only
              [Registry.OpForfeit "g1" "id-bob";
               Registry.OpJoin "g1" Reach.alice;
               Registry.OpMove "g1" "id-alice" 1 300]
              (Reach.stateAfter FullColumn.sixInColumn0))
    as (outs & st' & Hrun & Hall).
  - vm_compute. reflexivity.
  - exists outs, st'. split; [exact Hrun|].
    destruct (Hall "g1"
                (Reach.sessionAfter FullColumn.sixInColumn0 "g1"
                   Reach.freshSession))
      as (g' & Hg' & _ & Hnw & _).
    + vm_compute. reflexivity.
    + exists g'. split; [exact Hg'|]. apply Hnw. vm_compute. discriminate.
Defined.

(** ** Who the winner field can name *)

Section Winner.

Import GameService Outcomes Registry Invariants Reach.

Lemma idOrNull_Some o w :
  idOrNull o = Some w ↔ ∃ p, o = Some p ∧ player_id p = w ∧ w ≠ "".
Proof.
  unfold idOrNull. destruct o as [p|].
  - case_bool_decide as Hid; split.
    + done.
    + intros (p' & [= <-] & <- & Hne). done.
    + intros [= <-]. by exists p.
    + by intros (p' & [= <-] & <- & _).
  - split; [done | by intros (p & [=] & _)].
Qed.

End Winner.

(** C7.  In every reachable registry: a waiting or active session has no
    winner; a winner is recorded only in a completed session whose grid
    shows a run of four of the winner's pieces, or in a forfeited session,
    where it is one of the two participants; a completed session without
    winner has a full grid.  From such a registry, a successful makeMove
    whose placement completes a run of four completes the session with the
    mover as winner; one that completes none and fills the grid completes
    it as a draw with winner null; any other leaves the session active
    with winner null.  forfeitGame on an active session sets the status
    forfeited and the winner to the opponent of the forfeiting participant
    (player2 if player1 forfeits, player1 otherwise; null if that
    participant is absent or has an empty id). *)
Theorem winner_set_only_by_four_or_forfeit (st : Registry.State) :
  Reach.reachable st →
  (∀ gid g,
     Registry.sessions st !! gid = Some g →
     (status g = Waiting ∨ status g = Active → winner g = None) ∧
     (∀ w, winner g = Some w →
        (status g = Completed ∧
         ∃ r c s, cellAt (board g) r c = Some (Piece s) ∧
                  Spec.on_some_axis (board g) r c (Piece s) 4 ∧
                  Registry.sideId g s = Some w)
        ∨ (status g = Forfeited ∧
           (w = player_id (player1 g) ∨
            ∃ p2, player2 g = Some p2 ∧ w = player_id p2))) ∧
     (status g = Completed → winner g = None → Outcomes.full (board g)))
  ∧ (∀ gid pid column now res games',
       GameService.makeMove gid pid column now (Registry.sessions st)
         = Some (res, games') →
       success res = true →
       ∃ game game' r,
         Registry.sessions st !! gid = Some game ∧
         games' !! gid = Some game' ∧
         position res = Some {| row := r; col := column |} ∧
         cellAt (board game') r column = Some (Piece (currentTurn game)) ∧
         Registry.sideId game (currentTurn game) = Some pid ∧
         let four :=
           Spec.on_some_axis (board game') r column
             (Piece (currentTurn game)) 4 in
         (four → status game' = Completed ∧ winner game' = Some pid ∧
                 mr_winner res = Some pid ∧ isDraw res = None) ∧
         (¬ four → Outcomes.full (board game') →
                   status game' = Completed ∧ winner game' = None ∧
                   mr_winner res = None ∧ isDraw res = Some true) ∧
         (¬ four → ¬ Outcomes.full (board game') →
                   status game' = Active ∧ winner game' = None ∧
                   mr_winner res = None ∧ isDraw res = None))
  ∧ (∀ gid pid game,
       Registry.sessions st !! gid = Some game →
       status game = Active →
       ∃ game',
         GameService.forfeitGame gid pid (Registry.sessions st) !! gid
           = Some game' ∧
         status game' = Forfeited ∧
         (∀ w, winner game' = Some w ↔
               w ≠ "" ∧
               ((pid = player_id (player1 game) ∧
                 ∃ p2, player2 game = Some p2 ∧ w = player_id p2)
                ∨ (pid ≠ player_id (player1 game) ∧
                   w = player_id (player1 game))))).
Proof.
  intros Hreach. pose proof (reachable_ok st Hreach) as Hok.
  split_and!.
  - intros gid g Hg. destruct (Hok _ _ Hg) as (Hgrid & Hstk & Hwin).
    unfold Invariants.winnerOk in Hwin.
    destruct (status g) eqn:Hst; split_and!;
      try (intros [?|?]; done); try done;
      try (intros w Hw; congruence).
    + intros w Hw. left. split; [done|]. by rewrite Hw in Hwin.
    + intros _ Hw. by rewrite Hw in Hwin.
    + intros w Hw. right. split; [done|]. by apply Hwin.
  - intros gid pid column now res games' Hmove Hsucc.
    destruct (makeMove_inv _ _ _ _ _ _ _ Hmove)
      as [[Hfail _] | (game & p & r & won & Hg & Hst & Hp & Hpid & Hcol & Hr &
                       Hcell & Hbelow & Hwon & Hres)]; [congruence|].
    destruct (Hok _ _ Hg) as (Hgrid & Hstk & Hwin).
    unfold Invariants.winnerOk in Hwin. rewrite Hst in Hwin.
    set (b1 := setCell (board game) r column (Piece (currentTurn game))) in *.
    assert (is_grid b1 = true) as Hgrid1
      by (by unfold b1; rewrite is_grid_setCell).
    assert (Outcomes.stacked b1) as Hstk1 by (by apply stacked_setCell).
    assert (cellAt b1 r column = Some (Piece (currentTurn game))) as Hcell1
      by (by eapply cellAt_setCell_eq).
    destruct (checkWinner_spec b1 Hgrid1 r column _ Hcell1)
      as (won' & Hwon' & Hiff).
    simpl in Hwon. fold b1 in Hwon. rewrite Hwon in Hwon'.
    injection Hwon' as <-.
    assert (Registry.sideId game (currentTurn game) = Some pid) as Hside
      by (rewrite <- Hpid; by apply currentPlayerOf_sideId).
    cbv zeta in Hres. exists game.
    destruct won.
    + injection Hres as -> ->. eexists _, r. rewrite lookup_insert_eq.
      split_and!; try done; simpl; fold b1; split_and!; try done.
      * intros Hno. exfalso. apply Hno. by apply Hiff.
      * intros Hno. exfalso. apply Hno. by apply Hiff.
    + assert (¬ Spec.on_some_axis b1 r column (Piece (currentTurn game)) 4)
        as Hno by (rewrite <- Hiff; congruence).
      simpl in Hres. fold b1 in Hres.
      destruct (GameService.isBoardFull b1) eqn:Hfull;
        injection Hres as -> ->; eexists _, r; rewrite lookup_insert_eq;
        (split_and!; try done; simpl; fold b1; split_and!; try done).
      * intros _ Hnf. exfalso. apply Hnf. by apply isBoardFull_full.
      * intros _ Hf. apply isBoardFull_full in Hf; [congruence | done..].
  - intros gid pid game Hg Hst. unfold GameService.forfeitGame.
    rewrite Hg. rewrite bool_decide_eq_true_2 by done.
    rewrite lookup_insert_eq. eexists. split_and!; [done | done |].
    simpl. intros w. rewrite idOrNull_Some. case_bool_decide as H1; split.
    + intros (p2 & Hp2 & <- & Hne). split; [done|]. left. split; [done|].
      by exists p2.
    + intros (Hne & [(_ & p2 & Hp2 & ->) | (Hn & _)]); [|done].
      by exists p2.
    + intros (p & [= <-] & <- & Hne). split; [done|]. right. by split.
    + intros (Hne & [(He & _) | (_ & ->)]); [done|]. by eexists.
Qed.

(** bob forfeits the session whose column 0 is full: alice is the winner. *)
Lemma winner_set_only_by_four_or_forfeit_witness :
  ∃ game',
    GameService.forfeitGame "g1" "id-bob"
      (Registry.sessions (Reach.stateAfter FullColumn.sixInColumn0)) !! "g1"
      = Some game' ∧
    status game' = Forfeited ∧ winner game' = Some "id-alice".
Proof.
  destruct (winner_set_only_by_four_or_forfeit
              (Reach.stateAfter FullColumn.sixInColumn0))
    as (_ & _ & Hforfeit).
  - exists FullColumn.sixInColumn0. eexists. split; vm_compute; reflexivity.
  - destruct (Hforfeit "g1" "id-bob"
                (Reach.sessionAfter FullColumn.sixInColumn0 "g1"
                   Reach.freshSession))
      as (game' & Hg' & Hst' & Hw).
    + vm_compute. reflexivity.
    + vm_compute. reflexivity.
    + exists game'. split_and!; [exact Hg' | exact Hst' |].
      apply Hw. split; [discriminate|]. right. split; [|reflexivity].
      vm_compute. discriminate.
Defined.

(** ** BotService: the probes *)

Section Probes.

Import BotService Cascade.

Lemma lowestFrom_cases b c n :
  (lowestFrom b c n = -1 ∧
   ∀ i, 0 ≤ i < Z.of_nat n → cellAt b i c ≠ Some EmptyCell) ∨
  (0 ≤ lowestFrom b c n < Z.of_nat n ∧
   cellAt b (lowestFrom b c n) c = Some EmptyCell ∧
   ∀ i, lowestFrom b c n < i < Z.of_nat n → cellAt b i c ≠ Some EmptyCell).
Proof.
  induction n as [|n IH]; simpl.
  - left. split; [done | intros; lia].
  - case_bool_decide as Hcell.
    + right. split_and!; [lia | lia | done | intros; lia].
    + destruct IH as [[Hnone Hall] | (Hr & Hcell' & Hall)].
      * left. split; [done|]. intros i Hi.
        destruct (decide (i = Z.of_nat n)) as [->|]; [done | apply Hall; lia].
      * right. split_and!; [lia | lia | done |]. intros i Hi.
        destruct (decide (i = Z.of_nat n)) as [->|]; [done | apply Hall; lia].
Qed.

Lemma canPlacePiece_legal b c : canPlacePiece b c = true ↔ legal b c.
Proof. unfold canPlacePiece, legal. apply bool_decide_eq_true. Qed.

(** In a legal column getLowestEmptyRow finds the drop row. *)
Lemma getLowestEmptyRow_dropRow b c :
  legal b c → dropRow b c (getLowestEmptyRow b c).
Proof.
  intros Hlegal. unfold getLowestEmptyRow, dropRow.
  destruct (lowestFrom_cases b c (Z.to_nat Config.rows))
    as [[_ Hnone] | (Hr & Hcell & Hbelow)].
  - exfalso. apply (Hnone 0); [unfold Config.rows; lia | done].
  - change (Z.of_nat (Z.to_nat Config.rows)) with Config.rows in *. done.
Qed.

Lemma dropRow_unique b c r r' : dropRow b c r → dropRow b c r' → r = r'.
Proof.
  intros (Hr & Hcell & Hbelow) (Hr' & Hcell' & Hbelow').
  destruct (Z.lt_trichotomy r r') as [Hlt | [-> | Hgt]]; [|done|].
  - exfalso. apply (Hbelow r'); [lia | done].
  - exfalso. apply (Hbelow' r); [lia | done].
Qed.

Lemma makesRun_lowest b s n c :
  makesRun b s n c ↔
  legal b c ∧
  Spec.on_some_axis (setCell b (getLowestEmptyRow b c) c (Piece s))
    (getLowestEmptyRow b c) c (Piece s) n.
Proof.
  split.
  - intros (Hlegal & r & Hdrop & Hrun). split; [done|].
    by rewrite <- (dropRow_unique _ _ _ _ Hdrop
                     (getLowestEmptyRow_dropRow _ _ Hlegal)).
  - intros (Hlegal & Hrun). split; [done|].
    exists (getLowestEmptyRow b c). split; [|done].
    by apply getLowestEmptyRow_dropRow.
Qed.

Context (b : Board) (Hgrid : is_grid b = true).

(** The four counts taken around a cell just written. *)
Lemma counts_around r c piece v0 n (k1 k2 k3 k4 : Z) :
  cellAt b r c = Some v0 →
  countInDirection (setCell b r c piece) r c 0 1 piece = Some k1 →
  countInDirection (setCell b r c piece) r c 1 0 piece = Some k2 →
  countInDirection (setCell b r c piece) r c 1 1 piece = Some k3 →
  countInDirection (setCell b r c piece) r c 1 (-1) piece = Some k4 →
  n ≤ k1 ∨ n ≤ k2 ∨ n ≤ k3 ∨ n ≤ k4 ↔
  Spec.on_some_axis (setCell b r c piece) r c piece n.
Proof.
  intros Hcell E1 E2 E3 E4. unfold countInDirection in *.
  assert (is_grid (setCell b r c piece) = true) as Hgrid1
    by (by rewrite is_grid_setCell).
  pose proof (cellAt_setCell_eq _ _ _ piece _ Hcell) as Hcell1.
  rewrite (count_reaches_iff _ Hgrid1 r c 0 1 piece n k1) by (done || lia).
  rewrite (count_reaches_iff _ Hgrid1 r c 1 0 piece n k2) by (done || lia).
  rewrite (count_reaches_iff _ Hgrid1 r c 1 1 piece n k3) by (done || lia).
  rewrite (count_reaches_iff _ Hgrid1 r c 1 (-1) piece n k4) by (done || lia).
  unfold Spec.on_some_axis, Spec.axes. split.
  - intros [H|[H|[H|H]]];
      [exists (0, 1) | exists (1, 0) | exists (1, 1) | exists (1, -1)];
      (split; [apply list_elem_of_In; simpl; tauto | done]).
  - intros ([dr dc] & Hin & Hrun). simpl in Hrun.
    repeat (apply elem_of_cons in Hin as [[= -> ->]|Hin]; [tauto|]).
    by apply elem_of_nil in Hin.
Qed.

(** wouldWin answers whether the placement completes a run of four, and
    hands the board back as it was. *)
Lemma wouldWin_spec r c piece v0 :
  cellAt b r c = Some v0 →
  ∃ w, wouldWin b r c piece = Some (w, b) ∧
       (w = true ↔ Spec.on_some_axis (setCell b r c piece) r c piece 4).
Proof.
  intros Hcell. unfold wouldWin, checkDirection.
  rewrite Hcell. cbv zeta. unfold restore.
  rewrite (setCell_restore _ _ _ _ _ Hcell).
  set (b1 := setCell b r c piece).
  destruct (countBothWays_total b1 r c 0 1 piece ltac:(lia)) as (k1 & E1 & _).
  destruct (countBothWays_total b1 r c 1 0 piece ltac:(lia)) as (k2 & E2 & _).
  destruct (countBothWays_total b1 r c 1 1 piece ltac:(lia)) as (k3 & E3 & _).
  destruct (countBothWays_total b1 r c 1 (-1) piece ltac:(lia))
    as (k4 & E4 & _).
  pose proof (counts_around r c piece v0 4 k1 k2 k3 k4 Hcell E1 E2 E3 E4)
    as Hiff.
  fold b1 in Hiff. unfold countInDirection.
  rewrite E1. cbn [mbind option_bind].
  destruct (4 <=? k1) eqn:L1.
  { eexists. split; [done|]. rewrite <- Hiff. apply Z.leb_le in L1. tauto. }
  rewrite E2. cbn [mbind option_bind].
  destruct (4 <=? k2) eqn:L2.
  { eexists. split; [done|]. rewrite <- Hiff. apply Z.leb_le in L2. tauto. }
  rewrite E3. cbn [mbind option_bind].
  destruct (4 <=? k3) eqn:L3.
  { eexists. split; [done|]. rewrite <- Hiff. apply Z.leb_le in L3. tauto. }
  rewrite E4. cbn [mbind option_bind].
  eexists. split; [done|]. rewrite <- Hiff, Z.leb_le.
  apply Z.leb_gt in L1, L2, L3. lia.
Qed.

(** createsThreeInRow does the same for runs of three. *)
Lemma createsThreeInRow_spec r c piece v0 :
  cellAt b r c = Some v0 →
  ∃ w, createsThreeInRow b r c piece = Some (w, b) ∧
       (w = true ↔ Spec.on_some_axis (setCell b r c piece) r c piece 3).
Proof.
  intros Hcell. unfold createsThreeInRow.
  rewrite Hcell. cbv zeta. unfold restore.
  rewrite (setCell_restore _ _ _ _ _ Hcell).
  set (b1 := setCell b r c piece).
  destruct (countBothWays_total b1 r c 0 1 piece ltac:(lia)) as (k1 & E1 & _).
  destruct (countBothWays_total b1 r c 1 0 piece ltac:(lia)) as (k2 & E2 & _).
  destruct (countBothWays_total b1 r c 1 1 piece ltac:(lia)) as (k3 & E3 & _).
  destruct (countBothWays_total b1 r c 1 (-1) piece ltac:(lia))
    as (k4 & E4 & _).
  pose proof (counts_around r c piece v0 3 k1 k2 k3 k4 Hcell E1 E2 E3 E4)
    as Hiff.
  fold b1 in Hiff. unfold countInDirection.
  rewrite E1. cbn [mbind option_bind].
  destruct (3 <=? k1) eqn:L1.
  { eexists. split; [done|]. rewrite <- Hiff. apply Z.leb_le in L1. tauto. }
  rewrite E2. cbn [mbind option_bind].
  destruct (3 <=? k2) eqn:L2.
  { eexists. split; [done|]. rewrite <- Hiff. apply Z.leb_le in L2. tauto. }
  rewrite E3. cbn [mbind option_bind].
  destruct (3 <=? k3) eqn:L3.
  { eexists. split; [done|]. rewrite <- Hiff. apply Z.leb_le in L3. tauto. }
  rewrite E4. cbn [mbind option_bind].
  eexists. split; [done|]. rewrite <- Hiff, Z.leb_le.
  apply Z.leb_gt in L1, L2, L3. lia.
Qed.

(** One priority loop: it returns the first column from [c0] on that is
    legal and passes the probe, or nothing if there is none; the board is
    handed back as it was. *)
Lemma firstColumn_spec
    (probe : Board → Z → Z → CellValue → option (bool * Board))
    (piece : CellValue) (n0 : Z) :
  (∀ r c v0, cellAt b r c = Some v0 →
     ∃ w, probe b r c piece = Some (w, b) ∧
          (w = true ↔ Spec.on_some_axis (setCell b r c piece) r c piece n0)) →
  let P := λ c, legal b c ∧
                Spec.on_some_axis (setCell b (getLowestEmptyRow b c) c piece)
                  (getLowestEmptyRow b c) c piece n0 in
  ∀ (n : nat) (c0 : Z),
    ∃ res, firstColumn probe piece n c0 b = Some (res, b) ∧
           match res with
           | Some k => c0 ≤ k < c0 + Z.of_nat n ∧ P k ∧
                       ∀ j, c0 ≤ j < k → ¬ P j
           | None => ∀ j, c0 ≤ j < c0 + Z.of_nat n → ¬ P j
           end.
Proof.
  intros Hprobe P n. induction n as [|n IH]; intros c0; simpl.
  - exists None. split; [done | intros; lia].
  - destruct (canPlacePiece b c0) eqn:Hplace.
    + apply canPlacePiece_legal in Hplace.
      destruct (getLowestEmptyRow_dropRow b c0 Hplace) as (_ & Hcell & _).
      destruct (Hprobe _ _ _ Hcell) as (w & -> & Hw).
      cbn [mbind option_bind]. simpl. destruct w.
      * exists (Some c0). split; [done|]. split_and!; [lia | lia | | intros; lia].
        split; [done | by apply Hw].
      * destruct (IH (c0 + 1)) as (res & -> & Hres). exists res.
        split; [done|].
        assert (¬ P c0) as Hno by (intros [_ HP]; apply Hw in HP; done).
        destruct res as [k|].
        -- destruct Hres as (Hk & HP & Hfirst). split_and!; [lia | lia | done |].
           intros j Hj. destruct (decide (j = c0)) as [->|]; [done|].
           apply Hfirst. lia.
        -- intros j Hj. destruct (decide (j = c0)) as [->|]; [done|].
           apply Hres. lia.
    + assert (¬ P c0) as Hno.
      { intros [HP _]. apply canPlacePiece_legal in HP. congruence. }
      destruct (IH (c0 + 1)) as (res & -> & Hres). exists res.
      split; [done|]. destruct res as [k|].
      * destruct Hres as (Hk & HP & Hfirst). split_and!; [lia | lia | done |].
        intros j Hj. destruct (decide (j = c0)) as [->|]; [done|].
        apply Hfirst. lia.
      * intros j Hj. destruct (decide (j = c0)) as [->|]; [done|].
        apply Hres. lia.
Qed.

Lemma legal_in_range c : legal b c → 0 ≤ c < Config.cols.
Proof. intros Hl. by destruct (is_grid_inside b 0 c _ Hgrid Hl). Qed.

End Probes.

(** ** BotService.getBestMove *)

Section BestMove.

Import BotService Cascade.

(** The fallback: the head of the valid columns sorted by distance from
    the middle is the closest one, the lower index winning a tie; with no
    valid column there is no head. *)
Lemma fallback_head (f : Z → bool) :
  f 3 = false →
  match head (sortBy (λ x y, Z.abs (x - 3) - Z.abs (y - 3))
                (filter (λ c, f c = true) (seqZ 0 Config.cols))) with
  | Some k =>
      0 ≤ k < Config.cols ∧ f k = true ∧
      ∀ c', 0 ≤ c' < Config.cols → f c' = true →
            Z.abs (k - 3) < Z.abs (c' - 3) ∨
            (Z.abs (k - 3) = Z.abs (c' - 3) ∧ k ≤ c')
  | None => ∀ c', 0 ≤ c' < Config.cols → f c' = false
  end.
Proof.
  intros H3.
  change (seqZ 0 Config.cols) with [0; 1; 2; 3; 4; 5; 6].
  rewrite !filter_cons, filter_nil, H3.
  unfold Config.cols.
  destruct (f 0) eqn:H0, (f 1) eqn:H1, (f 2) eqn:H2, (f 4) eqn:H4,
           (f 5) eqn:H5, (f 6) eqn:H6; simpl;
    try (split_and!; [lia | lia | done |]);
    intros c' Hc';
    (assert (c' = 0 ∨ c' = 1 ∨ c' = 2 ∨ c' = 3 ∨ c' = 4 ∨ c' = 5 ∨ c' = 6)
       as [->|[->|[->|[->|[->|[->| ->]]]]]] by lia);
    try done; try congruence; try (intros _; lia).
Qed.

Lemma firstWith_unique (P : Z → Prop) c c' :
  firstWith P c → firstWith P c' → c = c'.
Proof.
  intros [Hc Hfirst] [Hc' Hfirst'].
  destruct (Z.lt_trichotomy c c') as [Hlt | [-> | Hgt]]; [|done|].
  - by destruct (Hfirst' c Hlt).
  - by destruct (Hfirst c' Hgt).
Qed.

Lemma closestLegal_unique b c c' :
  closestLegal b c → closestLegal b c' → c = c'.
Proof.
  intros [Hl Hmin] [Hl' Hmin'].
  destruct (Hmin c' Hl') as [?|[? ?]], (Hmin' c Hl) as [?|[? ?]]; lia.
Qed.

(** The cascade picks at most one column. *)
Lemma selects_unique b s c c' : selects b s c → selects b s c' → c = c'.
Proof.
  unfold selects, noneWith.
  intros [H|[H|[H|[H|H]]]] [H'|[H'|[H'|[H'|H']]]];
    repeat match goal with
           | H : _ ∧ _ |- _ => destruct H
           end;
    try congruence;
    try match goal with
        | Hf : firstWith ?P ?k, Hf' : firstWith ?P ?k' |- ?k = ?k' =>
            exact (firstWith_unique P k k' Hf Hf')
        | Hf : closestLegal ?b ?k, Hf' : closestLegal ?b ?k' |- ?k = ?k' =>
            exact (closestLegal_unique b k k' Hf Hf')
        | Hn : ∀ j, ¬ ?P j, Hf : firstWith ?P ?k |- _ =>
            by destruct (Hn k (proj1 Hf))
        end.
Qed.

Context (b : Board) (Hgrid : is_grid b = true).

(** One tier of the cascade on the whole range of columns. *)
Lemma tier_spec
    (probe : Board → Z → Z → CellValue → option (bool * Board))
    (s : Side) (n0 : Z) :
  (∀ r c v0, cellAt b r c = Some v0 →
     ∃ w, probe b r c (Piece s) = Some (w, b) ∧
          (w = true ↔
           Spec.on_some_axis (setCell b r c (Piece s)) r c (Piece s) n0)) →
  ∃ res, firstColumn probe (Piece s) (Z.to_nat Config.cols) 0 b
           = Some (res, b) ∧
         match res with
         | Some k => firstWith (makesRun b s n0) k
         | None => noneWith (makesRun b s n0)
         end.
Proof.
  intros Hprobe.
  destruct (firstColumn_spec b probe (Piece s) n0 Hprobe
              (Z.to_nat Config.cols) 0) as (res & Hres & Hcases).
  exists res. split; [done|].
  change (Z.of_nat (Z.to_nat Config.cols)) with Config.cols in Hcases.
  destruct res as [k|].
  - destruct Hcases as (Hk & HP & Hfirst). split.
    + by apply makesRun_lowest.
    + intros j Hj Hrun. pose proof Hrun as [Hl _].
      apply (legal_in_range b Hgrid) in Hl.
      apply (Hfirst j); [lia|]. by apply makesRun_lowest.
  - intros j Hrun. pose proof Hrun as [Hl _].
    apply (legal_in_range b Hgrid) in Hl.
    apply (Hcases j); [lia|]. by apply makesRun_lowest.
Qed.

(** getBestMove returns, hands the board back as it was, and its answer is
    the column the cascade selects; it is undefined exactly when no column
    is legal. *)
Lemma getBestMove_spec s :
  ∃ res, getBestMove b s = Some (res, b) ∧
         match res with
         | Some c => selects b s c
         | None => ∀ c, ¬ legal b c
         end.
Proof.
  unfold getBestMove. cbv zeta.
  destruct (tier_spec wouldWin s 4) as (win & -> & Hwin).
  { intros r c v0 Hcell. by eapply wouldWin_spec. }
  cbn [mbind option_bind fst snd].
  destruct win as [c|]; [exists (Some c); split; [done | by left]|].
  destruct (tier_spec wouldWin (opponentOf s) 4) as (block & -> & Hblock).
  { intros r c v0 Hcell. by eapply wouldWin_spec. }
  cbn [mbind option_bind fst snd].
  destruct block as [c|];
    [exists (Some c); split; [done | by right; left]|].
  destruct (tier_spec createsThreeInRow s 3) as (build & -> & Hbuild).
  { intros r c v0 Hcell. by eapply createsThreeInRow_spec. }
  cbn [mbind option_bind fst snd].
  destruct build as [c|];
    [exists (Some c); split; [done | by right; right; left]|].
  change (Config.cols `div` 2) with 3.
  destruct (canPlacePiece b 3) eqn:Hmid.
  { exists (Some 3). split; [done|]. right; right; right; left.
    split_and!; try done. by apply canPlacePiece_legal. }
  assert (¬ legal b middle) as Hnomid.
  { intros Hl. apply canPlacePiece_legal in Hl. unfold middle in Hl.
    congruence. }
  unfold getValidMoves.
  pose proof (fallback_head (canPlacePiece b) Hmid) as Hfall.
  destruct (head _) as [k|]; eexists; (split; [done|]).
  - destruct Hfall as (Hk & Hlegal & Hmin).
    right; right; right; right. split_and!; try done.
    split; [by apply canPlacePiece_legal|].
    intros c' Hl'. apply Hmin; [by apply (legal_in_range b Hgrid) |
                                by apply canPlacePiece_legal].
  - intros c Hl. pose proof (legal_in_range b Hgrid c Hl) as Hc.
    apply canPlacePiece_legal in Hl. rewrite (Hfall c Hc) in Hl. done.
Qed.

End BestMove.

(** ** The automated opponent: claims *)

Section BotClaims.

Import BotService Cascade.

Lemma selects_legal b s c : selects b s c → legal b c.
Proof.
  intros [[[H _] _] | [(_ & [[H _] _]) | [(_ & _ & [[H _] _]) |
         [(_ & _ & _ & H & ->) | (_ & _ & _ & _ & [H _])]]]]; done.
Qed.

(** A win found by the probe is a win in the sense of the cascade. *)
Lemma winsAt_by_probe b s c :
  is_grid b = true →
  canPlacePiece b c = true →
  wouldWin b (getLowestEmptyRow b c) c (Piece s) = Some (true, b) →
  winsAt b s c.
Proof.
  intros Hgrid Hplace%canPlacePiece_legal Hprobe.
  apply makesRun_lowest. split; [done|].
  destruct (getLowestEmptyRow_dropRow b c Hplace) as (_ & Hcell & _).
  destruct (wouldWin_spec b Hgrid _ _ (Piece s) _ Hcell) as (w & Hw & Hiff).
  rewrite Hprobe in Hw. injection Hw as <-. by apply Hiff.
Qed.

(** On a grid whose pieces are stacked, the legal columns are the columns
    that still have an empty cell. *)
Lemma legal_iff_room b c :
  is_grid b = true → Outcomes.stacked b → 0 ≤ c < Config.cols →
  legal b c ↔ ∃ r, 0 ≤ r < Config.rows ∧ cellAt b r c = Some EmptyCell.
Proof.
  intros Hgrid Hstk Hc. split.
  - intros Hl. exists 0. split; [unfold Config.rows; lia | done].
  - intros (r & Hr & Hcell). unfold legal.
    destruct (decide (cellAt b 0 c = Some EmptyCell)) as [|Htop]; [done|].
    destruct (decide (r = 0)) as [->|Hne]; [done|].
    exfalso. apply (Hstk 0 r c); [lia | lia | done | done].
Qed.

End BotClaims.

(** C4, with its last sentence restricted to the first such column.  On
    every grid with a legal column, for either side, getBestMove returns
    the column picked by the cascade, and the cascade picks exactly one
    column: (1) the first legal column whose placement completes four for
    the side; else (2) the first legal column whose placement would
    complete four for the other side; else (3) the first legal column whose
    placement gives the side a run of at least three; else (4) column 3 if
    legal; else (5) the legal column closest to column 3, the lower index
    winning a tie.  When column 3 is the first column on which the side
    completes four, the answer is 3; when the side cannot complete four
    anywhere and column 3 is the first column on which the other side
    would, the answer is 3.  On the board with side A on (5,0) (5,1) (5,2),
    both sides answer 3.  Legal means that the top cell is empty, which on
    stacked grids is to have an empty cell. *)
Theorem getBestMove_follows_cascade :
  (∀ (b : Board) (s : Side),
     is_grid b = true →
     (∃ c, Cascade.legal b c) →
     ∃ c, BotService.getBestMove b s = Some (Some c, b) ∧
          Cascade.selects b s c ∧
          (∀ c', Cascade.selects b s c' → c' = c) ∧
          (Cascade.firstWith (Cascade.winsAt b s) 3 → c = 3) ∧
          (Cascade.noneWith (Cascade.winsAt b s) →
           Cascade.firstWith
             (Cascade.winsAt b (BotService.opponentOf s)) 3 →
           c = 3))
  ∧ (∀ (b : Board) (c : Z),
       is_grid b = true → Outcomes.stacked b → 0 ≤ c < Config.cols →
       Cascade.legal b c ↔
       ∃ r, 0 ≤ r < Config.rows ∧ cellAt b r c = Some EmptyCell)
  ∧ BotService.getBestMove BotExamples.threeInRow Player1
      = Some (Some 3, BotExamples.threeInRow)
  ∧ BotService.getBestMove BotExamples.threeInRow Player2
      = Some (Some 3, BotExamples.threeInRow).
Proof.
  split_and!; [| apply legal_iff_room | by vm_compute | by vm_compute].
  intros b s Hgrid [c0 Hlegal].
  destruct (getBestMove_spec b Hgrid s) as (res & Hres & Hsel).
  destruct res as [c|]; [|by destruct (Hsel c0)].
  exists c. split_and!; [done | done | | |].
  - intros c' Hsel'. by eapply selects_unique.
  - intros Hfirst. eapply selects_unique; [done | by left].
  - intros Hnone Hfirst. eapply selects_unique; [done | by right; left].
Qed.

Lemma getBestMove_follows_cascade_witness :
  ∃ c, BotService.getBestMove GameService.emptyBoard Player2
         = Some (Some c, GameService.emptyBoard) ∧
       Cascade.selects GameService.emptyBoard Player2 c.
Proof.
  destruct (proj1 getBestMove_follows_cascade GameService.emptyBoard Player2)
    as (c & Hbest & Hsel & _).
  - reflexivity.
  - exists 0. reflexivity.
  - exists c. split; [exact Hbest | exact Hsel].
Defined.

(** C4 without that restriction fails: a side that can complete four on
    column 3 need not answer 3, and a side that could block there need not
    either.  On [twoWins] side A completes four on column 3 and on column
    0, and answers 0.  On [ownWinFirst] side A threatens column 3, and side
    B, to move, answers 6, where it completes four itself. *)
Lemma getBestMove_not_always_column_3 :
  (is_grid BotExamples.twoWins = true ∧
   Cascade.winsAt BotExamples.twoWins Player1 3 ∧
   BotService.getBestMove BotExamples.twoWins Player1
     = Some (Some 0, BotExamples.twoWins))
  ∧ (is_grid BotExamples.ownWinFirst = true ∧
     Cascade.winsAt BotExamples.ownWinFirst Player1 3 ∧
     BotService.getBestMove BotExamples.ownWinFirst Player2
       = Some (Some 6, BotExamples.ownWinFirst)).
Proof.
  split; (split_and!; [reflexivity | | by vm_compute]);
    (apply winsAt_by_probe; [reflexivity | reflexivity | by vm_compute]).
Qed.

(** C8.  On every grid and for either side, getBestMove returns with the
    grid exactly as it found it; each of the two probes, called on an
    existing cell, writes its piece, takes its counts and writes the
    original value back, so the grid after the probe is the grid before
    it. *)
Theorem getBestMove_leaves_grid (b : Board) (s : Side) :
  is_grid b = true →
  (∃ res, BotService.getBestMove b s = Some (res, b)) ∧
  (∀ r c piece v0,
     cellAt b r c = Some v0 →
     (∃ w, BotService.wouldWin b r c piece = Some (w, b)) ∧
     (∃ w, BotService.createsThreeInRow b r c piece = Some (w, b)) ∧
     BotService.restore (setCell b r c piece) r c (cellAt b r c) = b).
Proof.
  intros Hgrid. split.
  - destruct (getBestMove_spec b Hgrid s) as (res & Hres & _). by exists res.
  - intros r c piece v0 Hcell. split_and!.
    + destruct (wouldWin_spec b Hgrid r c piece v0 Hcell) as (w & Hw & _).
      by exists w.
    + destruct (createsThreeInRow_spec b Hgrid r c piece v0 Hcell)
        as (w & Hw & _).
      by exists w.
    + rewrite Hcell. simpl. by apply setCell_restore.
Qed.

Lemma getBestMove_leaves_grid_witness :
  ∃ res, BotService.getBestMove BotExamples.twoWins Player2
           = Some (res, BotExamples.twoWins).
Proof.
  exact (proj1 (getBestMove_leaves_grid BotExamples.twoWins Player2 eq_refl)).
Defined.

(** C10.  On a 6 x 7 grid with an empty top cell in some column, for
    either side, getBestMove returns a column between 0 and 6 whose top
    cell is empty.  On a 6 x 7 grid without one, it returns undefined (the
    first element of the empty list of valid moves), which is no column. *)
Theorem getBestMove_legal_unless_full :
  (∀ (b : Board) (s : Side),
     is_grid b = true →
     (∃ c, 0 ≤ c < Config.cols ∧ cellAt b 0 c = Some EmptyCell) →
     ∃ c, BotService.getBestMove b s = Some (Some c, b) ∧
          0 ≤ c ≤ 6 ∧ cellAt b 0 c = Some EmptyCell)
  ∧ (∀ (b : Board) (s : Side),
       is_grid b = true →
       (∀ c, 0 ≤ c < Config.cols → cellAt b 0 c ≠ Some EmptyCell) →
       BotService.getBestMove b s = Some (None, b))
  ∧ BotService.getBestMove BotExamples.fullBoard Player1
      = Some (None, BotExamples.fullBoard).
Proof.
  split_and!; [| | by vm_compute].
  - intros b s Hgrid (c0 & Hc0 & Htop).
    destruct (getBestMove_spec b Hgrid s) as (res & Hres & Hsel).
    destruct res as [c|]; [|by destruct (Hsel c0)].
    exists c. split; [done|].
    pose proof (selects_legal _ _ _ Hsel) as Hl.
    pose proof (legal_in_range b Hgrid c Hl) as Hc.
    unfold Config.cols in Hc. split; [lia | done].
  - intros b s Hgrid Hfull.
    destruct (getBestMove_spec b Hgrid s) as (res & Hres & Hsel).
    destruct res as [c|]; [|done]. exfalso.
    pose proof (selects_legal _ _ _ Hsel) as Hl.
    by apply (Hfull c (legal_in_range b Hgrid c Hl)).
Qed.

Lemma getBestMove_legal_unless_full_witness :
  ∃ c, BotService.getBestMove BotExamples.ownWinFirst Player1
         = Some (Some c, BotExamples.ownWinFirst) ∧
       0 ≤ c ≤ 6 ∧ cellAt BotExamples.ownWinFirst 0 c = Some EmptyCell.
Proof.
  apply (proj1 getBestMove_legal_unless_full BotExamples.ownWinFirst Player1).
  - reflexivity.
  - exists 0. split; [unfold Config.cols; lia | reflexivity].
Defined.

(** ** The matchmaking queue *)

Section Matchmaking.

Import MatchmakingService QueueFacts.

Lemma qdelete_subset k (q : Queue) x : x ∈ qdelete k q → x ∈ q ∧ x.1 ≠ k.
Proof.
  induction q as [|[k' e'] q IH]; simpl; [by intros ?%elem_of_nil|].
  case_bool_decide as Hk.
  - intros Hx. destruct (IH Hx). split; [by right | done].
  - intros [->|Hx]%elem_of_cons; [split; [by left | done]|].
    destruct (IH Hx). split; [by right | done].
Qed.

Lemma qdelete_absent k (q : Queue) : k ∉ q.*1 → qdelete k q = q.
Proof.
  induction q as [|[k' e'] q IH]; simpl; [done|].
  intros Hk. apply not_elem_of_cons in Hk as [Hne Hk].
  rewrite bool_decide_eq_false_2 by done. by rewrite IH.
Qed.

Lemma qdelete_keys_NoDup k (q : Queue) : NoDup q.*1 → NoDup (qdelete k q).*1.
Proof.
  induction q as [|[k' e'] q IH]; simpl; [done|].
  intros [Hk' Hnd]%NoDup_cons. case_bool_decide; [by apply IH|].
  simpl. apply NoDup_cons. split; [|by apply IH].
  intros [[k2 e2] [Heq Hin]]%list_elem_of_fmap. simpl in Heq. subst k2.
  apply qdelete_subset in Hin as [Hin _]. apply Hk'.
  apply list_elem_of_fmap. by exists (k', e2).
Qed.

Lemma qdelete_ok k (q : Queue) : queueOk q → queueOk (qdelete k q).
Proof.
  intros (Hkeys & Hnd & Hsame). split_and!.
  - intros k' e' [Hin _]%qdelete_subset. by apply Hkeys.
  - by apply qdelete_keys_NoDup.
  - intros k1 e1 k2 e2 [H1 _]%qdelete_subset [H2 _]%qdelete_subset.
    by eapply Hsame.
Qed.

Lemma qset_elem k e (q : Queue) x : x ∈ qset k e q → x = (k, e) ∨ x ∈ q.
Proof.
  induction q as [|[k' e'] q IH]; simpl.
  - intros ->%list_elem_of_singleton. by left.
  - case_bool_decide as Hk.
    + intros [->|Hx]%elem_of_cons; [by left | right; by right].
    + intros [->|Hx]%elem_of_cons; [right; by left|].
      destruct (IH Hx) as [->|Hin]; [by left | right; by right].
Qed.

Lemma qset_keys_NoDup k e (q : Queue) : NoDup q.*1 → NoDup (qset k e q).*1.
Proof.
  induction q as [|[k' e'] q IH]; simpl.
  - intros _. apply NoDup_singleton.
  - intros [Hk' Hnd]%NoDup_cons. case_bool_decide as Hk; simpl.
    + subst k'. by apply NoDup_cons.
    + apply NoDup_cons. split; [|by apply IH].
      intros [[k2 e2] [Heq Hin]]%list_elem_of_fmap. simpl in Heq. subst k2.
      apply qset_elem in Hin as [[= -> ->]|Hin]; [done|].
      apply Hk'. apply list_elem_of_fmap. by exists (k', e2).
Qed.

Lemma qget_qset k e (q : Queue) : qget k (qset k e q) = Some e.
Proof.
  induction q as [|[k' e'] q IH]; simpl.
  - by rewrite bool_decide_eq_true_2.
  - case_bool_decide as Hk; simpl.
    + by rewrite bool_decide_eq_true_2.
    + by rewrite bool_decide_eq_false_2.
Qed.

Lemma qset_ok (p : Player) h (q : Queue) :
  queueOk q →
  (∀ k e, (k, e) ∈ q → player_id (player e) = player_id p) →
  queueOk (qset (socketId p) {| player := p; timeout := h |} q).
Proof.
  intros (Hkeys & Hnd & Hsame) Hid. split_and!.
  - intros k e [[= -> ->]|Hin]%qset_elem; [done | by apply Hkeys].
  - by apply qset_keys_NoDup.
  - intros k1 e1 k2 e2 [[= -> ->]|H1]%qset_elem [[= -> ->]|H2]%qset_elem;
      simpl.
    + done.
    + symmetry. by eapply Hid.
    + by eapply Hid.
    + by eapply Hsame.
Qed.

(** With a well-formed queue, the head entry decides for all entries. *)
Lemma head_decides (q : Queue) k0 e0 rest (p : Player) :
  queueOk q → q = (k0, e0) :: rest →
  (∃ k e, (k, e) ∈ q ∧ player_id (player e) ≠ player_id p) ↔
  player_id (player e0) ≠ player_id p.
Proof.
  intros (_ & _ & Hsame) ->. split.
  - intros (k & e & Hin & Hne).
    assert ((k0, e0) ∈ (k0, e0) :: rest) as Hhead by (apply elem_of_cons; by left).
    by rewrite (Hsame k0 e0 k e Hhead Hin).
  - intros Hne. exists k0, e0. split; [by left | done].
Qed.

Lemma queueOk_nil : queueOk [].
Proof.
  split_and!; [by intros k e ?%elem_of_nil | apply NoDup_nil_2 |
               by intros k e k' e' ?%elem_of_nil].
Qed.

Lemma addPlayerToQueue_ok p uuid now now' w :
  queueOk (waitingPlayers w) →
  queueOk (waitingPlayers (addPlayerToQueue p uuid now now' w).2).
Proof.
  intros Hok. unfold addPlayerToQueue, enqueueWaiting.
  destruct (waitingPlayers w) as [|[k0 e0] rest] eqn:Hq;
    cbn [head fmap list_fmap snd].
  - cbn [waitingPlayers].
    apply qset_ok; [apply queueOk_nil | by intros k e ?%elem_of_nil].
  - case_bool_decide as Hid; cbn [snd waitingPlayers].
    + by apply qdelete_ok.
    + apply qset_ok; [done|]. intros k e Hin.
      destruct Hok as (_ & _ & Hsame).
      assert ((k0, e0) ∈ (k0, e0) :: rest) as Hhead by (apply elem_of_cons; by left).
      rewrite (Hsame k e k0 e0 Hin Hhead).
      destruct (decide (player_id (player e0) = player_id p)); [done|].
      by destruct Hid.
Qed.

Lemma matchWithBot_ok p botId uuid now now' w :
  queueOk (waitingPlayers w) →
  queueOk (waitingPlayers (matchWithBot p botId uuid now now' w)).
Proof.
  intros Hok. unfold matchWithBot.
  destruct (qget _ _); [|done]. simpl. by apply qdelete_ok.
Qed.

Lemma applyQueueOp_ok op w :
  queueOk (waitingPlayers w) → queueOk (waitingPlayers (applyQueueOp op w)).
Proof.
  intros Hok. destruct op as [p uuid now now' | h botId uuid now now' | sock
                             | games' timers']; simpl.
  - by apply addPlayerToQueue_ok.
  - unfold fireTimer. destruct (armed (timers w) !! h) as [[p|]|]; try done.
    by apply matchWithBot_ok.
  - unfold removePlayerFromQueue. destruct (qget _ _); [|done].
    simpl. by apply qdelete_ok.
  - done.
Qed.

Lemma runQueue_ok ops w :
  queueOk (waitingPlayers w) → queueOk (waitingPlayers (runQueue ops w)).
Proof.
  revert w. induction ops as [|op ops IH]; intros w Hok; [done|].
  simpl. apply IH. by apply applyQueueOp_ok.
Qed.

(** The matched branch of addPlayerToQueue. *)
Lemma addPlayerToQueue_match p uuid now now' w e0 rest :
  queueOk (waitingPlayers w) →
  waitingPlayers w = (socketId (player e0), e0) :: rest →
  player_id (player e0) ≠ player_id p →
  let res := addPlayerToQueue p uuid now now' w in
  res.1 = Some uuid ∧
  armed (timers res.2) !! timeout e0 = None ∧
  waitingPlayers res.2 = rest ∧
  ∃ g, games res.2 !! uuid = Some g ∧
       player1 g = player e0 ∧ player2 g = Some p ∧ status g = Active ∧
       game_id g = uuid.
Proof.
  intros (_ & Hnd & _) Hq Hid. unfold addPlayerToQueue. rewrite Hq. simpl.
  rewrite bool_decide_eq_true_2 by done. simpl.
  rewrite Hq in Hnd. simpl in Hnd. apply NoDup_cons in Hnd as [Hk _].
  split_and!.
  - done.
  - apply lookup_delete_eq.
  - rewrite bool_decide_eq_true_2 by done. by apply qdelete_absent.
  - unfold GameService.joinGame. rewrite lookup_insert_eq. simpl.
    rewrite lookup_insert_eq. by eexists.
Qed.

(** The waiting branch. *)
Lemma addPlayerToQueue_wait p uuid now now' w :
  (∀ k0 e0 rest, waitingPlayers w = (k0, e0) :: rest →
                 player_id (player e0) = player_id p) →
  let res := addPlayerToQueue p uuid now now' w in
  res.1 = None ∧ games res.2 = games w ∧
  ∃ h, qget (socketId p) (waitingPlayers res.2)
         = Some {| player := p; timeout := h |} ∧
       armed (timers res.2) !! h = Some (TaskMatchWithBot p).
Proof.
  intros Hhead. unfold addPlayerToQueue.
  assert (let res := (None : option string, enqueueWaiting p w) in
          res.1 = None ∧ games res.2 = games w ∧
          ∃ h, qget (socketId p) (waitingPlayers res.2)
                 = Some {| player := p; timeout := h |} ∧
               armed (timers res.2) !! h = Some (TaskMatchWithBot p)) as Hwait.
  { cbv zeta. split_and!; [done | done |].
    exists (nextTimer (timers w)). split.
    - apply qget_qset.
    - apply lookup_insert_eq. }
  destruct (waitingPlayers w) as [|[k0 e0] rest] eqn:Hq;
    cbn [head fmap list_fmap snd]; [done|].
  rewrite bool_decide_eq_false_2; [done|].
  intros Hne. apply Hne. by eapply Hhead.
Qed.

End Matchmaking.

(** C5.  In every state of the services reached from an empty queue by
    enqueues, timeouts, removals and the activity of the other components:
    when some waiting entry has an identity different from the caller's,
    addPlayerToQueue matches the caller at once with the oldest entry
    (whose identity differs too): the timer of that entry is cancelled, the
    entry leaves the queue, a session is created with the waiting
    participant as player1, the caller joins it as player2, and the id of
    the session is returned; otherwise the caller is stored in the queue
    with an armed bot timer and null is returned.  Two enqueues by
    participants of different identity on an empty queue, with no timeout
    in between, return null and then a session id; in that session the
    first caller is player1 and the second player2. *)
Theorem enqueue_matches_or_waits :
  (∀ (ops : list MatchmakingService.QueueOp)
     (w0 : MatchmakingService.Services) (p : Player) (uuid : string)
     (now now' : Z),
     MatchmakingService.waitingPlayers w0 = [] →
     let w := MatchmakingService.runQueue ops w0 in
     let res := MatchmakingService.addPlayerToQueue p uuid now now' w in
     let differs :=
       ∃ k e, (k, e) ∈ MatchmakingService.waitingPlayers w ∧
              player_id (MatchmakingService.player e) ≠ player_id p in
     (differs →
      ∃ e0 rest,
        MatchmakingService.waitingPlayers w
          = (socketId (MatchmakingService.player e0), e0) :: rest ∧
        player_id (MatchmakingService.player e0) ≠ player_id p ∧
        res.1 = Some uuid ∧
        armed (MatchmakingService.timers res.2)
          !! MatchmakingService.timeout e0 = None ∧
        MatchmakingService.waitingPlayers res.2 = rest ∧
        ∃ g, MatchmakingService.games res.2 !! uuid = Some g ∧
             player1 g = MatchmakingService.player e0 ∧
             player2 g = Some p ∧ status g = Active ∧ game_id g = uuid) ∧
     (¬ differs →
      res.1 = None ∧
      MatchmakingService.games res.2 = MatchmakingService.games w ∧
      ∃ h, MatchmakingService.qget (socketId p)
             (MatchmakingService.waitingPlayers res.2)
             = Some {| MatchmakingService.player := p;
                       MatchmakingService.timeout := h |} ∧
           armed (MatchmakingService.timers res.2) !! h
             = Some (TaskMatchWithBot p)))
  ∧ (∀ (w0 : MatchmakingService.Services) (p1 p2 : Player)
       (u1 u2 : string) (n1 n1' n2 n2' : Z),
       MatchmakingService.waitingPlayers w0 = [] →
       player_id p1 ≠ player_id p2 →
       let first := MatchmakingService.addPlayerToQueue p1 u1 n1 n1' w0 in
       let second :=
         MatchmakingService.addPlayerToQueue p2 u2 n2 n2' first.2 in
       first.1 = None ∧ second.1 = Some u2 ∧
       MatchmakingService.waitingPlayers second.2 = [] ∧
       ∃ g, MatchmakingService.games second.2 !! u2 = Some g ∧
            player1 g = p1 ∧ player2 g = Some p2 ∧ status g = Active).
Proof.
  split.
  - intros ops w0 p uuid now now' Hempty. cbv zeta.
    generalize (runQueue_ok ops w0).
    generalize (MatchmakingService.runQueue ops w0). intros w Hok.
    specialize (Hok ltac:(rewrite Hempty; apply queueOk_nil)).
    split.
    + intros Hdiff.
      destruct (MatchmakingService.waitingPlayers w) as [|[k0 e0] rest] eqn:Hq.
      { destruct Hdiff as (k & e & Hin & _). by apply elem_of_nil in Hin. }
      pose proof Hok as (Hkeys & _ & _).
      assert (k0 = socketId (MatchmakingService.player e0)) as ->.
      { apply Hkeys. apply elem_of_cons. by left. }
      apply (head_decides _ _ _ _ _ Hok eq_refl) in Hdiff.
      exists e0, rest. split; [done|]. split; [done|].
      apply addPlayerToQueue_match; [by rewrite Hq | done | done].
    + intros Hnone. apply addPlayerToQueue_wait.
      intros k0 e0 rest Hq.
      destruct (decide (player_id (MatchmakingService.player e0) = player_id p))
        as [|Hne]; [done|].
      exfalso. apply Hnone. rewrite Hq in Hok |- *.
      by apply (head_decides _ _ _ _ _ Hok eq_refl).
  - intros w0 p1 p2 u1 u2 n1 n1' n2 n2' Hempty Hne. cbv zeta.
    destruct (addPlayerToQueue_wait p1 u1 n1 n1' w0) as (Hnull & _ & _).
    { intros k0 e0 rest Hq. congruence. }
    split; [done|].
    set (e1 := {| MatchmakingService.player := p1;
                  MatchmakingService.timeout :=
                    nextTimer (MatchmakingService.timers w0) |}).
    assert (MatchmakingService.waitingPlayers
              (MatchmakingService.addPlayerToQueue p1 u1 n1 n1' w0).2 =
            [(socketId (MatchmakingService.player e1), e1)]) as Hq.
    { unfold MatchmakingService.addPlayerToQueue,
        MatchmakingService.enqueueWaiting.
      rewrite Hempty. reflexivity. }
    assert (QueueFacts.queueOk
              (MatchmakingService.waitingPlayers
                 (MatchmakingService.addPlayerToQueue p1 u1 n1 n1' w0).2))
      as Hok.
    { apply addPlayerToQueue_ok. rewrite Hempty. apply queueOk_nil. }
    destruct (addPlayerToQueue_match p2 u2 n2 n2' _ e1 [] Hok Hq Hne)
      as (Hid & _ & Hrest & g & Hg & H1 & H2 & Hst & _).
    split_and!; [done | done |]. by exists g.
Qed.

(** alice waits on an idle service; bob is matched with her. *)
Lemma enqueue_matches_or_waits_witness :
  let first :=
    MatchmakingService.addPlayerToQueue Reach.alice "g1" 1 1 QueueFacts.idle in
  let second :=
    MatchmakingService.addPlayerToQueue Reach.bob "g2" 2 2 first.2 in
  first.1 = None ∧ second.1 = Some "g2" ∧
  MatchmakingService.waitingPlayers second.2 = [] ∧
  ∃ g, MatchmakingService.games second.2 !! "g2" = Some g ∧
       player1 g = Reach.alice ∧ player2 g = Some Reach.bob ∧
       status g = Active.
Proof.
  apply (proj2 enqueue_matches_or_waits QueueFacts.idle Reach.alice Reach.bob
           "g1" "g2" 1 1 2 2).
  - reflexivity.
  - vm_compute. discriminate.
Defined.

(** ** The make_move handler *)

(** C9, with the condition that the session is active added to its last
    clause.  In handleMakeMove the participant is found by comparing the
    connection handle with that of player1 only.  For every session with a
    player2 and any connection whose handle is not player1's, the handler
    takes player2 as the caller, does not answer 'Player not found in
    game', and calls makeMove with the id of player2: what it emits and the
    registry it leaves are those of that call.  When the session is
    active, currentTurn is player2 and the column is in range and has an
    empty cell, the move succeeds: a piece of player2 is placed and the
    move is broadcast. *)
Theorem handleMakeMove_takes_stranger_for_player2
    (games : gmap string GameState) (gid sock : string) (game : GameState)
    (p2 : Player) (column now : Z) :
  games !! gid = Some game →
  player2 game = Some p2 →
  sock ≠ socketId (player1 game) →
  GameHandler.resolvePlayer game sock = Some p2 ∧
  ∃ res games' emits,
    GameService.makeMove gid (player_id p2) column now games
      = Some (res, games') ∧
    GameHandler.handleMakeMove sock gid column now games
      = Some (emits, games') ∧
    (success res = false →
     emits = [GameHandler.EmitError sock (error res)] ∧ games' = games) ∧
    (success res = true →
     ∃ game', games' !! gid = Some game' ∧
              emits = [GameHandler.EmitMoveMade gid (position res)
                         (GameService.otherSide (currentTurn game'))
                         (board game')]) ∧
    (status game = Active → currentTurn game = Player2 →
     0 ≤ column < Config.cols →
     (∃ r0, 0 ≤ r0 < Config.rows ∧
            cellAt (board game) r0 column = Some EmptyCell) →
     success res = true ∧
     ∃ game' r, games' !! gid = Some game' ∧
                position res = Some {| row := r; col := column |} ∧
                cellAt (board game') r column = Some (Piece Player2)).
Proof.
  intros Hg Hp2 Hsock.
  assert (GameHandler.resolvePlayer game sock = Some p2) as Hres.
  { unfold GameHandler.resolvePlayer.
    by rewrite bool_decide_eq_false_2 by congruence. }
  split; [done|].
  destruct (makeMove_total gid (player_id p2) column now games)
    as (res & games' & Hmove).
  assert (success res = true → ∃ game', games' !! gid = Some game') as Hkept.
  { intros Hs.
    destruct (makeMove_inv _ _ _ _ _ _ _ Hmove)
      as [[Hfail _] | (game0 & p & r & won & _ & _ & _ & _ & _ & _ & _ & _ &
                       _ & Hout)]; [congruence|].
    cbv zeta in Hout.
    destruct won; [|destruct (GameService.isBoardFull _)];
      injection Hout as -> ->; rewrite lookup_insert_eq; by eexists. }
  exists res, games',
    (if success res
     then match games' !! gid with
          | Some game' =>
              [GameHandler.EmitMoveMade gid (position res)
                 (GameService.otherSide (currentTurn game')) (board game')]
          | None => []
          end
     else [GameHandler.EmitError sock (error res)]).
  split; [done|]. split.
  { unfold GameHandler.handleMakeMove, GameService.getGame.
    rewrite Hg, Hres, Hmove. cbn [mbind option_bind fst snd].
    by destruct (success res). }
  split_and!.
  - intros Hfail. rewrite Hfail. split; [done|].
    by eapply makeMove_failure_unchanged.
  - intros Hs. destruct (Hkept Hs) as [game' Hg'].
    exists game'. split; [done|]. by rewrite Hs, Hg'.
  - intros Hst Hturn Hcol Hroom.
    assert (GameService.currentPlayerOf game = Some p2) as Hcur.
    { unfold GameService.currentPlayerOf. by rewrite Hturn. }
    destruct (makeMove_succeeds gid column now games game p2 Hg Hst Hcur
                Hcol Hroom) as (res' & games'' & Hmove' & Hs).
    rewrite Hmove in Hmove'. injection Hmove' as <- <-.
    split; [done|].
    destruct (makeMove_inv _ _ _ _ _ _ _ Hmove)
      as [[Hfail _] | (game0 & p & r & won & Hg0 & _ & _ & _ & _ & _ & Hcell &
                       _ & _ & Hout)]; [congruence|].
    rewrite Hg in Hg0. injection Hg0 as <-.
    cbv zeta in Hout.
    assert (∃ game', games' = <[gid := game']> games ∧
                     board game' = setCell (board game) r column
                                     (Piece Player2) ∧
                     position res = Some {| row := r; col := column |})
      as (game' & -> & Hb & Hpos).
    { rewrite <- Hturn.
      destruct won; [|destruct (GameService.isBoardFull _)];
        injection Hout as -> ->; by eexists. }
    exists game', r. rewrite lookup_insert_eq. split_and!; [done | done |].
    rewrite Hb. by eapply cellAt_setCell_eq.
Qed.

(** A connection of neither participant moves for bob. *)
Lemma handleMakeMove_takes_stranger_for_player2_witness :
  ∃ res games' emits,
    GameService.makeMove "g1" "id-bob" 3 202
      (Registry.sessions (Reach.stateAfter HandlerExamples.bobToMove))
      = Some (res, games') ∧
    GameHandler.handleMakeMove "sock-x" "g1" 3 202
      (Registry.sessions (Reach.stateAfter HandlerExamples.bobToMove))
      = Some (emits, games') ∧
    success res = true.
Proof.
  destruct (handleMakeMove_takes_stranger_for_player2
              (Registry.sessions (Reach.stateAfter HandlerExamples.bobToMove))
              "g1" "sock-x"
              (Reach.sessionAfter HandlerExamples.bobToMove "g1"
                 Reach.freshSession)
              Reach.bob 3 202)
    as (_ & res & games' & emits & Hmove & Hhandle & _ & _ & Hsucc).
  - vm_compute. reflexivity.
  - reflexivity.
  - vm_compute. discriminate.
  - exists res, games', emits. split_and!; [exact Hmove | exact Hhandle |].
    apply Hsucc.
    + reflexivity.
    + reflexivity.
    + unfold Config.cols. lia.
    + exists 4. split; [unfold Config.rows; lia | reflexivity].
Defined.

(** C9 without that condition fails.  After alice has forfeited, the
    session has a player2, currentTurn is player2 and column 0 is empty; a
    move on column 0 from a connection of neither participant is taken for
    bob's and refused with 'Game is not active', the registry unchanged. *)
Lemma handleMakeMove_refuses_finished_session :
  ∃ game,
    Registry.sessions (Reach.stateAfter HandlerExamples.aliceGone) !! "g1"
      = Some game ∧
    player2 game = Some Reach.bob ∧
    "sock-x" ≠ socketId (player1 game) ∧
    status game = Forfeited ∧
    currentTurn game = Player2 ∧
    GameService.currentPlayerOf game = Some Reach.bob ∧
    cellAt (board game) 5 0 = Some EmptyCell ∧
    GameHandler.handleMakeMove "sock-x" "g1" 0 300
      (Registry.sessions (Reach.stateAfter HandlerExamples.aliceGone))
    = Some ([GameHandler.EmitError "sock-x" (Some "Game is not active")],
            Registry.sessions (Reach.stateAfter HandlerExamples.aliceGone)).
Proof.
  exists (Reach.sessionAfter HandlerExamples.aliceGone "g1" Reach.freshSession).
  split_and!; try (vm_compute; reflexivity).
  vm_compute. discriminate.
Qed.

(** ** Piece counts *)

Section PieceCounts.

Import GameService Outcomes Registry Invariants Reach Tally.

Lemma count_insert (P : CellValue → Prop) `{!∀ v, Decision (P v)}
    (l : list CellValue) (i : nat) (old new : CellValue) :
  l !! i = Some old →
  (length (filter P (<[i := new]> l)) + (if decide (P old) then 1 else 0)
   = length (filter P l) + (if decide (P new) then 1 else 0))%nat.
Proof.
  intros Hi. pose proof (lookup_lt_Some _ _ _ Hi) as Hlt.
  rewrite insert_take_drop by done.
  rewrite <- (take_drop_middle l i old Hi) at 3.
  rewrite !filter_app, !filter_cons, !length_app.
  destruct (decide (P old)), (decide (P new)); simpl; lia.
Qed.

Lemma count_concat_insert (P : CellValue → Prop) `{!∀ v, Decision (P v)}
    (b : Board) (i : nat) (line line' : list CellValue) :
  b !! i = Some line →
  (length (filter P (concat (<[i := line']> b))) + length (filter P line)
   = length (filter P (concat b)) + length (filter P line'))%nat.
Proof.
  intros Hi. pose proof (lookup_lt_Some _ _ _ Hi) as Hlt.
  rewrite insert_take_drop by done.
  rewrite <- (take_drop_middle b i line Hi) at 3.
  rewrite !concat_app, !concat_cons, !filter_app, !length_app. lia.
Qed.

(** Writing a piece on an empty cell adds one to the count of its side and
    leaves the other count alone. *)
Lemma countPieces_setCell b r c s s' :
  cellAt b r c = Some EmptyCell →
  countPieces s (setCell b r c (Piece s')) =
  (countPieces s b + if bool_decide (s = s') then 1 else 0)%nat.
Proof.
  intros (Hr & Hc & line & Hline & Hv)%cellAt_Some.
  unfold countPieces, setCell.
  rewrite bool_decide_eq_true_2, Hline by done.
  pose proof (count_concat_insert (λ v, v = Piece s) b (Z.to_nat r) line
                (<[Z.to_nat c := Piece s']> line) Hline) as Hb.
  pose proof (count_insert (λ v, v = Piece s) line (Z.to_nat c) EmptyCell
                (Piece s') Hv) as Hl.
  simpl in Hl.
  destruct (decide (EmptyCell = Piece s)); [done|].
  case_bool_decide as Hs.
  - subst s'. rewrite decide_True in Hl by done. lia.
  - rewrite decide_False in Hl by congruence. lia.
Qed.

Lemma countPieces_emptyBoard s : countPieces s emptyBoard = 0%nat.
Proof. reflexivity. Qed.

Lemma grid_cells b : is_grid b = true → length (concat b) = 42%nat.
Proof.
  intros [Hlen Hall]%is_grid_spec.
  assert (∀ (l : Board), (∀ i line, l !! i = Some line → length line = 7%nat) →
                         length (concat l) = (7 * length l)%nat) as Hgen.
  { induction l as [|line l IH]; intros Hl; [done|].
    rewrite concat_cons, length_app, (Hl 0%nat line eq_refl).
    rewrite IH; [simpl; lia|]. intros i line' Hi. by apply (Hl (S i)). }
  rewrite (Hgen b Hall), Hlen. done.
Qed.

Lemma counts_le_cells (l : list CellValue) :
  (length (filter (λ v, v = Piece Player1) l) +
   length (filter (λ v, v = Piece Player2) l) +
   length (filter (λ v, v = EmptyCell) l) = length l)%nat.
Proof.
  induction l as [|v l IH]; [done|].
  rewrite !filter_cons. destruct v as [|[|]]; simpl;
    repeat (case_decide; try done); simpl; lia.
Qed.

End PieceCounts.

(** ** Soundness of the registry *)

Section RegistrySound.

Import GameService Outcomes Registry Invariants Reach Tally.

Lemma sessionSound_same_core gid g g' :
  game_id g' = game_id g → board g' = board g → status g' = status g →
  currentTurn g' = currentTurn g → player2 g' = player2 g →
  sessionSound gid g → sessionSound gid g'.
Proof.
  intros Hid Hb Hs Ht H2 (Hgid & Hp2 & Hw & Hfull & Hbal).
  unfold sessionSound, balanced in *. by rewrite Hid, Hb, Hs, Ht, H2.
Qed.

Lemma createGame_sound uuid now now' p1 (games : gmap string GameState) :
  registrySound games → registrySound (createGame uuid now now' p1 games).2.
Proof.
  intros Hok. apply map_Forall_insert_2; [|done].
  split_and!; try done. by left.
Qed.

Lemma joinGame_sound gid p2 (games : gmap string GameState) :
  registrySound games → registrySound (joinGame gid p2 games).2.
Proof.
  intros Hok. unfold joinGame.
  destruct (games !! gid) as [game|] eqn:Hg; [|done].
  case_bool_decide as Hp2; [done|]. case_bool_decide as Hst; [done|]. simpl.
  apply map_Forall_insert_2; [|done].
  destruct (Hok _ _ Hg) as (Hgid & Hi & Hw & Hfull & Hbal).
  unfold sessionSound, balanced in *. simpl. rewrite Hst in Hbal.
  split_and!; try done.
  intros _. apply Hfull. by rewrite Hst.
Qed.

Lemma makeMove_sound gid pid column now
    (games games' : gmap string GameState) res :
  makeMove gid pid column now games = Some (res, games') →
  registrySound games → registrySound games'.
Proof.
  intros Hmove Hok.
  destruct (makeMove_inv _ _ _ _ _ _ _ Hmove)
    as [[_ ->] | (game & p & r & won & Hg & Hst & Hp & Hpid & Hcol & Hr &
                   Hcell & Hbelow & Hwon & Hres)]; [done|].
  destruct (Hok _ _ Hg) as (Hgid & Hi & Hw & Hfull & Hbal).
  unfold balanced in Hbal. rewrite Hst in Hbal. cbv zeta in Hbal.
  pose proof (countPieces_setCell (board game) r column Player1
                (currentTurn game) Hcell) as H1.
  pose proof (countPieces_setCell (board game) r column Player2
                (currentTurn game) Hcell) as H2.
  assert (player2 game ≠ None) as Hsome.
  { intros Hn. apply Hi in Hn. congruence. }
  cbv zeta in Hres.
  destruct won; [|destruct (isBoardFull _) eqn:Hbf];
    injection Hres as -> ->; (apply map_Forall_insert_2; [|done]);
    unfold sessionSound, balanced; simpl;
    (split_and!; try done; try (split; [done | congruence]));
    rewrite H1, H2;
    destruct Hbal as [[-> Hn] | [-> Hn]]; simpl; lia || (by left; lia) ||
                                                  (by right; lia) || idtac.
  all: try (left; split; [done | lia]); try (right; split; [done | lia]).
Qed.

Lemma forfeitGame_sound gid pid (games : gmap string GameState) :
  registrySound games → registrySound (forfeitGame gid pid games).
Proof.
  intros Hok. unfold forfeitGame.
  destruct (games !! gid) as [game|] eqn:Hg; [|done].
  case_bool_decide as Hst; [|done].
  apply map_Forall_insert_2; [|done].
  destruct (Hok _ _ Hg) as (Hgid & Hi & Hw & Hfull & Hbal).
  unfold sessionSound, balanced in *. simpl. rewrite Hst in *.
  split_and!; try done.
  - split; [|done]. intros Hn. apply Hi in Hn. congruence.
  - intros _. by apply Hfull.
  - destruct Hbal as [[_ Hn] | [_ Hn]]; [by left | by right].
Qed.

Lemma setDisconnected_sound gid pid (games : gmap string GameState) :
  registrySound games → registrySound (setDisconnected gid pid games).
Proof.
  intros Hok. unfold setDisconnected.
  destruct (games !! gid) as [game|] eqn:Hg; [|done].
  apply map_Forall_insert_2; [|done].
  by eapply sessionSound_same_core; [..|by apply (Hok _ _ Hg)].
Qed.

Lemma clearDisconnected_sound gid (games : gmap string GameState) ts :
  registrySound games → registrySound (clearDisconnected gid games ts).1.
Proof.
  intros Hok. unfold clearDisconnected.
  destruct (games !! gid) as [game|] eqn:Hg; [|done].
  apply map_Forall_insert_2; [|done].
  by eapply sessionSound_same_core; [..|by apply (Hok _ _ Hg)].
Qed.

Lemma applyOp_sound op st out st' :
  applyOp op st = Some (out, st') →
  registrySound (sessions st) → registrySound (sessions st').
Proof.
  destruct op as [uuid now now' p1 | gid p2 | gid pid column now | gid pid
                 | gid pid | gid]; simpl.
  - intros [= _ <-]. simpl. apply createGame_sound.
  - intros [= _ <-]. simpl. apply joinGame_sound.
  - destruct (makeMove gid pid column now (sessions st)) as [[res games']|]
      eqn:Hmove; [|done].
    intros [= _ <-]. simpl. by eapply makeMove_sound.
  - intros [= _ <-]. simpl. apply forfeitGame_sound.
  - intros [= _ <-]. simpl. apply setDisconnected_sound.
  - intros [= _ <-]. simpl. apply clearDisconnected_sound.
Qed.

Lemma run_sound ops st outs st' :
  run ops st = Some (outs, st') →
  registrySound (sessions st) → registrySound (sessions st').
Proof.
  revert st outs. induction ops as [|op ops IH]; intros st outs; simpl.
  - by intros [= _ <-].
  - destruct (applyOp op st) as [[out st1]|] eqn:Hop; [|done].
    cbn [mbind option_bind]. simpl.
    destruct (run ops st1) as [[outs1 st2]|] eqn:Hrun; [|done].
    intros [= _ <-]. simpl. intros Hok.
    eapply IH; [done|]. by eapply applyOp_sound.
Qed.

Lemma reachable_sound st : reachable st → registrySound (sessions st).
Proof.
  intros (ops & outs & _ & Hrun). eapply run_sound; [done|].
  apply map_Forall_empty.
Qed.

End RegistrySound.

(** ** How a session evolves *)

Section Evolution.

Import GameService Outcomes Registry Invariants Reach Tally.

Lemma evolves_refl g : evolves g g.
Proof. by split_and!. Qed.

Lemma evolves_trans g1 g2 g3 : evolves g1 g2 → evolves g2 g3 → evolves g1 g3.
Proof.
  intros (Hid & Hp1 & Hc & Hp2 & Hcells & Hterm)
         (Hid' & Hp1' & Hc' & Hp2' & Hcells' & Hterm').
  split_and!; [congruence | congruence | congruence | eauto | eauto |].
  intros Hst. destruct (Hterm Hst) as (Hb & Ht & Hs & Hw & Hl & H2).
  destruct Hterm' as (Hb' & Ht' & Hs' & Hw' & Hl' & H2');
    [by rewrite Hs|].
  split_and!; congruence.
Qed.

Lemma evolves_same_core g g' :
  game_id g' = game_id g → board g' = board g → player1 g' = player1 g →
  player2 g' = player2 g → currentTurn g' = currentTurn g →
  status g' = status g → winner g' = winner g →
  createdAt g' = createdAt g → lastMoveAt g' = lastMoveAt g →
  evolves g g'.
Proof.
  intros Hid Hb H1 H2 Ht Hs Hw Hc Hl.
  split_and!; try done; [by intros p; rewrite H2 | by intros r c s; rewrite Hb].
Qed.

(** One operation lets every registered session evolve. *)
Lemma applyOp_evolves op st out st' gid g :
  freshFor op st = true →
  applyOp op st = Some (out, st') →
  sessions st !! gid = Some g →
  ∃ g', sessions st' !! gid = Some g' ∧ evolves g g'.
Proof.
  intros Hfresh Hop Hg.
  destruct op as [uuid now now' p1 | gameId p2 | gameId pid column now
                 | gameId pid | gameId pid | gameId]; simpl in Hop.
  - injection Hop as <- <-. simpl. apply bool_decide_eq_true_1 in Hfresh.
    exists g. rewrite lookup_insert_ne by congruence.
    split; [done | apply evolves_refl].
  - injection Hop as <- <-. simpl. unfold joinGame.
    destruct (sessions st !! gameId) as [game|] eqn:Hgame; simpl;
      [|by exists g; split; [|apply evolves_refl]].
    case_bool_decide as Hp2; simpl;
      [by exists g; split; [|apply evolves_refl]|].
    case_bool_decide as Hst; simpl;
      [by exists g; split; [|apply evolves_refl]|].
    destruct (decide (gameId = gid)) as [->|Hne].
    + rewrite Hg in Hgame. injection Hgame as <-.
      rewrite lookup_insert_eq. eexists. split; [done|].
      split_and!; try done; simpl.
      * intros p Hp. destruct Hp2. by exists p.
      * intros [?|?]; congruence.
    + rewrite lookup_insert_ne by done.
      by exists g; split; [|apply evolves_refl].
  - destruct (makeMove gameId pid column now (sessions st))
      as [[res games']|] eqn:Hmove; [|done].
    injection Hop as <- <-. simpl.
    destruct (makeMove_inv _ _ _ _ _ _ _ Hmove)
      as [[_ ->] | (game & p & r & won & Hgame & Hst & _ & _ & _ & _ & Hcell &
                    _ & _ & Hres)];
      [by exists g; split; [|apply evolves_refl]|].
    cbv zeta in Hres.
    destruct (decide (gameId = gid)) as [->|Hne].
    + rewrite Hg in Hgame. injection Hgame as <-.
      assert (∃ g', games' = <[gid := g']> (sessions st) ∧
                    game_id g' = game_id g ∧ player1 g' = player1 g ∧
                    player2 g' = player2 g ∧ createdAt g' = createdAt g ∧
                    board g' = setCell (board g) r column
                                 (Piece (currentTurn g)))
        as (g' & -> & Hid & H1 & H2 & Hc & Hb).
      { destruct won; [|destruct (isBoardFull _)];
          injection Hres as -> ->; by eexists. }
      exists g'. rewrite lookup_insert_eq. split; [done|].
      split_and!; try done.
      * intros p' Hp'. by rewrite H2.
      * intros r' c' s Hpiece. rewrite Hb.
        rewrite cellAt_setCell_ne; [done|]. intros [= -> ->]. congruence.
      * intros [?|?]; congruence.
    + assert (games' !! gid = Some g) as Hsame.
      { destruct won; [|destruct (isBoardFull _)];
          injection Hres as -> ->; by rewrite lookup_insert_ne. }
      by exists g; split; [|apply evolves_refl].
  - injection Hop as <- <-. simpl. unfold forfeitGame.
    destruct (sessions st !! gameId) as [game|] eqn:Hgame;
      [|by exists g; split; [|apply evolves_refl]].
    case_bool_decide as Hst; [|by exists g; split; [|apply evolves_refl]].
    destruct (decide (gameId = gid)) as [->|Hne].
    + rewrite Hg in Hgame. injection Hgame as <-.
      rewrite lookup_insert_eq. eexists. split; [done|].
      split_and!; try done. intros [?|?]; congruence.
    + rewrite lookup_insert_ne by done.
      by exists g; split; [|apply evolves_refl].
  - injection Hop as <- <-. simpl. unfold setDisconnected.
    destruct (sessions st !! gameId) as [game|] eqn:Hgame;
      [|by exists g; split; [|apply evolves_refl]].
    destruct (decide (gameId = gid)) as [->|Hne].
    + rewrite Hg in Hgame. injection Hgame as <-.
      rewrite lookup_insert_eq. eexists. split; [done|].
      by apply evolves_same_core.
    + rewrite lookup_insert_ne by done.
      by exists g; split; [|apply evolves_refl].
  - injection Hop as <- <-. simpl. unfold clearDisconnected.
    destruct (sessions st !! gameId) as [game|] eqn:Hgame;
      [|by exists g; split; [|apply evolves_refl]].
    destruct (decide (gameId = gid)) as [->|Hne].
    + rewrite Hg in Hgame. injection Hgame as <-. simpl.
      rewrite lookup_insert_eq. eexists. split; [done|].
      by apply evolves_same_core.
    + simpl. rewrite lookup_insert_ne by done.
      by exists g; split; [|apply evolves_refl].
Qed.

Lemma run_evolves ops st outs st' gid g :
  freshIds ops st = true →
  run ops st = Some (outs, st') →
  sessions st !! gid = Some g →
  ∃ g', sessions st' !! gid = Some g' ∧ evolves g g'.
Proof.
  revert st outs g. induction ops as [|op ops IH]; intros st outs g; simpl.
  - intros _ [= _ <-] Hg. exists g. split; [done | apply evolves_refl].
  - intros [Hfresh Hrest]%andb_true_iff.
    destruct (applyOp op st) as [[out st1]|] eqn:Hop; [|done].
    cbn [mbind option_bind]. simpl in *.
    destruct (run ops st1) as [[outs1 st2]|] eqn:Hrun; [|done].
    intros [= _ <-] Hg. simpl.
    destruct (applyOp_evolves op st out st1 gid g Hfresh Hop Hg)
      as (g1 & Hg1 & Hstep).
    destruct (IH st1 outs1 g1 Hrest Hrun Hg1) as (g2 & Hg2 & Hrest').
    exists g2. split; [done | by eapply evolves_trans].
Qed.

(** The pieces on the board are the accepted moves. *)
Lemma applyOp_pieces op st out st' gid :
  freshFor op st = true →
  applyOp op st = Some (out, st') →
  let pieces := λ g, (countPieces Player1 (board g) +
                      countPieces Player2 (board g))%nat in
  match sessions st !! gid with
  | Some g =>
      ∃ g', sessions st' !! gid = Some g' ∧
            pieces g' = (pieces g + moved_by gid op out)%nat
  | None =>
      moved_by gid op out = 0%nat ∧
      ∀ g', sessions st' !! gid = Some g' → pieces g' = 0%nat
  end.
Proof.
  intros Hfresh Hop pieces.
  destruct op as [uuid now now' p1 | gameId p2 | gameId pid column now
                 | gameId pid | gameId pid | gameId]; simpl in Hop.
  - injection Hop as <- <-. simpl. apply bool_decide_eq_true_1 in Hfresh.
    destruct (decide (uuid = gid)) as [->|Hne].
    + rewrite Hfresh, lookup_insert_eq. split; [done|]. by intros g' [= <-].
    + rewrite lookup_insert_ne by done.
      destruct (sessions st !! gid) as [g|] eqn:Hg; [|done].
      exists g. split; [done | simpl; lia].
  - injection Hop as <- <-. simpl. unfold joinGame.
    destruct (sessions st !! gameId) as [game|] eqn:Hgame; simpl.
    2: { destruct (sessions st !! gid) as [g|]; [|done].
         exists g. split; [done | lia]. }
    destruct (_ || _); simpl.
    { destruct (sessions st !! gid) as [g|]; [|done].
      exists g. split; [done | lia]. }
    destruct (decide (gameId = gid)) as [->|Hne].
    + rewrite Hgame, lookup_insert_eq. eexists. split; [done|].
      unfold pieces. simpl. lia.
    + rewrite lookup_insert_ne by done.
      destruct (sessions st !! gid) as [g|]; [|done].
      exists g. split; [done | lia].
  - destruct (makeMove gameId pid column now (sessions st))
      as [[res games']|] eqn:Hmove; [|done].
    injection Hop as <- <-. simpl.
    destruct (makeMove_inv _ _ _ _ _ _ _ Hmove)
      as [[Hfail ->] | (game & p & r & won & Hgame & _ & _ & _ & _ & _ &
                        Hcell & _ & _ & Hres)].
    { rewrite Hfail, andb_false_r.
      destruct (sessions st !! gid) as [g|]; [|done].
      exists g. split; [done | lia]. }
    cbv zeta in Hres.
    assert (success res = true ∧
            ∃ g', games' = <[gameId := g']> (sessions st) ∧
                  board g' = setCell (board game) r column
                               (Piece (currentTurn game)))
      as (Hsucc & g' & -> & Hb).
    { destruct won; [injection Hres as -> ->; split; [done | by eexists]|].
      destruct (isBoardFull _);
        injection Hres as -> ->; (split; [done | by eexists]). }
    rewrite Hsucc, andb_true_r.
    destruct (decide (gameId = gid)) as [->|Hne].
    + rewrite Hgame, lookup_insert_eq, bool_decide_eq_true_2 by done.
      eexists. split; [done|]. unfold pieces. rewrite Hb.
      rewrite !(countPieces_setCell _ _ _ _ _ Hcell).
      destruct (currentTurn game); simpl; lia.
    + rewrite lookup_insert_ne, bool_decide_eq_false_2 by done.
      destruct (sessions st !! gid) as [g|]; [|done].
      exists g. split; [done | lia].
  - injection Hop as <- <-. simpl. unfold forfeitGame.
    destruct (sessions st !! gameId) as [game|] eqn:Hgame; simpl.
    2: { destruct (sessions st !! gid) as [g|]; [|done].
         exists g. split; [done | lia]. }
    case_bool_decide.
    2: { destruct (sessions st !! gid) as [g|]; [|done].
         exists g. split; [done | lia]. }
    destruct (decide (gameId = gid)) as [->|Hne].
    + rewrite Hgame, lookup_insert_eq. eexists. split; [done|].
      unfold pieces. simpl. lia.
    + rewrite lookup_insert_ne by done.
      destruct (sessions st !! gid) as [g|]; [|done].
      exists g. split; [done | lia].
  - injection Hop as <- <-. simpl. unfold setDisconnected.
    destruct (sessions st !! gameId) as [game|] eqn:Hgame; simpl.
    2: { destruct (sessions st !! gid) as [g|]; [|done].
         exists g. split; [done | lia]. }
    destruct (decide (gameId = gid)) as [->|Hne].
    + rewrite Hgame, lookup_insert_eq. eexists. split; [done|].
      unfold pieces. simpl. lia.
    + rewrite lookup_insert_ne by done.
      destruct (sessions st !! gid) as [g|]; [|done].
      exists g. split; [done | lia].
  - injection Hop as <- <-. simpl. unfold clearDisconnected.
    destruct (sessions st !! gameId) as [game|] eqn:Hgame; simpl.
    2: { destruct (sessions st !! gid) as [g|]; [|done].
         exists g. split; [done | lia]. }
    destruct (decide (gameId = gid)) as [->|Hne].
    + rewrite Hgame, lookup_insert_eq. eexists. split; [done|].
      unfold pieces. simpl. lia.
    + rewrite lookup_insert_ne by done.
      destruct (sessions st !! gid) as [g|]; [|done].
      exists g. split; [done | lia].
Qed.

Lemma run_pieces ops st outs st' gid :
  freshIds ops st = true →
  run ops st = Some (outs, st') →
  let pieces := λ g, (countPieces Player1 (board g) +
                      countPieces Player2 (board g))%nat in
  match sessions st !! gid with
  | Some g =>
      ∃ g', sessions st' !! gid = Some g' ∧
            pieces g' = (pieces g + accepted gid ops st)%nat
  | None =>
      ∀ g', sessions st' !! gid = Some g' → pieces g' = accepted gid ops st
  end.
Proof.
  intros Hfresh Hrun pieces. revert st outs Hfresh Hrun.
  induction ops as [|op ops IH]; intros st outs; simpl.
  - intros _ [= _ <-].
    destruct (sessions st !! gid) as [g|] eqn:Hg;
      [eexists; split; [done | lia] | done].
  - intros [Hfresh Hrest]%andb_true_iff.
    destruct (applyOp op st) as [[out st1]|] eqn:Hop; [|done].
    cbn [mbind option_bind]. simpl in *.
    destruct (run ops st1) as [[outs1 st2]|] eqn:Hrun; [|done].
    intros [= _ <-]. simpl.
    pose proof (applyOp_pieces op st out st1 gid Hfresh Hop) as Hstep.
    cbv zeta in Hstep. fold pieces in Hstep.
    specialize (IH st1 outs1 Hrest Hrun).
    destruct (sessions st !! gid) as [g|].
    + destruct Hstep as (g1 & Hg1 & Hn1). rewrite Hg1 in IH.
      destruct IH as (g2 & Hg2 & Hn2). exists g2. split; [done | lia].
    + destruct Hstep as [-> Hzero].
      destruct (sessions st1 !! gid) as [g1|].
      * destruct IH as (g2 & Hg2 & Hn2). intros g' Hg'.
        rewrite Hg2 in Hg'. injection Hg' as <-.
        rewrite Hn2, (Hzero g1 eq_refl). lia.
      * intros g' Hg'. by rewrite (IH g' Hg').
Qed.

End Evolution.

(** ** Properties of registered sessions *)

Section SessionProperties.

Import GameService Outcomes Registry Invariants Reach Tally.

Lemma no_empty_cell_full b :
  is_grid b = true →
  length (filter (λ v, v = EmptyCell) (concat b)) = 0%nat →
  isBoardFull b = true.
Proof.
  intros Hgrid Hnone. apply isBoardFull_top; [done|].
  intros c Hc (_ & _ & line & Hline & Hv)%cellAt_Some.
  apply length_zero_iff_nil in Hnone.
  assert (EmptyCell ∈ filter (λ v, v = EmptyCell) (concat b)) as Hin.
  { apply list_elem_of_filter. split; [done|].
    apply list_elem_of_In, in_concat. exists line. split.
    - apply list_elem_of_In. by eapply list_elem_of_lookup_2.
    - apply list_elem_of_In. by eapply list_elem_of_lookup_2. }
  rewrite Hnone in Hin. by apply elem_of_nil in Hin.
Qed.

Lemma open_top_cell b :
  is_grid b = true → isBoardFull b = false →
  ∃ c, 0 ≤ c < Config.cols ∧ cellAt b 0 c = Some EmptyCell.
Proof.
  intros Hgrid Hopen.
  destruct (decide (cellAt b 0 0 = Some EmptyCell)); [exists 0; by split|].
  destruct (decide (cellAt b 0 1 = Some EmptyCell)); [exists 1; by split|].
  destruct (decide (cellAt b 0 2 = Some EmptyCell)); [exists 2; by split|].
  destruct (decide (cellAt b 0 3 = Some EmptyCell)); [exists 3; by split|].
  destruct (decide (cellAt b 0 4 = Some EmptyCell)); [exists 4; by split|].
  destruct (decide (cellAt b 0 5 = Some EmptyCell)); [exists 5; by split|].
  destruct (decide (cellAt b 0 6 = Some EmptyCell)); [exists 6; by split|].
  exfalso. assert (isBoardFull b = true) as Hfull; [|congruence].
  apply isBoardFull_top; [done|]. intros c Hc. unfold Config.cols in Hc.
  assert (c = 0 ∨ c = 1 ∨ c = 2 ∨ c = 3 ∨ c = 4 ∨ c = 5 ∨ c = 6)
    as [->|[->|[->|[->|[->|[->| ->]]]]]] by lia; done.
Qed.

Lemma accepted_absent ops st outs st' gid :
  freshIds ops st = true →
  run ops st = Some (outs, st') →
  sessions st' !! gid = None →
  accepted gid ops st = 0%nat.
Proof.
  revert st outs. induction ops as [|op ops IH]; intros st outs; simpl;
    [done|].
  intros [Hfresh Hrest]%andb_true_iff.
  destruct (applyOp op st) as [[out st1]|] eqn:Hop; [|done].
  cbn [mbind option_bind]. simpl in *.
  destruct (run ops st1) as [[outs1 st2]|] eqn:Hrun; [|done].
  intros [= _ <-] Hnone. simpl in Hnone.
  rewrite (IH st1 outs1 Hrest Hrun Hnone).
  pose proof (applyOp_pieces op st out st1 gid Hfresh Hop) as Hstep.
  cbv zeta in Hstep.
  destruct (sessions st !! gid) as [g|] eqn:Hg.
  - destruct (applyOp_evolves op st out st1 gid g Hfresh Hop Hg)
      as (g1 & Hg1 & _).
    destruct (run_evolves ops st1 outs1 st2 gid g1 Hrest Hrun Hg1)
      as (g2 & Hg2 & _).
    congruence.
  - destruct Hstep as [-> _]. done.
Qed.

End SessionProperties.

(** X1.  In every reachable registry a session is stored under its own id
    and lacks its second participant exactly while it is waiting; a waiting
    session has the empty board with player1 to move; and in every session
    that is no longer waiting the participant on turn exists. *)
Theorem second_participant_absent_only_while_waiting
    (st : Registry.State) (gid : string) (g : GameState) :
  Reach.reachable st →
  Registry.sessions st !! gid = Some g →
  game_id g = gid ∧
  (player2 g = None ↔ status g = Waiting) ∧
  (status g = Waiting →
   board g = GameService.emptyBoard ∧ currentTurn g = Player1) ∧
  (status g ≠ Waiting → ∃ p, GameService.currentPlayerOf g = Some p).
Proof.
  intros Hreach Hg.
  destruct (reachable_sound st Hreach _ _ Hg) as (Hid & Hp2 & Hw & _ & Hbal).
  split_and!; [done | done | |].
  - intros Hst. split; [by apply Hw|].
    pose proof (Hw Hst) as Hb.
    unfold Tally.balanced in Hbal. cbv zeta in Hbal.
    rewrite Hst in Hbal. rewrite Hb in Hbal.
    by destruct Hbal as [[? _] | [_ ?]].
  - intros Hst. unfold GameService.currentPlayerOf.
    destruct (currentTurn g); [by eexists|].
    destruct (player2 g) as [p|] eqn:H2; [by eexists|].
    destruct Hst. by apply Hp2.
Qed.

Lemma second_participant_absent_only_while_waiting_witness :
  status (Reach.sessionAfter Reach.openingOps "g1" Reach.freshSession)
    ≠ Waiting ∧
  ∃ p, GameService.currentPlayerOf
         (Reach.sessionAfter Reach.openingOps "g1" Reach.freshSession)
       = Some p.
Proof.
  split; [vm_compute; discriminate|].
  apply (second_participant_absent_only_while_waiting
           (Reach.stateAfter Reach.openingOps) "g1").
  - exists Reach.openingOps. eexists. split; vm_compute; reflexivity.
  - vm_compute. reflexivity.
  - vm_compute. discriminate.
Defined.

(** X2.  Player1 moves first and the sides alternate: in every session of
    a registry reached by a run of registry operations, player1 has as many
    pieces on the board as player2 or one more; while the session is
    running, equal counts mean that player1 is on turn and one more that
    player2 is; and the pieces on the board number as many as the moves
    the run has accepted on that session. *)
Theorem side_on_turn_follows_piece_counts
    (ops : list Registry.RegOp) (outs : list Registry.Outcome)
    (st : Registry.State) (gid : string) (g : GameState) :
  Registry.freshIds ops Registry.initial = true →
  Registry.run ops Registry.initial = Some (outs, st) →
  Registry.sessions st !! gid = Some g →
  let n1 := Tally.countPieces Player1 (board g) in
  let n2 := Tally.countPieces Player2 (board g) in
  (n1 = n2 ∨ n1 = S n2) ∧
  (status g = Waiting ∨ status g = Active →
   (currentTurn g = Player1 ↔ n1 = n2) ∧
   (currentTurn g = Player2 ↔ n1 = S n2)) ∧
  (n1 + n2 = Tally.accepted gid ops Registry.initial)%nat.
Proof.
  intros Hfresh Hrun Hg n1 n2.
  assert (Reach.reachable st) as Hreach by (by exists ops, outs).
  destruct (reachable_sound st Hreach _ _ Hg) as (_ & _ & _ & _ & Hbal).
  unfold Tally.balanced in Hbal. cbv zeta in Hbal. fold n1 n2 in Hbal.
  split_and!.
  - destruct (status g); destruct Hbal as [H|H]; try tauto;
      destruct H as [_ H]; tauto.
  - intros Hst.
    assert ((currentTurn g = Player1 ∧ n1 = n2) ∨
            (currentTurn g = Player2 ∧ n1 = S n2)) as Hrun'.
    { destruct Hst as [Hs | Hs]; by rewrite Hs in Hbal. }
    destruct Hrun' as [[Ht Hn] | [Ht Hn]]; rewrite Ht, Hn;
      split; split; (done || lia || congruence).
  - pose proof (run_pieces ops Registry.initial outs st gid Hfresh Hrun)
      as Hpieces.
    simpl in Hpieces. rewrite lookup_empty in Hpieces. by apply Hpieces.
Qed.

Lemma side_on_turn_follows_piece_counts_witness :
  (Tally.countPieces Player1
     (board (Reach.sessionAfter FullColumn.sixInColumn0 "g1"
               Reach.freshSession))
   + Tally.countPieces Player2
       (board (Reach.sessionAfter FullColumn.sixInColumn0 "g1"
                 Reach.freshSession))
   = Tally.accepted "g1" FullColumn.sixInColumn0 Registry.initial)%nat.
Proof.
  apply (side_on_turn_follows_piece_counts FullColumn.sixInColumn0
           (default [] (fst <$> Registry.run FullColumn.sixInColumn0
                                  Registry.initial))
           (Reach.stateAfter FullColumn.sixInColumn0) "g1").
  - vm_compute. reflexivity.
  - vm_compute. reflexivity.
  - vm_compute. reflexivity.
Defined.

(** X3.  A session accepts at most 42 moves, and once it has accepted 42
    it is completed. *)
Theorem at_most_42_accepted_moves
    (ops : list Registry.RegOp) (outs : list Registry.Outcome)
    (st : Registry.State) (gid : string) :
  Registry.freshIds ops Registry.initial = true →
  Registry.run ops Registry.initial = Some (outs, st) →
  (Tally.accepted gid ops Registry.initial ≤ 42)%nat ∧
  (Tally.accepted gid ops Registry.initial = 42%nat →
   ∃ g, Registry.sessions st !! gid = Some g ∧ status g = Completed).
Proof.
  intros Hfresh Hrun.
  assert (Reach.reachable st) as Hreach by (by exists ops, outs).
  destruct (Registry.sessions st !! gid) as [g|] eqn:Hg.
  2: { rewrite (accepted_absent _ _ _ _ _ Hfresh Hrun Hg). split; [lia|done]. }
  pose proof (run_pieces ops Registry.initial outs st gid Hfresh Hrun)
    as Hpieces.
  simpl in Hpieces. rewrite lookup_empty in Hpieces.
  specialize (Hpieces g Hg).
  destruct (reachable_ok st Hreach _ _ Hg) as (Hgrid & _ & _).
  destruct (reachable_sound st Hreach _ _ Hg) as (_ & _ & _ & Hopen & _).
  pose proof (counts_le_cells (concat (board g))) as Hsum.
  rewrite (grid_cells _ Hgrid) in Hsum.
  unfold Tally.countPieces in Hpieces.
  split; [lia|]. intros H42. exists g. split; [done|].
  destruct (decide (status g = Completed)) as [|Hne]; [done|].
  rewrite no_empty_cell_full in Hopen; [by discriminate (Hopen Hne) | done |].
  lia.
Qed.

Lemma at_most_42_accepted_moves_witness :
  (Tally.accepted "g1" FullColumn.sixInColumn0 Registry.initial ≤ 42)%nat.
Proof.
  apply (at_most_42_accepted_moves FullColumn.sixInColumn0
           (default [] (fst <$> Registry.run FullColumn.sixInColumn0
                                  Registry.initial))
           (Reach.stateAfter FullColumn.sixInColumn0) "g1").
  - vm_compute. reflexivity.
  - vm_compute. reflexivity.
Defined.

(** X4.  In every reachable registry an active session still has a column
    with an empty top cell, and the participant on turn exists: a move of
    that participant into that column is accepted. *)
Theorem active_session_has_an_accepted_move
    (st : Registry.State) (gid : string) (g : GameState) (now : Z) :
  Reach.reachable st →
  Registry.sessions st !! gid = Some g →
  status g = Active →
  ∃ p column res games',
    GameService.currentPlayerOf g = Some p ∧
    0 ≤ column < Config.cols ∧
    cellAt (board g) 0 column = Some EmptyCell ∧
    GameService.makeMove gid (player_id p) column now (Registry.sessions st)
      = Some (res, games') ∧
    success res = true.
Proof.
  intros Hreach Hg Hst.
  destruct (reachable_ok st Hreach _ _ Hg) as (Hgrid & _ & _).
  destruct (reachable_sound st Hreach _ _ Hg) as (_ & Hp2 & _ & Hopen & _).
  destruct (open_top_cell _ Hgrid (Hopen ltac:(congruence)))
    as (column & Hc & Htop).
  assert (∃ p, GameService.currentPlayerOf g = Some p) as [p Hp].
  { unfold GameService.currentPlayerOf.
    destruct (currentTurn g); [by eexists|].
    destruct (player2 g) as [p|] eqn:H2; [by eexists|].
    assert (status g = Waiting) by (by apply Hp2). congruence. }
  destruct (makeMove_succeeds gid column now _ g p Hg Hst Hp Hc)
    as (res & games' & Hmove & Hs).
  { exists 0. split; [unfold Config.rows; lia | done]. }
  by exists p, column, res, games'.
Qed.

Lemma active_session_has_an_accepted_move_witness :
  ∃ p column res games',
    GameService.currentPlayerOf
      (Reach.sessionAfter FullColumn.sixInColumn0 "g1" Reach.freshSession)
      = Some p ∧
    0 ≤ column < Config.cols ∧
    cellAt (board (Reach.sessionAfter FullColumn.sixInColumn0 "g1"
                     Reach.freshSession)) 0 column = Some EmptyCell ∧
    GameService.makeMove "g1" (player_id p) column 300
      (Registry.sessions (Reach.stateAfter FullColumn.sixInColumn0))
      = Some (res, games') ∧
    success res = true.
Proof.
  apply (active_session_has_an_accepted_move
           (Reach.stateAfter FullColumn.sixInColumn0) "g1").
  - exists FullColumn.sixInColumn0. eexists. split; vm_compute; reflexivity.
  - vm_compute. reflexivity.
  - vm_compute. reflexivity.
Defined.

(** X5.  Whatever registry operations follow, a registered session keeps
    its id, its first participant and its creation time, keeps its second
    participant once it has one, and every piece on its board stays on its
    cell: no operation moves, replaces or removes a piece. *)
Theorem pieces_and_participants_stay
    (ops : list Registry.RegOp) (st : Registry.State)
    (outs : list Registry.Outcome) (st' : Registry.State)
    (gid : string) (g : GameState) :
  Registry.freshIds ops st = true →
  Registry.run ops st = Some (outs, st') →
  Registry.sessions st !! gid = Some g →
  ∃ g', Registry.sessions st' !! gid = Some g' ∧
        game_id g' = game_id g ∧ player1 g' = player1 g ∧
        createdAt g' = createdAt g ∧
        (∀ p, player2 g = Some p → player2 g' = Some p) ∧
        (∀ r c s, cellAt (board g) r c = Some (Piece s) →
                  cellAt (board g') r c = Some (Piece s)).
Proof.
  intros Hfresh Hrun Hg.
  destruct (run_evolves ops st outs st' gid g Hfresh Hrun Hg)
    as (g' & Hg' & Hid & H1 & Hc & H2 & Hcells & _).
  by exists g'.
Qed.

Lemma pieces_and_participants_stay_witness :
  ∃ g', Registry.sessions (Reach.stateAfter FullColumn.sixInColumn0) !! "g1"
          = Some g' ∧
        player1 g' = Reach.alice ∧ player2 g' = Some Reach.bob.
Proof.
  destruct (pieces_and_participants_stay
              (drop 2 FullColumn.sixInColumn0)
              (Reach.stateAfter Reach.openingOps)
              (default [] (fst <$> Registry.run (drop 2 FullColumn.sixInColumn0)
                                     (Reach.stateAfter Reach.openingOps)))
              (Reach.stateAfter FullColumn.sixInColumn0) "g1"
              (Reach.sessionAfter Reach.openingOps "g1" Reach.freshSession))
    as (g' & Hg' & _ & H1 & _ & H2 & _).
  - vm_compute. reflexivity.
  - vm_compute. reflexivity.
  - vm_compute. reflexivity.
  - exists g'. split_and!; [exact Hg' | exact H1 | apply H2; reflexivity].
Defined.

(** X6.  A completed or forfeited session is frozen: whatever registry
    operations follow, its board, turn, status, winner, last-move time and
    participants stay as they are, and every makeMove on it is refused with
    'Game is not active'. *)
Theorem finished_session_is_frozen
    (ops : list Registry.RegOp) (st : Registry.State)
    (outs : list Registry.Outcome) (st' : Registry.State)
    (gid : string) (g : GameState) :
  Registry.freshIds ops st = true →
  Registry.run ops st = Some (outs, st') →
  Registry.sessions st !! gid = Some g →
  status g = Completed ∨ status g = Forfeited →
  ∃ g', Registry.sessions st' !! gid = Some g' ∧
        board g' = board g ∧ currentTurn g' = currentTurn g ∧
        status g' = status g ∧ winner g' = winner g ∧
        lastMoveAt g' = lastMoveAt g ∧
        player1 g' = player1 g ∧ player2 g' = player2 g ∧
        ∀ pid column now,
          GameService.makeMove gid pid column now (Registry.sessions st')
          = Some (GameService.failure "Game is not active",
                  Registry.sessions st').
Proof.
  intros Hfresh Hrun Hg Hterm.
  destruct (run_evolves ops st outs st' gid g Hfresh Hrun Hg)
    as (g' & Hg' & _ & H1 & _ & _ & _ & Hfrozen).
  destruct (Hfrozen Hterm) as (Hb & Ht & Hs & Hw & Hl & H2).
  exists g'. split_and!; try done.
  intros pid column now. eapply makeMove_not_active; [done|].
  rewrite Hs. by destruct Hterm as [-> | ->].
Qed.

Lemma finished_session_is_frozen_witness :
  ∃ g', Registry.sessions
          (Reach.stateAfter (HandlerExamples.aliceGone ++
                             [Registry.OpMove "g1" "id-bob" 0 400;
                              Registry.OpJoin "g1" Reach.alice])) !! "g1"
          = Some g' ∧
        status g' = Forfeited ∧ winner g' = Some "id-bob".
Proof.
  destruct (finished_session_is_frozen
              [Registry.OpMove "g1" "id-bob" 0 400;
               Registry.OpJoin "g1" Reach.alice]
              (Reach.stateAfter HandlerExamples.aliceGone)
              (default [] (fst <$> Registry.run
                                     [Registry.OpMove "g1" "id-bob" 0 400;
                                      Registry.OpJoin "g1" Reach.alice]
                                     (Reach.stateAfter HandlerExamples.aliceGone)))
              (Reach.stateAfter (HandlerExamples.aliceGone ++
                                 [Registry.OpMove "g1" "id-bob" 0 400;
                                  Registry.OpJoin "g1" Reach.alice]))
              "g1"
              (Reach.sessionAfter HandlerExamples.aliceGone "g1"
                 Reach.freshSession))
    as (g' & Hg' & _ & _ & Hs & Hw & _).
  - vm_compute. reflexivity.
  - vm_compute. reflexivity.
  - vm_compute. reflexivity.
  - right. vm_compute. reflexivity.
  - exists g'. split_and!; [exact Hg' | rewrite Hs | rewrite Hw];
      vm_compute; reflexivity.
Defined.

(** X7.  joinGame succeeds exactly on a registered waiting session that has
    no second participant.  It then stores the joiner as player2 and makes
    the session active, keeping the board, the turn, the winner, the time
    stamps and the first participant, and leaving every other session
    alone; a second joinGame on the same session returns null. *)
Theorem joinGame_once (games : gmap string GameState) (gid : string)
    (p2 : Player) :
  ((GameService.joinGame gid p2 games).1 ≠ None ↔
   ∃ g, games !! gid = Some g ∧ player2 g = None ∧ status g = Waiting) ∧
  (∀ g', (GameService.joinGame gid p2 games).1 = Some g' →
     (∃ g, games !! gid = Some g ∧
           board g' = board g ∧ currentTurn g' = currentTurn g ∧
           winner g' = winner g ∧ player1 g' = player1 g ∧
           createdAt g' = createdAt g ∧ lastMoveAt g' = lastMoveAt g ∧
           game_id g' = game_id g) ∧
     player2 g' = Some p2 ∧ status g' = Active ∧
     (GameService.joinGame gid p2 games).2 !! gid = Some g' ∧
     (∀ other, other ≠ gid →
        (GameService.joinGame gid p2 games).2 !! other = games !! other) ∧
     (∀ p3, (GameService.joinGame gid p3
               (GameService.joinGame gid p2 games).2).1 = None)).
Proof.
  unfold GameService.joinGame.
  destruct (games !! gid) as [g|] eqn:Hg; simpl.
  2: { split; [|done]. split; [done | by intros (g & [=] & _)]. }
  case_bool_decide as Hp2; simpl.
  { split; [|done]. split; [done|]. intros (g0 & [= <-] & Hn & _).
    rewrite Hn in Hp2. by destruct Hp2. }
  case_bool_decide as Hst; simpl.
  { split; [|done]. split; [done|]. by intros (g0 & [= <-] & _ & ?). }
  split.
  - split; [|done]. intros _. exists g. split_and!; [done | | done].
    destruct (player2 g) eqn:H2; [|done]. destruct Hp2. by eexists.
  - intros g' [= <-]. simpl. split_and!; try done.
    + by exists g.
    + apply lookup_insert_eq.
    + intros other Hne. by apply lookup_insert_ne.
    + intros p3. by rewrite lookup_insert_eq.
Qed.

Lemma joinGame_once_witness :
  ∃ g', (GameService.joinGame "g1" Reach.bob
           (GameService.createGame "g1" 1 1 Reach.alice ∅).2).1 = Some g' ∧
        player2 g' = Some Reach.bob ∧ status g' = Active.
Proof.
  destruct ((GameService.joinGame "g1" Reach.bob
               (GameService.createGame "g1" 1 1 Reach.alice ∅).2).1)
    as [g'|] eqn:Hjoin; [|by vm_compute in Hjoin].
  exists g'. split; [reflexivity|].
  destruct (proj2 (joinGame_once
                     (GameService.createGame "g1" 1 1 Reach.alice ∅).2
                     "g1" Reach.bob) g' Hjoin) as (_ & H2 & Hs & _).
  split; [exact H2 | exact Hs].
Defined.

(** X8.  createGame registers the new session under the drawn id without
    touching any other session, and deleteGame undoes it: deleting a
    session just created under a fresh id gives back the registry as it
    was.  After deleteGame the id is unknown to getGame and to makeMove
    ('Game not found'); deleting again, or deleting an unknown id, changes
    nothing. *)
Theorem deleteGame_undoes_createGame (games : gmap string GameState)
    (uuid : string) (now now' : Z) (p1 : Player) :
  let created := GameService.createGame uuid now now' p1 games in
  GameService.getGame uuid created.2 = Some created.1 ∧
  (∀ other, other ≠ uuid →
     GameService.getGame other created.2 = GameService.getGame other games) ∧
  (games !! uuid = None → GameService.deleteGame uuid created.2 = games) ∧
  (∀ gid,
     GameService.getGame gid (GameService.deleteGame gid games) = None ∧
     (∀ pid column t,
        GameService.makeMove gid pid column t (GameService.deleteGame gid games)
        = Some (GameService.failure "Game not found",
                GameService.deleteGame gid games)) ∧
     GameService.deleteGame gid (GameService.deleteGame gid games)
       = GameService.deleteGame gid games ∧
     (games !! gid = None → GameService.deleteGame gid games = games) ∧
     (∀ other, other ≠ gid →
        GameService.getGame other (GameService.deleteGame gid games)
        = GameService.getGame other games)).
Proof.
  unfold GameService.createGame, GameService.getGame, GameService.deleteGame.
  cbv zeta. simpl. split_and!.
  - apply lookup_insert_eq.
  - intros other Hne. by apply lookup_insert_ne.
  - intros Hfresh. rewrite delete_insert_eq. by apply delete_id.
  - intros gid. split_and!.
    + apply lookup_delete_eq.
    + intros pid column t. apply makeMove_not_found, lookup_delete_eq.
    + apply delete_delete_eq.
    + apply delete_id.
    + intros other Hne. by apply lookup_delete_ne.
Qed.

Lemma deleteGame_undoes_createGame_witness :
  GameService.deleteGame "g2"
    (GameService.createGame "g2" 1 1 Reach.bob
       (Registry.sessions (Reach.stateAfter Reach.openingOps))).2
  = Registry.sessions (Reach.stateAfter Reach.openingOps).
Proof.
  pose proof (deleteGame_undoes_createGame
                (Registry.sessions (Reach.stateAfter Reach.openingOps))
                "g2" 1 1 Reach.bob) as (_ & _ & Hundo & _).
  apply Hundo. vm_compute. reflexivity.
Defined.

(** X9.  setDisconnected and clearDisconnected only touch the disconnect
    marker and the stored timer handle of the one session: status, board,
    turn, winner, participants and time stamps stay, as does every other
    session.  After clearDisconnected the session carries no marker and no
    handle, and the handle it carried is no longer armed; on an unknown id
    both calls change nothing. *)
Theorem disconnect_marker_only (games : gmap string GameState)
    (ts : Timers) (gid pid : string) :
  (∀ g, games !! gid = Some g →
     ∃ g1 g2,
       GameService.setDisconnected gid pid games !! gid = Some g1 ∧
       disconnectedPlayer g1 = Some pid ∧
       disconnectTimeout g1 = disconnectTimeout g ∧
       Tally.evolves g g1 ∧ status g1 = status g ∧
       board g1 = board g ∧ currentTurn g1 = currentTurn g ∧
       winner g1 = winner g ∧
       (GameService.clearDisconnected gid games ts).1 !! gid = Some g2 ∧
       disconnectedPlayer g2 = None ∧ disconnectTimeout g2 = None ∧
       status g2 = status g ∧ board g2 = board g ∧
       currentTurn g2 = currentTurn g ∧ winner g2 = winner g ∧
       player1 g2 = player1 g ∧ player2 g2 = player2 g ∧
       (∀ h, disconnectTimeout g = Some h →
             armed (GameService.clearDisconnected gid games ts).2 !! h = None) ∧
       (∀ h, disconnectTimeout g ≠ Some h →
             armed (GameService.clearDisconnected gid games ts).2 !! h
             = armed ts !! h)) ∧
  (∀ other, other ≠ gid →
     GameService.setDisconnected gid pid games !! other = games !! other ∧
     (GameService.clearDisconnected gid games ts).1 !! other
       = games !! other) ∧
  (games !! gid = None →
   GameService.setDisconnected gid pid games = games ∧
   GameService.clearDisconnected gid games ts = (games, ts)).
Proof.
  unfold GameService.setDisconnected, GameService.clearDisconnected.
  split_and!.
  - intros g Hg. rewrite Hg. simpl. rewrite !lookup_insert_eq.
    eexists _, _.
    split_and!; simpl; try reflexivity; try (by apply evolves_same_core).
    + intros h Hh. rewrite Hh. apply lookup_delete_eq.
    + intros h Hne. destruct (disconnectTimeout g) as [h'|]; [|done].
      simpl. apply lookup_delete_ne. congruence.
  - intros other Hne. destruct (games !! gid); simpl;
      by rewrite ?lookup_insert_ne.
  - by intros ->.
Qed.

Lemma disconnect_marker_only_witness :
  ∃ g2,
    (GameService.clearDisconnected "g1"
       (GameService.setDisconnected "g1" "id-bob"
          (Registry.sessions (Reach.stateAfter Reach.openingOps)))
       noTimers).1 !! "g1" = Some g2 ∧
    disconnectedPlayer g2 = None ∧ status g2 = Active.
Proof.
  destruct (proj1 (disconnect_marker_only
                     (GameService.setDisconnected "g1" "id-bob"
                        (Registry.sessions (Reach.stateAfter Reach.openingOps)))
                     noTimers "g1" "id-bob")
              (default Reach.freshSession
                 (GameService.setDisconnected "g1" "id-bob"
                    (Registry.sessions (Reach.stateAfter Reach.openingOps))
                  !! "g1")))
    as (_ & g2 & _ & _ & _ & _ & _ & _ & _ & _ & Hg2 & Hd & _ & Hs & _).
  - vm_compute. reflexivity.
  - exists g2. split_and!; [exact Hg2 | exact Hd |].
    rewrite Hs. vm_compute. reflexivity.
Defined.

(** X10.  forfeitGame acts once: on an active session it sets the status
    forfeited, and a second forfeitGame, by whomever, changes nothing; on a
    waiting, completed or forfeited session and on an unknown id it changes
    nothing at all, so a creator who leaves before anyone has joined is not
    forfeited.  The board, the turn and the participants are never changed
    by it, nor is any other session. *)
Theorem forfeitGame_acts_once (games : gmap string GameState)
    (gid pid : string) :
  (∀ g, games !! gid = Some g → status g = Active →
     ∃ g', GameService.forfeitGame gid pid games !! gid = Some g' ∧
           status g' = Forfeited ∧ board g' = board g ∧
           currentTurn g' = currentTurn g ∧ player1 g' = player1 g ∧
           player2 g' = player2 g ∧ lastMoveAt g' = lastMoveAt g) ∧
  (∀ pid', GameService.forfeitGame gid pid'
             (GameService.forfeitGame gid pid games)
           = GameService.forfeitGame gid pid games) ∧
  ((∀ g, games !! gid = Some g → status g ≠ Active) →
   GameService.forfeitGame gid pid games = games) ∧
  (∀ other, other ≠ gid →
     GameService.forfeitGame gid pid games !! other = games !! other).
Proof.
  split_and!.
  - intros g Hg Hst. unfold GameService.forfeitGame.
    rewrite Hg, bool_decide_eq_true_2, lookup_insert_eq by done.
    by eexists.
  - intros pid'. apply forfeitGame_noop. intros g.
    unfold GameService.forfeitGame.
    destruct (games !! gid) as [g0|] eqn:Hg; [|by rewrite Hg].
    case_bool_decide as Hst.
    + rewrite lookup_insert_eq. by intros [= <-].
    + rewrite Hg. by intros [= <-].
  - apply forfeitGame_noop.
  - intros other Hne. unfold GameService.forfeitGame.
    destruct (games !! gid) as [g0|]; [|done].
    case_bool_decide; [by rewrite lookup_insert_ne | done].
Qed.

Lemma forfeitGame_acts_once_witness :
  GameService.forfeitGame "g1" "id-alice"
    (GameService.createGame "g1" 1 1 Reach.alice ∅).2
  = (GameService.createGame "g1" 1 1 Reach.alice ∅).2.
Proof.
  apply (forfeitGame_acts_once
           (GameService.createGame "g1" 1 1 Reach.alice ∅).2 "g1" "id-alice").
  intros g Hg. vm_compute in Hg. injection Hg as <-. discriminate.
Defined.

(** ** The automated opponent and the registry *)

Section BotAndRegistry.

Import GameService BotService Cascade Outcomes Registry Invariants Reach Tally.

Lemma lowestFrom_findRow b c n : lowestFrom b c n = findRow b c n.
Proof. induction n as [|n IH]; simpl; [done|]. by rewrite IH. Qed.

(** The probe of the bot and the check of the registry agree. *)
Lemma wouldWin_checkWinner b r c s v0 :
  is_grid b = true → cellAt b r c = Some v0 →
  ∃ w, wouldWin b r c (Piece s) = Some (w, b) ∧
       checkWinner (setCell b r c (Piece s)) r c = Some w.
Proof.
  intros Hgrid Hcell.
  destruct (wouldWin_spec b Hgrid r c (Piece s) v0 Hcell) as (w & Hw & Hiff).
  exists w. split; [done|].
  assert (is_grid (setCell b r c (Piece s)) = true) as Hgrid1
    by (by rewrite is_grid_setCell).
  destruct (checkWinner_spec _ Hgrid1 r c s (cellAt_setCell_eq _ _ _ _ _ Hcell))
    as (w' & -> & Hiff').
  f_equal. destruct w, w'; try done.
  - apply Hiff'. by apply Hiff.
  - symmetry. apply Hiff. by apply Hiff'.
Qed.

Lemma StronglySorted_filter_lt (P : Z → Prop) `{!∀ x, Decision (P x)}
    (l : list Z) :
  StronglySorted Z.lt l → StronglySorted Z.lt (filter P l).
Proof.
  induction 1 as [|x l Hs IH Hall]; [constructor|].
  rewrite filter_cons. destruct (decide (P x)); [|done].
  constructor; [done|]. apply Forall_forall. intros y Hy.
  apply list_elem_of_filter in Hy as [_ Hy].
  rewrite Forall_forall in Hall. by apply Hall.
Qed.

(** A successful makeMove in the words of the bot: the piece lands on
    getLowestEmptyRow, and the result is a win exactly when wouldWin said
    so. *)
Lemma makeMove_as_probed st gid g p c now :
  reachable st → sessions st !! gid = Some g → status g = Active →
  currentPlayerOf g = Some p →
  canPlacePiece (board g) c = true →
  ∃ w res g',
    wouldWin (board g) (getLowestEmptyRow (board g) c) c
      (Piece (currentTurn g)) = Some (w, board g) ∧
    makeMove gid (player_id p) c now (sessions st)
      = Some (res, <[gid := g']> (sessions st)) ∧
    success res = true ∧
    position res = Some {| row := getLowestEmptyRow (board g) c; col := c |} ∧
    cellAt (board g') (getLowestEmptyRow (board g) c) c
      = Some (Piece (currentTurn g)) ∧
    (w = true → mr_winner res = Some (player_id p) ∧
                status g' = Completed ∧ winner g' = Some (player_id p)) ∧
    (w = false → mr_winner res = None ∧ winner g' = None).
Proof.
  intros Hreach Hg Hst Hp Hplace%canPlacePiece_legal.
  destruct (reachable_ok st Hreach _ _ Hg) as (Hgrid & Hstk & Hwin).
  unfold winnerOk in Hwin. rewrite Hst in Hwin.
  pose proof (legal_in_range _ Hgrid c Hplace) as Hc.
  pose proof (getLowestEmptyRow_dropRow _ _ Hplace) as Hdrop.
  destruct (makeMove_succeeds gid c now _ g p Hg Hst Hp Hc)
    as (res & games' & Hmove & Hsucc).
  { exists 0. split; [unfold Config.rows; lia | done]. }
  destruct (makeMove_inv _ _ _ _ _ _ _ Hmove)
    as [[Hfail _] | (g0 & p0 & r & won & Hg0 & _ & Hp0 & _ & _ & Hr &
                     Hcell & Hbelow & Hwon & Hres)]; [congruence|].
  rewrite Hg in Hg0. injection Hg0 as <-.
  rewrite Hp in Hp0. injection Hp0 as <-.
  assert (r = getLowestEmptyRow (board g) c) as ->.
  { by eapply dropRow_unique. }
  destruct (wouldWin_checkWinner (board g) _ c (currentTurn g) _ Hgrid Hcell)
    as (w & Hprobe & Hcheck).
  simpl in Hwon. rewrite Hcheck in Hwon. injection Hwon as <-.
  exists w, res. cbv zeta in Hres.
  destruct w.
  - injection Hres as -> ->. eexists. split_and!; try done.
    simpl. by eapply cellAt_setCell_eq.
  - destruct (isBoardFull _); injection Hres as -> ->;
      (eexists; split_and!; try done; simpl; by eapply cellAt_setCell_eq).
Qed.

End BotAndRegistry.

(** X11.  The bot's forecast is the registry's verdict.  In a reachable
    registry, for an active session, the participant on turn and a column
    the bot may use: makeMove accepts the move, puts the piece on the row
    getLowestEmptyRow names, and returns a win for the mover exactly when
    wouldWin answers true for that cell and side.  So whenever the side on
    turn has a column that completes four, the column getBestMove returns
    for it, played through makeMove, completes the session with the mover
    as winner. *)
Theorem bot_forecast_is_the_registry_verdict
    (st : Registry.State) (gid : string) (g : GameState) (p : Player)
    (now : Z) :
  Reach.reachable st →
  Registry.sessions st !! gid = Some g →
  status g = Active →
  GameService.currentPlayerOf g = Some p →
  (∀ c, BotService.canPlacePiece (board g) c = true →
     ∃ w res g',
       BotService.wouldWin (board g)
         (BotService.getLowestEmptyRow (board g) c) c
         (Piece (currentTurn g)) = Some (w, board g) ∧
       GameService.makeMove gid (player_id p) c now (Registry.sessions st)
         = Some (res, <[gid := g']> (Registry.sessions st)) ∧
       success res = true ∧
       position res
         = Some {| row := BotService.getLowestEmptyRow (board g) c;
                   col := c |} ∧
       (w = true ↔ mr_winner res = Some (player_id p))) ∧
  ((∃ c0, Cascade.winsAt (board g) (currentTurn g) c0) →
   ∃ c res g',
     BotService.getBestMove (board g) (currentTurn g)
       = Some (Some c, board g) ∧
     GameService.makeMove gid (player_id p) c now (Registry.sessions st)
       = Some (res, <[gid := g']> (Registry.sessions st)) ∧
     mr_winner res = Some (player_id p) ∧
     status g' = Completed ∧ winner g' = Some (player_id p)).
Proof.
  intros Hreach Hg Hst Hp. split.
  - intros c Hplace.
    destruct (makeMove_as_probed st gid g p c now Hreach Hg Hst Hp Hplace)
      as (w & res & g' & Hprobe & Hmove & Hs & Hpos & _ & Hwin & Hno).
    exists w, res, g'. split_and!; try done.
    destruct w; split; try done.
    + intros _. by apply Hwin.
    + intros Hw. destruct (Hno eq_refl) as [Hn _]. congruence.
  - intros [c0 Hc0].
    destruct (reachable_ok st Hreach _ _ Hg) as (Hgrid & _ & _).
    destruct (getBestMove_spec (board g) Hgrid (currentTurn g))
      as (best & Hbest & Hsel).
    destruct best as [c|]; [|by destruct (Hsel c0); apply Hc0].
    destruct Hsel as [[Hwins _] | Hother].
    2: { exfalso. destruct Hother as [[Hn _] | [[Hn _] | [[Hn _] | [Hn _]]]];
           by apply (Hn c0). }
    pose proof Hwins as [Hlegal _]%makesRun_lowest.
    apply canPlacePiece_legal in Hlegal.
    destruct (makeMove_as_probed st gid g p c now Hreach Hg Hst Hp Hlegal)
      as (w & res & g' & Hprobe & Hmove & _ & _ & _ & Hwin & _).
    assert (w = true) as ->.
    { apply canPlacePiece_legal in Hlegal.
      destruct (getLowestEmptyRow_dropRow _ _ Hlegal) as (_ & Hcell & _).
      destruct (wouldWin_spec (board g) Hgrid _ c (Piece (currentTurn g)) _
                  Hcell) as (w' & Hw' & Hiff).
      rewrite Hprobe in Hw'. injection Hw' as <-.
      apply Hiff. by apply makesRun_lowest in Hwins as [_ ?]. }
    destruct (Hwin eq_refl) as (Hm & Hs & Hw).
    by exists c, res, g'.
Qed.

Lemma bot_forecast_is_the_registry_verdict_witness :
  ∃ w res g',
    BotService.wouldWin
      (board (Reach.sessionAfter BotGame.botToMove "g1" Reach.freshSession))
      (BotService.getLowestEmptyRow
         (board (Reach.sessionAfter BotGame.botToMove "g1" Reach.freshSession))
         3) 3 (Piece Player2)
      = Some (w, board (Reach.sessionAfter BotGame.botToMove "g1"
                          Reach.freshSession)) ∧
    GameService.makeMove "g1" "id-bot" 3 300
      (Registry.sessions (Reach.stateAfter BotGame.botToMove))
      = Some (res, <["g1" := g']>
                     (Registry.sessions (Reach.stateAfter BotGame.botToMove))) ∧
    success res = true.
Proof.
  destruct (proj1 (bot_forecast_is_the_registry_verdict
                     (Reach.stateAfter BotGame.botToMove) "g1"
                     (Reach.sessionAfter BotGame.botToMove "g1"
                        Reach.freshSession)
                     BotGame.robot 300
                     ltac:(exists BotGame.botToMove; eexists;
                           split; vm_compute; reflexivity)
                     ltac:(vm_compute; reflexivity)
                     ltac:(vm_compute; reflexivity)
                     ltac:(vm_compute; reflexivity)) 3
              ltac:(vm_compute; reflexivity))
    as (w & res & g' & Hprobe & Hmove & Hs & _).
  exists w, res, g'. split_and!; [exact Hprobe | exact Hmove | exact Hs].
Defined.

(** X12.  The bot never proposes a move the registry refuses.  In a
    reachable registry, for an active session and the participant on turn,
    getBestMove for the side on turn returns a column, and makeMove with
    that column and that participant succeeds. *)
Theorem bot_answer_is_always_accepted
    (st : Registry.State) (gid : string) (g : GameState) (p : Player)
    (now : Z) :
  Reach.reachable st →
  Registry.sessions st !! gid = Some g →
  status g = Active →
  GameService.currentPlayerOf g = Some p →
  ∃ c res g',
    BotService.getBestMove (board g) (currentTurn g)
      = Some (Some c, board g) ∧
    0 ≤ c < Config.cols ∧
    GameService.makeMove gid (player_id p) c now (Registry.sessions st)
      = Some (res, <[gid := g']> (Registry.sessions st)) ∧
    success res = true ∧
    cellAt (board g') (BotService.getLowestEmptyRow (board g) c) c
      = Some (Piece (currentTurn g)).
Proof.
  intros Hreach Hg Hst Hp.
  destruct (reachable_ok st Hreach _ _ Hg) as (Hgrid & _ & _).
  destruct (reachable_sound st Hreach _ _ Hg) as (_ & _ & _ & Hopen & _).
  destruct (open_top_cell _ Hgrid (Hopen ltac:(congruence)))
    as (c0 & Hc0 & Htop).
  destruct (getBestMove_spec (board g) Hgrid (currentTurn g))
    as (best & Hbest & Hsel).
  destruct best as [c|]; [|by destruct (Hsel c0)].
  pose proof (selects_legal _ _ _ Hsel) as Hlegal.
  pose proof (legal_in_range _ Hgrid c Hlegal) as Hc.
  apply canPlacePiece_legal in Hlegal.
  destruct (makeMove_as_probed st gid g p c now Hreach Hg Hst Hp Hlegal)
    as (w & res & g' & _ & Hmove & Hs & _ & Hcell & _).
  by exists c, res, g'.
Qed.

Lemma bot_answer_is_always_accepted_witness :
  ∃ c res g',
    BotService.getBestMove
      (board (Reach.sessionAfter BotGame.botToMove "g1" Reach.freshSession))
      Player2
      = Some (Some c, board (Reach.sessionAfter BotGame.botToMove "g1"
                               Reach.freshSession)) ∧
    GameService.makeMove "g1" "id-bot" c 300
      (Registry.sessions (Reach.stateAfter BotGame.botToMove))
      = Some (res, <["g1" := g']>
                     (Registry.sessions (Reach.stateAfter BotGame.botToMove))) ∧
    success res = true.
Proof.
  destruct (bot_answer_is_always_accepted
              (Reach.stateAfter BotGame.botToMove) "g1"
              (Reach.sessionAfter BotGame.botToMove "g1" Reach.freshSession)
              BotGame.robot 300)
    as (c & res & g' & Hbest & _ & Hmove & Hs & _).
  - exists BotGame.botToMove. eexists. split; vm_compute; reflexivity.
  - vm_compute. reflexivity.
  - vm_compute. reflexivity.
  - vm_compute. reflexivity.
  - exists c, res, g'. split_and!; [exact Hbest | exact Hmove | exact Hs].
Defined.

(** X13.  getValidMoves lists, in ascending order and without repetition,
    exactly the columns 0..6 whose top cell is empty; on a 6 x 7 grid the
    list is empty exactly when the registry's isBoardFull holds. *)
Theorem getValidMoves_lists_open_columns (b : Board) :
  (∀ c, c ∈ BotService.getValidMoves b ↔
        0 ≤ c < Config.cols ∧ cellAt b 0 c = Some EmptyCell) ∧
  StronglySorted Z.lt (BotService.getValidMoves b) ∧
  (is_grid b = true →
   BotService.getValidMoves b = [] ↔ GameService.isBoardFull b = true).
Proof.
  unfold BotService.getValidMoves. split_and!.
  - intros c. rewrite list_elem_of_filter, elem_of_seqZ.
    unfold BotService.canPlacePiece. rewrite bool_decide_eq_true.
    unfold Config.cols. intuition lia.
  - apply StronglySorted_filter_lt.
    change (seqZ 0 Config.cols) with [0; 1; 2; 3; 4; 5; 6].
    repeat (constructor; [|repeat (constructor; [lia|]); constructor]).
    constructor.
  - intros Hgrid. rewrite (isBoardFull_top _ Hgrid). split.
    + intros Hnil c Hc Htop.
      assert (c ∈ filter (λ c, BotService.canPlacePiece b c = true)
                    (seqZ 0 Config.cols)) as Hin.
      { apply list_elem_of_filter. split.
        - by apply bool_decide_eq_true_2.
        - apply elem_of_seqZ. lia. }
      rewrite Hnil in Hin. by apply elem_of_nil in Hin.
    + intros Hfull. apply filter_none. intros c Hin%elem_of_seqZ.
      apply bool_decide_eq_false_2. apply Hfull. lia.
Qed.

Lemma getValidMoves_lists_open_columns_witness :
  BotService.getValidMoves BotExamples.fullBoard = [] ↔
  GameService.isBoardFull BotExamples.fullBoard = true.
Proof.
  apply (getValidMoves_lists_open_columns BotExamples.fullBoard).
  reflexivity.
Defined.

(** ** What the handlers broadcast *)

Section Broadcasts.

Import GameService BotService Cascade Outcomes Registry Invariants Reach Tally.

Lemma withBoard_same g : BotMove.withBoard g (board g) = g.
Proof. by destruct g. Qed.

(** The session a successful makeMove leaves. *)
Lemma makeMove_success_inv gid pid column now
    (games games' : gmap string GameState) res :
  makeMove gid pid column now games = Some (res, games') →
  success res = true →
  ∃ game r game',
    games !! gid = Some game ∧ games' = <[gid := game']> games ∧
    position res = Some {| row := r; col := column |} ∧
    cellAt (board game) r column = Some EmptyCell ∧
    board game' = setCell (board game) r column (Piece (currentTurn game)) ∧
    (mr_winner res = None ∧ isDraw res = None →
     status game' = Active ∧ currentTurn game' = otherSide (currentTurn game)) ∧
    (mr_winner res ≠ None ∨ isDraw res ≠ None →
     status game' = Completed ∧ currentTurn game' = currentTurn game).
Proof.
  intros Hmove Hs.
  destruct (makeMove_inv _ _ _ _ _ _ _ Hmove)
    as [[Hfail _] | (game & p & r & won & Hg & _ & _ & _ & _ & _ &
                     Hcell & _ & _ & Hres)]; [congruence|].
  cbv zeta in Hres. exists game, r.
  destruct won; [|destruct (isBoardFull _)]; injection Hres as -> ->;
    (eexists; split_and!; try done; simpl); try (by intros [? ?]);
    by intros [? | ?].
Qed.

End Broadcasts.

(** X14.  What handleMakeMove broadcasts after an accepted move.  The
    'move_made' event carries the position makeMove returned and the board
    with the mover's piece on it, and as [player] the side other than
    currentTurn after the move.  makeMove switches currentTurn only when
    the session goes on; so for a move that neither wins nor draws the
    event names the mover's side, and for a winning or drawing move it
    names the other side, although the piece placed is the mover's. *)
Theorem move_made_names_mover_unless_final
    (games games' : gmap string GameState) (gid sock : string)
    (game : GameState) (p : Player) (column now : Z) (res : MoveResult) :
  games !! gid = Some game →
  GameHandler.resolvePlayer game sock = Some p →
  GameService.makeMove gid (player_id p) column now games
    = Some (res, games') →
  success res = true →
  ∃ r game' side,
    games' !! gid = Some game' ∧
    GameHandler.handleMakeMove sock gid column now games
      = Some ([GameHandler.EmitMoveMade gid
                 (Some {| row := r; col := column |}) side (board game')],
              games') ∧
    cellAt (board game') r column = Some (Piece (currentTurn game)) ∧
    (mr_winner res = None ∧ isDraw res = None → side = currentTurn game) ∧
    (mr_winner res ≠ None ∨ isDraw res ≠ None →
     side = GameService.otherSide (currentTurn game)).
Proof.
  intros Hg Hp Hmove Hs.
  destruct (makeMove_success_inv _ _ _ _ _ _ _ Hmove Hs)
    as (game0 & r & game' & Hg0 & -> & Hpos & Hcell & Hboard & Hgo & Hend).
  rewrite Hg in Hg0. injection Hg0 as <-.
  exists r, game', (GameService.otherSide (currentTurn game')).
  split_and!.
  - by rewrite lookup_insert_eq.
  - unfold GameHandler.handleMakeMove, GameService.getGame.
    rewrite Hg, Hp, Hmove. cbn [mbind option_bind fst snd].
    rewrite Hs, lookup_insert_eq. by rewrite Hpos.
  - rewrite Hboard. by eapply cellAt_setCell_eq.
  - intros Hcont. destruct (Hgo Hcont) as [_ ->].
    by destruct (currentTurn game).
  - intros Hfin. by destruct (Hend Hfin) as [_ ->].
Qed.

Lemma move_made_names_mover_unless_final_witness :
  ∃ r game' side,
    FinalMove.afterWin !! "g1" = Some game' ∧
    GameHandler.handleMakeMove "sock-a" "g1" 0 300
      (Registry.sessions (Reach.stateAfter FinalMove.aliceWinsNext))
    = Some ([GameHandler.EmitMoveMade "g1" (Some {| row := r; col := 0 |})
               side (board game')], FinalMove.afterWin) ∧
    cellAt (board game') r 0 = Some (Piece Player1) ∧
    side = Player2.
Proof.
  destruct (move_made_names_mover_unless_final
              (Registry.sessions (Reach.stateAfter FinalMove.aliceWinsNext))
              FinalMove.afterWin "g1" "sock-a"
              (Reach.sessionAfter FinalMove.aliceWinsNext "g1"
                 Reach.freshSession)
              Reach.alice 0 300 FinalMove.winResult)
    as (r & game' & side & Hl & Hh & Hc & _ & Hfin).
  - vm_compute. reflexivity.
  - vm_compute. reflexivity.
  - vm_compute. reflexivity.
  - vm_compute. reflexivity.
  - exists r, game', side. split_and!; [exact Hl | exact Hh | exact Hc |].
    apply Hfin. left. vm_compute. discriminate.
Defined.

(** X15.  makeBotMove moves exactly when it is the bot's turn.  In a
    reachable registry, for an active session whose player2 is a bot (with
    an id other than player1's): while currentTurn is player1, makeBotMove
    emits nothing and leaves the registry as it is; when currentTurn is
    player2, it places one piece of player2 on the lowest empty cell of
    the column getBestMove returns, and broadcasts that position with
    'player2' as the mover and the board after the move. *)
Theorem makeBotMove_moves_on_its_turn_only
    (st : Registry.State) (gid : string) (g : GameState) (bot : Player)
    (now : Z) :
  Reach.reachable st →
  Registry.sessions st !! gid = Some g →
  status g = Active →
  player2 g = Some bot →
  isBot bot = true →
  player_id bot ≠ player_id (player1 g) →
  (currentTurn g = Player1 →
   BotMove.makeBotMove gid now (Registry.sessions st)
     = Some ([], Registry.sessions st)) ∧
  (currentTurn g = Player2 →
   ∃ c g',
     BotService.getBestMove (board g) Player2 = Some (Some c, board g) ∧
     BotMove.makeBotMove gid now (Registry.sessions st)
       = Some ([GameHandler.EmitMoveMade gid
                  (Some {| row := BotService.getLowestEmptyRow (board g) c;
                           col := c |})
                  Player2 (board g')],
               <[gid := g']> (Registry.sessions st)) ∧
     board g'
       = setCell (board g) (BotService.getLowestEmptyRow (board g) c) c
           (Piece Player2)).
Proof.
  intros Hreach Hg Hst Hp2 Hbot Hid.
  destruct (reachable_ok st Hreach _ _ Hg) as (Hgrid & _ & _).
  assert (BotMove.botOf g = Some bot) as Hbo.
  { unfold BotMove.botOf. by rewrite Hp2, Hbot. }
  assert (BotMove.botPieceOf g bot = Player2) as Hpiece.
  { unfold BotMove.botPieceOf. by rewrite bool_decide_eq_false_2. }
  assert (∀ b, b = board g →
            <[gid := BotMove.withBoard g b]> (Registry.sessions st)
            = Registry.sessions st) as Hsame.
  { intros b ->. rewrite withBoard_same. by apply insert_id. }
  unfold BotMove.makeBotMove, GameService.getGame.
  rewrite Hg, bool_decide_eq_false_2 by (by intros []).
  rewrite Hbo. cbv zeta. rewrite Hpiece.
  split.
  - intros Hturn.
    destruct (getBestMove_spec (board g) Hgrid Player2) as (best & -> & _).
    cbn [mbind option_bind fst snd]. rewrite Hsame by done.
    destruct best as [column|]; [|done].
    rewrite (makeMove_not_your_turn gid _ column now _ g Hg Hst).
    + done.
    + intros p. unfold GameService.currentPlayerOf. rewrite Hturn.
      intros [= <-]. congruence.
  - intros Hturn.
    assert (GameService.currentPlayerOf g = Some bot) as Hcur.
    { unfold GameService.currentPlayerOf. by rewrite Hturn. }
    destruct (reachable_sound st Hreach _ _ Hg) as (_ & _ & _ & Hopen & _).
    destruct (open_top_cell _ Hgrid (Hopen ltac:(congruence)))
      as (c0 & Hc0 & Htop).
    destruct (getBestMove_spec (board g) Hgrid Player2)
      as (best & Hbest & Hsel).
    destruct best as [c|]; [|by destruct (Hsel c0)].
    pose proof (selects_legal _ _ _ Hsel) as Hlegal.
    apply canPlacePiece_legal in Hlegal.
    destruct (makeMove_as_probed st gid g bot c now Hreach Hg Hst Hcur Hlegal)
      as (w & res & g' & _ & Hmove & Hs & Hpos & _).
    destruct (makeMove_success_inv _ _ _ _ _ _ _ Hmove Hs)
      as (g0 & r & g'' & Hg0 & Hins & Hpos' & _ & Hboard & _).
    rewrite Hg in Hg0. injection Hg0 as <-.
    rewrite Hpos in Hpos'. injection Hpos' as <-.
    assert (g' = g'') as <-.
    { apply (f_equal (λ m, m !! gid)) in Hins.
      rewrite !lookup_insert_eq in Hins. congruence. }
    rewrite Hturn in Hboard.
    exists c, g'. split_and!; [done | | done].
    rewrite Hbest. cbn [mbind option_bind fst snd]. rewrite Hsame by done.
    rewrite Hmove. cbn [mbind option_bind fst snd].
    by rewrite Hs, lookup_insert_eq, Hpos.
Qed.

Lemma makeBotMove_moves_on_its_turn_only_witness :
  ∃ c g',
    BotMove.makeBotMove "g1" 300
      (Registry.sessions (Reach.stateAfter BotGame.botToMove))
    = Some ([GameHandler.EmitMoveMade "g1"
               (Some {| row := BotService.getLowestEmptyRow
                                 (board (Reach.sessionAfter BotGame.botToMove
                                           "g1" Reach.freshSession)) c;
                        col := c |})
               Player2 (board g')],
            <["g1" := g']>
              (Registry.sessions (Reach.stateAfter BotGame.botToMove))).
Proof.
  destruct (proj2 (makeBotMove_moves_on_its_turn_only
                     (Reach.stateAfter BotGame.botToMove) "g1"
                     (Reach.sessionAfter BotGame.botToMove "g1"
                        Reach.freshSession)
                     BotGame.robot 300
                     ltac:(exists BotGame.botToMove; eexists;
                           split; vm_compute; reflexivity)
                     ltac:(vm_compute; reflexivity)
                     ltac:(vm_compute; reflexivity)
                     ltac:(vm_compute; reflexivity)
                     ltac:(vm_compute; reflexivity)
                     ltac:(vm_compute; discriminate))
              ltac:(vm_compute; reflexivity))
    as (c & g' & _ & Hbot & _).
  exists c, g'. exact Hbot.
Defined.

(** ** Waiting, leaving and the bot timer *)

Section WaitingRoom.

Import MatchmakingService QueueFacts.

Lemma qget_qdelete k (q : Queue) : qget k (qdelete k q) = None.
Proof.
  induction q as [|[k' e'] q IH]; simpl; [done|].
  case_bool_decide as Hk; [done|]. simpl. by rewrite bool_decide_eq_false_2.
Qed.

Lemma qget_qdelete_ne k k' (q : Queue) :
  k' ≠ k → qget k' (qdelete k q) = qget k' q.
Proof.
  intros Hne. induction q as [|[k0 e0] q IH]; simpl; [done|].
  case_bool_decide as Hk; simpl.
  - subst k0. by rewrite bool_decide_eq_false_2.
  - by rewrite IH.
Qed.

Lemma qget_None k (q : Queue) : qget k q = None ↔ k ∉ q.*1.
Proof.
  induction q as [|[k0 e0] q IH]; simpl.
  - split; [intros _; apply not_elem_of_nil | done].
  - case_bool_decide as Hk.
    + subst k0. split; [done|]. intros Hn. destruct Hn. apply elem_of_cons.
      by left.
    + rewrite IH, not_elem_of_cons. split; [by intros ?; split | by intros [_ ?]].
Qed.

Lemma qdelete_qset k e (q : Queue) :
  qget k q = None → qdelete k (qset k e q) = q.
Proof.
  induction q as [|[k0 e0] q IH]; simpl.
  - intros _. by rewrite bool_decide_eq_true_2.
  - case_bool_decide as Hk; [done|]. intros Hq. simpl.
    rewrite bool_decide_eq_false_2 by done. by rewrite IH.
Qed.

(** When the oldest entry, if any, has the caller's id, addPlayerToQueue
    takes its second branch. *)
Lemma addPlayerToQueue_waits p uuid now now' w :
  (∀ k0 e0 rest, waitingPlayers w = (k0, e0) :: rest →
                 player_id (player e0) = player_id p) →
  addPlayerToQueue p uuid now now' w = (None, enqueueWaiting p w).
Proof.
  intros Hhead. unfold addPlayerToQueue.
  destruct (waitingPlayers w) as [|[k0 e0] rest] eqn:Hq;
    cbn [head fmap list_fmap snd]; [done|].
  rewrite bool_decide_eq_false_2; [done|].
  intros Hne. apply Hne. by eapply Hhead.
Qed.

Lemma isPlayerInQueue_false sock w :
  isPlayerInQueue sock w = false ↔ qget sock (waitingPlayers w) = None.
Proof.
  unfold isPlayerInQueue. rewrite bool_decide_eq_false.
  destruct (qget _ _); split; try done.
  intros Hn. destruct Hn. by eexists.
Qed.

(** What matchWithBot does for a participant who is waiting. *)
Lemma matchWithBot_waiting p botId uuid now now' w e :
  qget (socketId p) (waitingPlayers w) = Some e →
  let w' := matchWithBot p botId uuid now now' w in
  waitingPlayers w' = qdelete (socketId p) (waitingPlayers w) ∧
  timers w' = timers w ∧
  (∀ k, k ≠ uuid → games w' !! k = games w !! k) ∧
  ∃ g, games w' !! uuid = Some g ∧ game_id g = uuid ∧ player1 g = p ∧
       player2 g = Some {| player_id := botId; username := "Bot";
                           socketId := "bot"; isBot := true |} ∧
       status g = Active ∧ currentTurn g = Player1 ∧
       board g = GameService.emptyBoard ∧ winner g = None.
Proof.
  intros Hq. unfold matchWithBot. rewrite Hq. cbv zeta.
  unfold GameService.joinGame, GameService.createGame.
  cbn [fst snd game_id]. rewrite lookup_insert_eq.
  cbn [player2 status orb]. 
  rewrite bool_decide_eq_false_2 by (by intros [? [=]]).
  rewrite bool_decide_eq_false_2 by (by intros []).
  cbn [orb fst snd games waitingPlayers timers]. split_and!; [done | done | |].
  - intros k Hk. by rewrite !lookup_insert_ne.
  - rewrite lookup_insert_eq. by eexists.
Qed.

End WaitingRoom.

(** X16.  A participant left waiting is given the bot when the timer
    fires.  When addPlayerToQueue finds no entry of another participant at
    the head of the queue, the caller is queued under a fresh armed handle;
    when that handle fires, the caller leaves the queue and a new session
    is registered under the drawn uuid, active, with the caller as player1
    to move on an empty board and as player2 the bot ('Bot', handle 'bot',
    isBot); every other session is as before and the handle is spent. *)
Theorem waiting_participant_gets_bot_at_timeout
    (w : MatchmakingService.Services) (p : Player) (u0 : string)
    (n0 n0' : Z) (botId uuid : string) (now now' : Z) :
  (∀ k0 e0 rest,
     MatchmakingService.waitingPlayers w = (k0, e0) :: rest →
     player_id (MatchmakingService.player e0) = player_id p) →
  let w1 := (MatchmakingService.addPlayerToQueue p u0 n0 n0' w).2 in
  ∃ h,
    MatchmakingService.qget (socketId p) (MatchmakingService.waitingPlayers w1)
      = Some {| MatchmakingService.player := p;
                MatchmakingService.timeout := h |} ∧
    MatchmakingService.isPlayerInQueue (socketId p) w1 = true ∧
    armed (MatchmakingService.timers w1) !! h = Some (TaskMatchWithBot p) ∧
    let w2 := MatchmakingService.fireTimer h botId uuid now now' w1 in
    MatchmakingService.isPlayerInQueue (socketId p) w2 = false ∧
    armed (MatchmakingService.timers w2) !! h = None ∧
    (∀ k, k ≠ uuid →
       MatchmakingService.games w2 !! k = MatchmakingService.games w !! k) ∧
    ∃ g, MatchmakingService.games w2 !! uuid = Some g ∧
         game_id g = uuid ∧ player1 g = p ∧
         player2 g = Some {| player_id := botId; username := "Bot";
                             socketId := "bot"; isBot := true |} ∧
         status g = Active ∧ currentTurn g = Player1 ∧
         board g = GameService.emptyBoard ∧ winner g = None.
Proof.
  intros Hhead. cbv zeta.
  rewrite (addPlayerToQueue_waits p u0 n0 n0' w Hhead). cbn [snd].
  exists (nextTimer (MatchmakingService.timers w)).
  assert (MatchmakingService.qget (socketId p)
            (MatchmakingService.waitingPlayers
               (MatchmakingService.enqueueWaiting p w))
          = Some {| MatchmakingService.player := p;
                    MatchmakingService.timeout :=
                      nextTimer (MatchmakingService.timers w) |}) as Hq
    by apply qget_qset.
  assert (armed (MatchmakingService.timers
                   (MatchmakingService.enqueueWaiting p w))
            !! nextTimer (MatchmakingService.timers w)
          = Some (TaskMatchWithBot p)) as Harmed
    by apply lookup_insert_eq.
  split; [done|]. split.
  { unfold MatchmakingService.isPlayerInQueue. rewrite Hq.
    by apply bool_decide_eq_true_2. }
  split; [done|].
  unfold MatchmakingService.fireTimer. rewrite Harmed.
  match goal with
  | |- context [MatchmakingService.matchWithBot p botId uuid now now' ?w0] =>
      destruct (matchWithBot_waiting p botId uuid now now' w0 _ Hq)
        as (Hwait & Htimers & Hothers & Hnew)
  end.
  split_and!.
  - apply isPlayerInQueue_false. rewrite Hwait. apply qget_qdelete.
  - rewrite Htimers. apply lookup_delete_eq.
  - done.
  - done.
Qed.

Lemma waiting_participant_gets_bot_at_timeout_witness :
  ∃ g, MatchmakingService.games
         (MatchmakingService.fireTimer 0%nat "id-bot" "g1" 100 100
            (MatchmakingService.addPlayerToQueue Reach.alice "g0" 50 50
               QueueFacts.idle).2) !! "g1" = Some g ∧
       player1 g = Reach.alice ∧ status g = Active.
Proof.
  destruct (waiting_participant_gets_bot_at_timeout QueueFacts.idle
              Reach.alice "g0" 50 50 "id-bot" "g1" 100 100)
    as (h & Hq & _ & _ & _ & _ & _ & g & Hg & _ & Hp1 & _ & Hst & _).
  - intros k0 e0 rest Hnil. vm_compute in Hnil. discriminate.
  - assert (h = 0%nat) as -> by (vm_compute in Hq; congruence).
    exists g. split_and!; [exact Hg | exact Hp1 | exact Hst].
Defined.

(** X17.  Leaving the queue.  removePlayerFromQueue takes the entry of the
    handle out and nothing else: the handle is no longer queued, the
    entries under other handles and the sessions are as before, the timer
    of the removed entry is cancelled, so that its expiry changes nothing.
    For a handle that is not queued the call changes nothing, and a second
    call changes nothing. *)
Theorem removePlayerFromQueue_cancels_the_wait
    (w : MatchmakingService.Services) (sock : string) :
  let w' := MatchmakingService.removePlayerFromQueue sock w in
  MatchmakingService.isPlayerInQueue sock w' = false ∧
  MatchmakingService.games w' = MatchmakingService.games w ∧
  (∀ k, k ≠ sock →
     MatchmakingService.qget k (MatchmakingService.waitingPlayers w')
     = MatchmakingService.qget k (MatchmakingService.waitingPlayers w)) ∧
  (∀ e, MatchmakingService.qget sock (MatchmakingService.waitingPlayers w)
          = Some e →
        armed (MatchmakingService.timers w')
          !! MatchmakingService.timeout e = None ∧
        ∀ botId uuid now now',
          MatchmakingService.fireTimer (MatchmakingService.timeout e)
            botId uuid now now' w' = w') ∧
  (MatchmakingService.isPlayerInQueue sock w = false → w' = w) ∧
  MatchmakingService.removePlayerFromQueue sock w' = w'.
Proof.
  cbv zeta.
  destruct (MatchmakingService.qget sock (MatchmakingService.waitingPlayers w))
    as [e|] eqn:Hq.
  - assert (MatchmakingService.removePlayerFromQueue sock w
            = {| MatchmakingService.games := MatchmakingService.games w;
                 MatchmakingService.waitingPlayers :=
                   MatchmakingService.qdelete sock
                     (MatchmakingService.waitingPlayers w);
                 MatchmakingService.timers :=
                   clearTimeout (MatchmakingService.timeout e)
                     (MatchmakingService.timers w) |}) as ->.
    { unfold MatchmakingService.removePlayerFromQueue. by rewrite Hq. }
    cbn [MatchmakingService.games MatchmakingService.waitingPlayers
         MatchmakingService.timers].
    split_and!.
    + apply isPlayerInQueue_false. apply qget_qdelete.
    + done.
    + intros k Hk. by apply qget_qdelete_ne.
    + intros e' [= <-]. split; [apply lookup_delete_eq|].
      intros botId uuid now now'. unfold MatchmakingService.fireTimer.
      cbn [MatchmakingService.timers armed clearTimeout].
      by rewrite lookup_delete_eq.
    + intros Hno%isPlayerInQueue_false. congruence.
    + unfold MatchmakingService.removePlayerFromQueue.
      cbn [MatchmakingService.waitingPlayers]. by rewrite qget_qdelete.
  - assert (MatchmakingService.removePlayerFromQueue sock w = w) as ->.
    { unfold MatchmakingService.removePlayerFromQueue. by rewrite Hq. }
    split_and!; try done.
    + by apply isPlayerInQueue_false.
    + unfold MatchmakingService.removePlayerFromQueue. by rewrite Hq.
Qed.

(** X18.  Enqueue, then leave.  When the caller is queued (no entry of
    another participant at the head) under a handle that was not queued
    before, removePlayerFromQueue with that handle gives back the queue and
    the sessions as they were before the enqueue, and the bot timer armed
    for the caller is cancelled: its expiry creates no session. *)
Theorem enqueue_then_leave_restores_queue
    (w : MatchmakingService.Services) (p : Player) (u0 : string)
    (n0 n0' : Z) :
  (∀ k0 e0 rest,
     MatchmakingService.waitingPlayers w = (k0, e0) :: rest →
     player_id (MatchmakingService.player e0) = player_id p) →
  MatchmakingService.isPlayerInQueue (socketId p) w = false →
  let w1 := (MatchmakingService.addPlayerToQueue p u0 n0 n0' w).2 in
  let w2 := MatchmakingService.removePlayerFromQueue (socketId p) w1 in
  MatchmakingService.waitingPlayers w2 = MatchmakingService.waitingPlayers w ∧
  MatchmakingService.games w2 = MatchmakingService.games w ∧
  ∃ h, MatchmakingService.qget (socketId p)
         (MatchmakingService.waitingPlayers w1)
         = Some {| MatchmakingService.player := p;
                   MatchmakingService.timeout := h |} ∧
       armed (MatchmakingService.timers w1) !! h
         = Some (TaskMatchWithBot p) ∧
       armed (MatchmakingService.timers w2) !! h = None ∧
       ∀ botId uuid now now',
         MatchmakingService.fireTimer h botId uuid now now' w2 = w2.
Proof.
  intros Hhead Hno%isPlayerInQueue_false. cbv zeta.
  rewrite (addPlayerToQueue_waits p u0 n0 n0' w Hhead). cbn [snd].
  assert (MatchmakingService.qget (socketId p)
            (MatchmakingService.waitingPlayers
               (MatchmakingService.enqueueWaiting p w))
          = Some {| MatchmakingService.player := p;
                    MatchmakingService.timeout :=
                      nextTimer (MatchmakingService.timers w) |}) as Hq
    by apply qget_qset.
  unfold MatchmakingService.removePlayerFromQueue. rewrite Hq.
  cbn [MatchmakingService.games MatchmakingService.waitingPlayers
       MatchmakingService.timers MatchmakingService.timeout].
  split_and!.
  - unfold MatchmakingService.enqueueWaiting.
    cbn [MatchmakingService.waitingPlayers fst snd setTimeout].
    by apply qdelete_qset.
  - done.
  - exists (nextTimer (MatchmakingService.timers w)).
    split_and!; [done | apply lookup_insert_eq | apply lookup_delete_eq |].
    intros botId uuid now now'. unfold MatchmakingService.fireTimer.
    cbn [MatchmakingService.timers armed clearTimeout].
    by rewrite lookup_delete_eq.
Qed.

Lemma enqueue_then_leave_restores_queue_witness :
  MatchmakingService.waitingPlayers
    (MatchmakingService.removePlayerFromQueue "sock-a"
       (MatchmakingService.addPlayerToQueue Reach.alice "g0" 50 50
          QueueFacts.idle).2) = [].
Proof.
  apply (enqueue_then_leave_restores_queue QueueFacts.idle Reach.alice
           "g0" 50 50).
  - intros k0 e0 rest Hnil. vm_compute in Hnil. discriminate.
  - vm_compute. reflexivity.
Defined.

(** X19.  The queue never holds two participants.  Starting from an empty
    queue, after any sequence of enqueues, timer expiries, removals and
    actions of the other components, every entry is stored under the
    connection handle of its participant, no handle is stored twice, and
    all entries carry the same participant id. *)
Theorem queue_holds_one_identity
    (ops : list MatchmakingService.QueueOp)
    (w0 : MatchmakingService.Services) :
  MatchmakingService.waitingPlayers w0 = [] →
  let q := MatchmakingService.waitingPlayers
             (MatchmakingService.runQueue ops w0) in
  (∀ k e, (k, e) ∈ q → k = socketId (MatchmakingService.player e)) ∧
  NoDup q.*1 ∧
  (∀ k e k' e', (k, e) ∈ q → (k', e') ∈ q →
     player_id (MatchmakingService.player e)
     = player_id (MatchmakingService.player e')) ∧
  (∀ sock, MatchmakingService.isPlayerInQueue sock
             (MatchmakingService.runQueue ops w0) = true ↔
           ∃ e, (sock, e) ∈ q).
Proof.
  intros Hempty. cbv zeta.
  assert (QueueFacts.queueOk
            (MatchmakingService.waitingPlayers
               (MatchmakingService.runQueue ops w0))) as Hok.
  { apply runQueue_ok. rewrite Hempty. apply queueOk_nil. }
  destruct Hok as (Hkeys & Hnd & Hids). split_and!; try done.
  intros sock. unfold MatchmakingService.isPlayerInQueue.
  rewrite bool_decide_eq_true.
  generalize (MatchmakingService.waitingPlayers
                (MatchmakingService.runQueue ops w0)).
  intros q. induction q as [|[k0 e0] q IH]; simpl.
  - split; [by intros [? [=]] | intros [e He]]. by apply elem_of_nil in He.
  - case_bool_decide as Hk.
    + subst k0. split; [|by eexists]. intros _. exists e0. apply elem_of_cons.
      by left.
    + rewrite IH. split; intros [e He]; exists e.
      * apply elem_of_cons. by right.
      * apply elem_of_cons in He as [[= ? ?] | He]; [congruence | done].
Qed.

Lemma queue_holds_one_identity_witness :
  NoDup (MatchmakingService.waitingPlayers
           (MatchmakingService.runQueue
              [MatchmakingService.OpEnqueue Reach.alice "g0" 50 50;
               MatchmakingService.OpEnqueue Reach.alice "g1" 60 60]
              QueueFacts.idle)).*1.
Proof.
  apply (queue_holds_one_identity
           [MatchmakingService.OpEnqueue Reach.alice "g0" 50 50;
            MatchmakingService.OpEnqueue Reach.alice "g1" 60 60]
           QueueFacts.idle).
  reflexivity.
Defined.



(** ** Leaving and coming back *)

Section Reconnection.

Import GameService MatchmakingService Connection ConnectionFacts.

Lemma getAllActiveGames_elem order (games : Registry) k g :
  (k, g) ∈ LiveGames.getAllActiveGames order games ↔
  k ∈ order ∧ games !! k = Some g ∧ live g.
Proof.
  unfold LiveGames.getAllActiveGames, live.
  rewrite list_elem_of_filter, list_elem_of_omap. simpl. split.
  - intros [Hlive (k' & Hin & Hk)].
    destruct (games !! k') as [g'|] eqn:Hg; simplify_eq/=. done.
  - intros (Hin & Hg & Hlive). split; [done|]. exists k.
    split; [done|]. by rewrite Hg.
Qed.

Lemma head_of_singleton_class {A} (l : list A) (x : A) :
  x ∈ l → (∀ y, y ∈ l → y = x) → head l = Some x.
Proof.
  destruct l as [|y l]; [by intros ?%elem_of_nil|].
  intros _ Hall. simpl. f_equal. apply Hall. apply elem_of_cons. by left.
Qed.

(** The session handleDisconnect picks, when only one live session has the
    connection. *)
Lemma found_session order (games : Registry) sock gid g :
  gid ∈ order → games !! gid = Some g → live g → involves sock g = true →
  (∀ k' g', games !! k' = Some g' → live g' → involves sock g' = true →
            k' = gid) →
  head (filter (λ kg, involves sock kg.2 = true)
          (LiveGames.getAllActiveGames order games)) = Some (gid, g).
Proof.
  intros Hin Hg Hlive Hinv Huniq. apply head_of_singleton_class.
  - apply list_elem_of_filter. split; [done|].
    by apply getAllActiveGames_elem.
  - intros [k' g'] [Hinv' (_ & Hg' & Hlive')%getAllActiveGames_elem]%list_elem_of_filter.
    simpl in Hinv'. assert (k' = gid) as -> by by eapply Huniq.
    congruence.
Qed.

(** No live session has the connection: nothing is picked. *)
Lemma found_nothing order (games : Registry) sock :
  (∀ k g, games !! k = Some g → live g → involves sock g = false) →
  head (filter (λ kg, involves sock kg.2 = true)
          (LiveGames.getAllActiveGames order games)) = None.
Proof.
  intros Hnone.
  destruct (filter _ _) as [|[k g] l] eqn:Hf; [done|]. exfalso.
  assert ((k, g) ∈ filter (λ kg, involves sock kg.2 = true)
            (LiveGames.getAllActiveGames order games)) as Hin.
  { rewrite Hf. apply elem_of_cons. by left. }
  apply list_elem_of_filter in Hin as [Hinv (_ & Hg & Hlive)%getAllActiveGames_elem].
  simpl in Hinv. rewrite (Hnone k g Hg Hlive) in Hinv. done.
Qed.

Lemma removePlayerFromQueue_games sock w :
  games (removePlayerFromQueue sock w) = games w.
Proof. unfold removePlayerFromQueue. by destruct (qget _ _). Qed.

Lemma removePlayerFromQueue_gone sock w :
  qget sock (waitingPlayers (removePlayerFromQueue sock w)) = None.
Proof.
  unfold removePlayerFromQueue.
  destruct (qget sock (waitingPlayers w)) eqn:Hq; [|done].
  apply qget_qdelete.
Qed.

(** handleDisconnect, computed, for a participant that is found and is not
    a bot. *)
Lemma handleDisconnect_found order sock w gid g pl :
  head (filter (λ kg, involves sock kg.2 = true)
          (LiveGames.getAllActiveGames order (games w))) = Some (gid, g) →
  games w !! gid = Some g → game_id g = gid →
  (if bool_decide (socketId (player1 g) = sock)
   then Some (player1 g) else player2 g) = Some pl →
  isBot pl = false →
  let w1 := removePlayerFromQueue sock w in
  handleDisconnect order sock w =
    (match (if bool_decide (player_id pl = player_id (player1 g))
            then player2 g else Some (player1 g)) with
     | Some o => if isBot o then []
                 else [NoticeOpponentDisconnected (socketId o)]
     | None => []
     end,
     {| games := <[gid := marked g (player_id pl) (nextTimer (timers w1))]>
                   (games w);
        waitingPlayers := waitingPlayers w1;
        timers := (setTimeout (TaskForfeit gid (player_id pl)) (timers w1)).2 |}).
Proof.
  intros Hfound Hg Hid Hpl Hbot. cbv zeta. unfold handleDisconnect. cbv zeta.
  rewrite removePlayerFromQueue_games, Hfound, Hpl, Hbot, Hid.
  f_equal. f_equal.
  unfold setDisconnected. rewrite Hg. unfold setDisconnectTimeout.
  cbn [fst setTimeout]. rewrite lookup_insert_eq. cbn.
  by rewrite insert_insert_eq.
Qed.

End Reconnection.

Section ReconnectionFacts.

Import GameService MatchmakingService Connection ConnectionFacts.

Lemma samePlay_refl g : samePlay g g.
Proof. by repeat split. Qed.

Lemma holds_resolves g sock pl opp :
  holds g sock pl opp → player_id pl ≠ player_id opp →
  involves sock g = true ∧
  (if bool_decide (socketId (player1 g) = sock)
   then Some (player1 g) else player2 g) = Some pl ∧
  (if bool_decide (player_id pl = player_id (player1 g))
   then player2 g else Some (player1 g)) = Some opp ∧
  (if bool_decide (player_id (player1 g) = player_id pl)
   then player2 g else Some (player1 g)) = Some opp ∧
  ∃ p2, player2 g = Some p2.
Proof.
  unfold involves.
  intros [(Hs & -> & Hp2) | (Hs & Hp2 & Hs2 & ->)] Hne.
  - rewrite !bool_decide_eq_true_2 by done. split_and!; try done. by eexists.
  - rewrite Hp2. rewrite (bool_decide_eq_false_2 (socketId _ = sock)) by done.
    rewrite !(bool_decide_eq_true_2 (socketId pl = sock)) by done.
    rewrite !bool_decide_eq_false_2 by done. split_and!; try done.
    by eexists.
Qed.

(** The state handleDisconnect leaves, for the one live session of a
    connection. *)
Lemma handleDisconnect_marks order sock w gid g pl opp :
  gid ∈ order → games w !! gid = Some g → game_id g = gid → live g →
  holds g sock pl opp → player_id pl ≠ player_id opp → isBot pl = false →
  (∀ k' g', games w !! k' = Some g' → live g' → involves sock g' = true →
            k' = gid) →
  let w1 := removePlayerFromQueue sock w in
  handleDisconnect order sock w =
    (if isBot opp then [] else [NoticeOpponentDisconnected (socketId opp)],
     {| games := <[gid := marked g (player_id pl) (nextTimer (timers w1))]>
                   (games w);
        waitingPlayers := waitingPlayers w1;
        timers := (setTimeout (TaskForfeit gid (player_id pl)) (timers w1)).2 |}).
Proof.
  intros Hin Hg Hid Hlive Hholds Hne Hbot Huniq.
  destruct (holds_resolves _ _ _ _ Hholds Hne)
    as (Hinv & Hpl & Hopp & _ & _).
  cbv zeta.
  rewrite (handleDisconnect_found order sock w gid g pl); try done.
  - by rewrite Hopp.
  - by apply found_session.
Qed.

End ReconnectionFacts.



(** X22.  Coming back in time cancels the forfeiture.  After
    handleDisconnect for the connection of a human participant of an
    active session (two participants of different ids, no other live
    session with that connection), when handleRejoinGame is called with
    the session id and the id of the participant who left, from any
    connection, before the timer has fired: the participant's connection
    handle becomes that of the caller,
    the marker and the stored timer handle are cleared, the timer is
    cancelled (its expiry changes nothing), and the board, the turn, the
    status, the winner and the other participant are as before the
    disconnect.  The caller is sent 'game_rejoined' with that board and
    turn and the opponent's name. *)
Theorem rejoin_in_time_cancels_forfeiture
    (order : list string) (sock sock' : string)
    (w : MatchmakingService.Services)
    (gid : string) (g : GameState) (pl opp : Player) :
  gid ∈ order →
  MatchmakingService.games w !! gid = Some g →
  game_id g = gid →
  status g = Active →
  ConnectionFacts.holds g sock pl opp →
  player_id pl ≠ player_id opp →
  isBot pl = false →
  (∀ k' g', MatchmakingService.games w !! k' = Some g' →
            ConnectionFacts.live g' →
            Connection.involves sock g' = true → k' = gid) →
  let w1 := (Connection.handleDisconnect order sock w).2 in
  let res := Connection.handleRejoinGame sock' gid (player_id pl) w1 in
  ∃ h g2,
    armed (MatchmakingService.timers w1) !! h
      = Some (TaskForfeit gid (player_id pl)) ∧
    res.1 = [Connection.NoticeGameRejoined sock' gid (board g)
               (currentTurn g) (Some (username opp))] ∧
    MatchmakingService.games res.2 !! gid = Some g2 ∧
    (∀ k, k ≠ gid →
       MatchmakingService.games res.2 !! k
       = MatchmakingService.games w !! k) ∧
    disconnectedPlayer g2 = None ∧ disconnectTimeout g2 = None ∧
    board g2 = board g ∧ currentTurn g2 = currentTurn g ∧
    status g2 = Active ∧ winner g2 = winner g ∧
    (pl = player1 g →
     player1 g2 = Connection.withSocket pl sock' ∧ player2 g2 = Some opp) ∧
    (player2 g = Some pl →
     player1 g2 = opp ∧ player2 g2 = Some (Connection.withSocket pl sock')) ∧
    armed (MatchmakingService.timers res.2) !! h = None ∧
    Connection.fireForfeit h res.2 = res.2.
Proof.
  intros Hin Hg Hid Hst Hholds Hne Hbot Huniq. cbv zeta.
  rewrite (handleDisconnect_marks order sock w gid g pl opp)
    by (try done; by left).
  cbn [snd].
  set (w1 := MatchmakingService.removePlayerFromQueue sock w).
  set (h := nextTimer (MatchmakingService.timers w1)).
  exists h.
  unfold Connection.handleRejoinGame, GameService.getGame.
  cbn [MatchmakingService.games MatchmakingService.timers
       MatchmakingService.waitingPlayers].
  rewrite lookup_insert_eq.
  assert (∃ seat,
            Connection.seatOf (ConnectionFacts.marked g (player_id pl) h)
              (player_id pl) = Some seat ∧
            match seat with
            | Connection.First => pl = player1 g ∧ player2 g = Some opp
            | Connection.Second => player2 g = Some pl ∧ opp = player1 g
            end) as (seat & -> & Hseat).
  { unfold Connection.seatOf. cbn [player1 player2 ConnectionFacts.marked].
    destruct Hholds as [(_ & -> & Hp2) | (_ & Hp2 & _ & ->)].
    - exists Connection.First. by rewrite bool_decide_eq_true_2.
    - exists Connection.Second. rewrite bool_decide_eq_false_2 by done.
      rewrite Hp2. by rewrite bool_decide_eq_true_2. }
  cbv zeta. unfold GameService.clearDisconnected.
  rewrite lookup_insert_eq.
  cbn [fst snd disconnectTimeout Connection.reseat ConnectionFacts.marked
       game_id board player1 player2 currentTurn status winner createdAt
       lastMoveAt disconnectedPlayer].
  rewrite lookup_insert_eq. rewrite !insert_insert_eq.
  eexists. split; [apply lookup_insert_eq|].
  cbn [fst snd MatchmakingService.games MatchmakingService.timers
       game_id board player1 player2 currentTurn status winner
       disconnectedPlayer disconnectTimeout].
  split.
  { rewrite Hid. f_equal. f_equal.
    destruct seat; destruct Hseat as [H1 H2].
    - by rewrite H2.
    - by rewrite H2. }
  split; [apply lookup_insert_eq|].
  split; [intros k Hk; by rewrite lookup_insert_ne|].
  do 6 (split; [done|]).
  split.
  { intros Hp1. destruct seat; destruct Hseat as [H1 H2].
    - by rewrite <- H1.
    - destruct Hne. subst pl opp. done. }
  split.
  { intros Hp2. destruct seat; destruct Hseat as [H1 H2].
    - rewrite H2 in Hp2. injection Hp2 as ->. done.
    - rewrite H1. by subst opp. }
  split; [apply lookup_delete_eq|].
  unfold Connection.fireForfeit.
  cbn [MatchmakingService.timers clearTimeout armed].
  by rewrite lookup_delete_eq.
Qed.

Lemma rejoin_in_time_cancels_forfeiture_witness :
  ∃ g2,
    MatchmakingService.games
      (Connection.handleRejoinGame "sock-a2" "g1" "id-alice"
         (Connection.handleDisconnect ["g1"] "sock-a"
            ConnectionExamples.playing).2).2 !! "g1" = Some g2 ∧
    disconnectedPlayer g2 = None ∧ status g2 = Active ∧
    socketId (player1 g2) = "sock-a2".
Proof.
  destruct (rejoin_in_time_cancels_forfeiture ["g1"] "sock-a" "sock-a2"
              ConnectionExamples.playing "g1"
              (Reach.sessionAfter HandlerExamples.bobToMove "g1"
                 Reach.freshSession)
              Reach.alice Reach.bob)
    as (h & g2 & _ & _ & Hg2 & _ & Hd & _ & _ & _ & Hst & _ & Hp1 & _).
  - apply elem_of_cons. by left.
  - vm_compute. reflexivity.
  - vm_compute. reflexivity.
  - vm_compute. reflexivity.
  - left. split_and!; vm_compute; reflexivity.
  - vm_compute. discriminate.
  - reflexivity.
  - intros k' g' Hg' _ _.
    destruct (decide (k' = "g1")) as [->|Hk]; [done|].
    unfold ConnectionExamples.playing in Hg'.
    cbn [MatchmakingService.games] in Hg'.
    apply (f_equal is_Some) in Hg'. exfalso. revert Hg'.
    change (Registry.sessions (Reach.stateAfter HandlerExamples.bobToMove))
      with (<["g1" := Reach.sessionAfter HandlerExamples.bobToMove "g1"
                        Reach.freshSession]> (∅ : gmap string GameState)).
    rewrite lookup_insert_ne by done. rewrite lookup_empty.
    intros Hf. assert (is_Some (Some g')) as Hs by by eexists.
    rewrite <- Hf in Hs. by destruct Hs.
  - exists g2. split_and!; [exact Hg2 | exact Hd | exact Hst |].
    destruct (Hp1 ltac:(vm_compute; reflexivity)) as [-> _]. reflexivity.
Defined.

Section Frames.

Import GameService MatchmakingService Connection ConnectionFacts.

Lemma insert_samePlay (games : Registry) k g g' :
  games !! k = Some g → samePlay g g' →
  ∀ k0 g0, games !! k0 = Some g0 →
           ∃ g0', <[k := g']> games !! k0 = Some g0' ∧ samePlay g0 g0'.
Proof.
  intros Hg Hsame k0 g0 Hg0. destruct (decide (k0 = k)) as [->|Hk].
  - rewrite lookup_insert_eq. exists g'. split; [done|]. congruence.
  - rewrite lookup_insert_ne by done. exists g0. split; [done|].
    apply samePlay_refl.
Qed.

Lemma samePlay_trans g1 g2 g3 : samePlay g1 g2 → samePlay g2 g3 → samePlay g1 g3.
Proof.
  intros (?&?&?&?&?&?&?) (?&?&?&?&?&?&?). repeat split; congruence.
Qed.

Lemma keepsPlay_refl games : keepsPlay games games.
Proof. intros k g Hg. exists g. split; [done | apply samePlay_refl]. Qed.

Lemma keepsPlay_trans g1 g2 g3 :
  keepsPlay g1 g2 → keepsPlay g2 g3 → keepsPlay g1 g3.
Proof.
  intros H12 H23 k g Hg. destruct (H12 k g Hg) as (g' & Hg' & Hs).
  destruct (H23 k g' Hg') as (g'' & Hg'' & Hs'). exists g''.
  split; [done|]. by eapply samePlay_trans.
Qed.

Lemma setDisconnected_keepsPlay gid pid games :
  keepsPlay games (setDisconnected gid pid games).
Proof.
  unfold setDisconnected. destruct (games !! gid) as [g|] eqn:Hg;
    [|apply keepsPlay_refl].
  intros k0 g0 Hg0. eapply insert_samePlay; [exact Hg | | exact Hg0].
  by repeat split.
Qed.

Lemma setDisconnectTimeout_keepsPlay key h games :
  keepsPlay games (setDisconnectTimeout key h games).
Proof.
  unfold setDisconnectTimeout. destruct (games !! key) as [g|] eqn:Hg;
    [|apply keepsPlay_refl].
  intros k0 g0 Hg0. eapply insert_samePlay; [exact Hg | | exact Hg0].
  by repeat split.
Qed.

Lemma clearDisconnected_keepsPlay gid games ts :
  keepsPlay games (clearDisconnected gid games ts).1.
Proof.
  unfold clearDisconnected. destruct (games !! gid) as [g|] eqn:Hg;
    [|apply keepsPlay_refl].
  intros k0 g0 Hg0. eapply insert_samePlay; [exact Hg | | exact Hg0].
  by repeat split.
Qed.

Lemma reseat_samePlay g seat sock : samePlay g (reseat g seat sock).
Proof.
  destruct seat; repeat split; simpl; try done. by destruct (player2 g).
Qed.

End Frames.

(** X23.  handleRejoinGame refuses outsiders and never touches the play.
    For an unknown session id it answers 'Game not found', for an id that
    is neither participant's 'Player not in this game', and in both cases
    changes nothing.  In every case the queue is as before and every
    registered session keeps its id, board, turn, status, winner and
    participant ids; the status is not consulted, so a participant of a
    finished session is let back in as well. *)
Theorem handleRejoinGame_refuses_outsiders
    (sock gid pid : string) (w : MatchmakingService.Services) :
  let res := Connection.handleRejoinGame sock gid pid w in
  (MatchmakingService.games w !! gid = None →
   res = ([Connection.NoticeError sock "Game not found"], w)) ∧
  (∀ g, MatchmakingService.games w !! gid = Some g →
        player_id (player1 g) ≠ pid →
        (∀ p2, player2 g = Some p2 → player_id p2 ≠ pid) →
        res = ([Connection.NoticeError sock "Player not in this game"], w)) ∧
  (∀ g, MatchmakingService.games w !! gid = Some g →
        player_id (player1 g) = pid →
        ∃ g', MatchmakingService.games res.2 !! gid = Some g' ∧
              socketId (player1 g') = sock ∧
              disconnectedPlayer g' = None ∧ status g' = status g ∧
              res.1 = [Connection.NoticeGameRejoined sock (game_id g)
                         (board g) (currentTurn g)
                         (username <$> player2 g)]) ∧
  MatchmakingService.waitingPlayers res.2
    = MatchmakingService.waitingPlayers w ∧
  ConnectionFacts.keepsPlay (MatchmakingService.games w)
    (MatchmakingService.games res.2).
Proof.
  cbv zeta. unfold Connection.handleRejoinGame, GameService.getGame.
  destruct (MatchmakingService.games w !! gid) as [g|] eqn:Hg.
  2: { split_and!; try done. apply keepsPlay_refl. }
  destruct (Connection.seatOf g pid) as [seat|] eqn:Hseat.
  2: { split_and!; try done.
       - intros g' [= <-] Hp1. exfalso. revert Hseat.
         unfold Connection.seatOf. by rewrite bool_decide_eq_true_2.
       - apply keepsPlay_refl. }
  cbv zeta. split; [done|]. split.
  { intros g' [= <-] Hp1 Hp2. exfalso. revert Hseat.
    unfold Connection.seatOf. rewrite bool_decide_eq_false_2 by done.
    destruct (player2 g) as [p2|]; [|done].
    by rewrite bool_decide_eq_false_2 by (by apply Hp2). }
  split.
  { intros g' [= <-] Hp1.
    assert (seat = Connection.First) as ->.
    { revert Hseat. unfold Connection.seatOf.
      rewrite bool_decide_eq_true_2 by done. congruence. }
    unfold GameService.clearDisconnected. rewrite lookup_insert_eq.
    cbn [fst snd MatchmakingService.games]. unfold GameService.getGame.
    rewrite lookup_insert_eq. by eexists. }
  split; [done|].
  cbn [snd MatchmakingService.games].
  eapply keepsPlay_trans; [|apply clearDisconnected_keepsPlay].
  intros k0 g0 Hg0. eapply insert_samePlay; [exact Hg | | exact Hg0].
  apply reseat_samePlay.
Qed.

Lemma handleRejoinGame_refuses_outsiders_witness :
  Connection.handleRejoinGame "sock-x" "g1" "id-carol"
    ConnectionExamples.playing
  = ([Connection.NoticeError "sock-x" "Player not in this game"],
     ConnectionExamples.playing).
Proof.
  destruct (handleRejoinGame_refuses_outsiders "sock-x" "g1" "id-carol"
              ConnectionExamples.playing) as (_ & Hout & _).
  apply (Hout (Reach.sessionAfter HandlerExamples.bobToMove "g1"
                 Reach.freshSession)).
  - vm_compute. reflexivity.
  - vm_compute. discriminate.
  - intros p2 Hp2. vm_compute in Hp2. injection Hp2 as <-.
    vm_compute. discriminate.
Defined.

(** X24.  handleDisconnect never touches the play.  Whatever the
    connection, after handleDisconnect it is not queued, and every
    registered session keeps its id, board, turn, status, winner and
    participant ids.  When the connection was not queued and no live
    session has it (sessions that are completed or forfeited do not
    count), nothing is emitted and the state is unchanged. *)
Theorem handleDisconnect_keeps_the_play
    (order : list string) (sock : string)
    (w : MatchmakingService.Services) :
  let res := Connection.handleDisconnect order sock w in
  MatchmakingService.isPlayerInQueue sock res.2 = false ∧
  ConnectionFacts.keepsPlay (MatchmakingService.games w)
    (MatchmakingService.games res.2) ∧
  (MatchmakingService.isPlayerInQueue sock w = false →
   (∀ k g, MatchmakingService.games w !! k = Some g →
           ConnectionFacts.live g → Connection.involves sock g = false) →
   res = ([], w)).
Proof.
  cbv zeta. split_and!.
  - apply isPlayerInQueue_false. unfold Connection.handleDisconnect.
    cbv zeta. destruct (head _) as [[key game]|]; cbn [snd];
      [|apply removePlayerFromQueue_gone].
    destruct (if bool_decide _ then _ else _) as [pl|]; cbn [snd];
      [|apply removePlayerFromQueue_gone].
    destruct (isBot pl); cbn [snd MatchmakingService.waitingPlayers];
      apply removePlayerFromQueue_gone.
  - unfold Connection.handleDisconnect. cbv zeta.
    destruct (head _) as [[key game]|]; cbn [snd];
      [|rewrite removePlayerFromQueue_games; apply keepsPlay_refl].
    destruct (if bool_decide _ then _ else _) as [pl|]; cbn [snd];
      [|rewrite removePlayerFromQueue_games; apply keepsPlay_refl].
    destruct (isBot pl); cbn [snd MatchmakingService.games];
      rewrite removePlayerFromQueue_games; [apply keepsPlay_refl|].
    eapply keepsPlay_trans; [apply setDisconnected_keepsPlay|].
    apply setDisconnectTimeout_keepsPlay.
  - intros Hq%isPlayerInQueue_false Hnone.
    unfold Connection.handleDisconnect. cbv zeta.
    assert (MatchmakingService.removePlayerFromQueue sock w = w) as ->.
    { unfold MatchmakingService.removePlayerFromQueue. by rewrite Hq. }
    by rewrite found_nothing.
Qed.

Lemma handleDisconnect_keeps_the_play_witness :
  Connection.handleDisconnect ["g1"] "sock-x" ConnectionExamples.playing
  = ([], ConnectionExamples.playing).
Proof.
  apply (handleDisconnect_keeps_the_play ["g1"] "sock-x"
           ConnectionExamples.playing).
  - reflexivity.
  - intros k g Hg _.
    destruct (decide (k = "g1")) as [->|Hk].
    + vm_compute in Hg. injection Hg as <-. reflexivity.
    + unfold ConnectionExamples.playing in Hg.
      cbn [MatchmakingService.games] in Hg.
      apply (f_equal is_Some) in Hg. exfalso. revert Hg.
      change (Registry.sessions (Reach.stateAfter HandlerExamples.bobToMove))
        with (<["g1" := Reach.sessionAfter HandlerExamples.bobToMove "g1"
                          Reach.freshSession]> (∅ : gmap string GameState)).
      rewrite lookup_insert_ne by done. rewrite lookup_empty.
      intros Hf. assert (is_Some (Some g)) as Hs by by eexists.
      rewrite <- Hf in Hs. by destruct Hs.
Defined.

(** X25.  The forfeiture timer spares whoever is back and whatever is
    over.  When an armed forfeiture timer for session gid and participant
    pid fires, the handle is spent and the queue stays.  If the session is
    gone, or its marker no longer names pid, or it is not active, the
    registry is unchanged.  In every case each registered session keeps
    its board, turn and participants, and its status unless it is gid,
    was active and is now forfeited. *)
Theorem forfeit_timer_spares_returned_and_finished
    (h : TimerId) (w : MatchmakingService.Services) (gid pid : string) :
  armed (MatchmakingService.timers w) !! h = Some (TaskForfeit gid pid) →
  let w' := Connection.fireForfeit h w in
  armed (MatchmakingService.timers w') !! h = None ∧
  MatchmakingService.waitingPlayers w' = MatchmakingService.waitingPlayers w ∧
  (MatchmakingService.games w !! gid = None →
   MatchmakingService.games w' = MatchmakingService.games w) ∧
  (∀ g, MatchmakingService.games w !! gid = Some g →
        disconnectedPlayer g ≠ Some pid ∨ status g ≠ Active →
        MatchmakingService.games w' = MatchmakingService.games w) ∧
  (∀ k g, MatchmakingService.games w !! k = Some g →
     ∃ g', MatchmakingService.games w' !! k = Some g' ∧
           board g' = board g ∧ currentTurn g' = currentTurn g ∧
           player1 g' = player1 g ∧ player2 g' = player2 g ∧
           (status g' = status g ∧ winner g' = winner g ∨
            k = gid ∧ status g = Active ∧ status g' = Forfeited ∧
            disconnectedPlayer g = Some pid)).
Proof.
  intros Harmed. cbv zeta. unfold Connection.fireForfeit. rewrite Harmed.
  unfold GameService.getGame.
  destruct (MatchmakingService.games w !! gid) as [cg|] eqn:Hcg.
  2: { cbn [MatchmakingService.timers MatchmakingService.games
            MatchmakingService.waitingPlayers].
       split_and!; try done; [apply lookup_delete_eq|].
       intros k g Hg. exists g. split_and!; try done. by left. }
  case_bool_decide as Hmark;
    cbn [MatchmakingService.timers MatchmakingService.games
         MatchmakingService.waitingPlayers].
  2: { split_and!; try done; [apply lookup_delete_eq|].
       intros k g Hg. exists g. split_and!; try done. by left. }
  split; [apply lookup_delete_eq|]. split; [done|]. split; [done|].
  unfold GameService.forfeitGame. rewrite Hcg.
  case_bool_decide as Hst.
  - split.
    { intros g [= <-] [Hm | Hs]; done. }
    intros k g Hg. destruct (decide (k = gid)) as [->|Hk].
    + rewrite lookup_insert_eq. rewrite Hcg in Hg. injection Hg as <-.
      eexists. split; [done|]. simpl. split_and!; try done. by right.
    + rewrite lookup_insert_ne by done. exists g. split_and!; try done.
      by left.
  - split; [done|].
    intros k g Hg. exists g. split_and!; try done. by left.
Qed.

Lemma forfeit_timer_spares_returned_and_finished_witness :
  MatchmakingService.games
    (Connection.fireForfeit 0%nat
       {| MatchmakingService.games :=
            Registry.sessions (Reach.stateAfter HandlerExamples.bobToMove);
          MatchmakingService.waitingPlayers := [];
          MatchmakingService.timers :=
            (setTimeout (TaskForfeit "g1" "id-alice") noTimers).2 |})
  = Registry.sessions (Reach.stateAfter HandlerExamples.bobToMove).
Proof.
  destruct (forfeit_timer_spares_returned_and_finished 0%nat
              {| MatchmakingService.games :=
                   Registry.sessions
                     (Reach.stateAfter HandlerExamples.bobToMove);
                 MatchmakingService.waitingPlayers := [];
                 MatchmakingService.timers :=
                   (setTimeout (TaskForfeit "g1" "id-alice") noTimers).2 |}
              "g1" "id-alice")
    as (_ & _ & _ & Hsame & _).
  - reflexivity.
  - apply (Hsame (Reach.sessionAfter HandlerExamples.bobToMove "g1"
                    Reach.freshSession)).
    + vm_compute. reflexivity.
    + left. vm_compute. discriminate.
Defined.

Lemma removePlayerFromQueue_cancels_the_wait_witness :
  MatchmakingService.isPlayerInQueue "sock-a"
    (MatchmakingService.removePlayerFromQueue "sock-a"
       (MatchmakingService.addPlayerToQueue Reach.alice "g0" 50 50
          QueueFacts.idle).2) = false.
Proof.
  apply (removePlayerFromQueue_cancels_the_wait
           (MatchmakingService.addPlayerToQueue Reach.alice "g0" 50 50
              QueueFacts.idle).2 "sock-a").
Defined.

(** ** Gravity and draws *)

Section FullBoards.

Import GameService BotService Cascade Outcomes Registry Invariants Reach Tally.

Lemma full_no_empty_cell b :
  is_grid b = true → full b →
  filter (λ v, v = EmptyCell) (concat b) = [].
Proof.
  intros Hgrid Hfull.
  destruct (filter _ _) as [|v l] eqn:Hf; [done|]. exfalso.
  assert (v ∈ filter (λ v, v = EmptyCell) (concat b)) as Hin.
  { rewrite Hf. apply elem_of_cons. by left. }
  apply list_elem_of_filter in Hin as [-> Hin].
  apply list_elem_of_In, in_concat in Hin as (line & Hline & Hv).
  apply list_elem_of_In, list_elem_of_lookup in Hline as [i Hi].
  apply list_elem_of_In, list_elem_of_lookup in Hv as [j Hj].
  assert (cellAt b (Z.of_nat i) (Z.of_nat j) = Some EmptyCell) as Hcell.
  { apply cellAt_Some. split_and!; [lia | lia |]. exists line.
    by rewrite !Nat2Z.id. }
  destruct (is_grid_inside _ _ _ _ Hgrid Hcell) as [Hr Hc].
  by apply (Hfull _ _ Hr Hc).
Qed.

End FullBoards.

(** X26.  Pieces never float.  In a reachable registry every board is a
    6 x 7 grid in which the cell below a piece holds a piece; so in a
    column the bot may use, every cell from the top down to the row
    getLowestEmptyRow returns is empty, and a move lands directly on the
    pieces below. *)
Theorem pieces_never_float
    (st : Registry.State) (gid : string) (g : GameState) :
  Reach.reachable st →
  Registry.sessions st !! gid = Some g →
  is_grid (board g) = true ∧
  (∀ r c s, r + 1 < Config.rows →
     cellAt (board g) r c = Some (Piece s) →
     ∃ s', cellAt (board g) (r + 1) c = Some (Piece s')) ∧
  (∀ c, BotService.canPlacePiece (board g) c = true →
     ∀ r, 0 ≤ r ≤ BotService.getLowestEmptyRow (board g) c →
          cellAt (board g) r c = Some EmptyCell).
Proof.
  intros Hreach Hg.
  destruct (reachable_ok st Hreach _ _ Hg) as (Hgrid & Hstk & _).
  split_and!; [done | |].
  - intros r c s Hr Hcell.
    destruct (is_grid_inside _ _ _ _ Hgrid Hcell) as [Hr0 Hc].
    destruct (is_grid_defined (board g) (r + 1) c Hgrid) as [v Hv];
      [lia | done |].
    destruct v as [|s']; [|by exists s']. exfalso.
    apply (Hstk r (r + 1) c); [lia | lia | congruence | done].
  - intros c Hplace%canPlacePiece_legal r Hr.
    pose proof (legal_in_range _ Hgrid c Hplace) as Hc.
    destruct (getLowestEmptyRow_dropRow _ _ Hplace) as (Hrow & Hcell & _).
    destruct (decide (r = BotService.getLowestEmptyRow (board g) c))
      as [->|Hne]; [done|].
    destruct (is_grid_defined (board g) r c Hgrid) as [v Hv]; [lia | done |].
    destruct v as [|s]; [done|]. exfalso.
    apply (Hstk r (BotService.getLowestEmptyRow (board g) c) c);
      [lia | lia | congruence | done].
Qed.

Lemma pieces_never_float_witness :
  is_grid (board (Reach.sessionAfter FullColumn.sixInColumn0 "g1"
                    Reach.freshSession)) = true.
Proof.
  pose proof (pieces_never_float (Reach.stateAfter FullColumn.sixInColumn0)
                "g1" (Reach.sessionAfter FullColumn.sixInColumn0 "g1"
                        Reach.freshSession)) as Hfloat.
  destruct Hfloat as (Hgrid & _); [| | exact Hgrid].
  - exists FullColumn.sixInColumn0. eexists. split; vm_compute; reflexivity.
  - vm_compute. reflexivity.
Defined.

(** X27.  A draw needs the whole board.  In a reachable registry a
    session that is completed without a winner has a piece on every cell,
    twenty-one of each side, and getValidMoves finds no column on it. *)
Theorem draw_only_on_full_board
    (st : Registry.State) (gid : string) (g : GameState) :
  Reach.reachable st →
  Registry.sessions st !! gid = Some g →
  status g = Completed →
  winner g = None →
  (∀ r c, 0 ≤ r < Config.rows → 0 ≤ c < Config.cols →
          ∃ s, cellAt (board g) r c = Some (Piece s)) ∧
  Tally.countPieces Player1 (board g) = 21%nat ∧
  Tally.countPieces Player2 (board g) = 21%nat ∧
  BotService.getValidMoves (board g) = [].
Proof.
  intros Hreach Hg Hst Hw.
  destruct (reachable_ok st Hreach _ _ Hg) as (Hgrid & Hstk & Hwin).
  destruct (reachable_sound st Hreach _ _ Hg) as (_ & _ & _ & _ & Hbal).
  unfold Invariants.winnerOk in Hwin. rewrite Hst, Hw in Hwin.
  unfold Tally.balanced in Hbal. cbv zeta in Hbal. rewrite Hst in Hbal.
  pose proof (counts_le_cells (concat (board g))) as Hsum.
  rewrite (grid_cells _ Hgrid), (full_no_empty_cell _ Hgrid Hwin) in Hsum.
  simpl in Hsum. unfold Tally.countPieces in *.
  split_and!; [| lia | lia |].
  - intros r c Hr Hc.
    destruct (is_grid_defined (board g) r c Hgrid Hr Hc) as [[|s] Hv];
      [by destruct (Hwin r c Hr Hc) | by exists s].
  - unfold BotService.getValidMoves. apply filter_none.
    intros c Hin%elem_of_seqZ. apply bool_decide_eq_false_2.
    apply Hwin; [unfold Config.rows; lia | lia].
Qed.

Lemma draw_only_on_full_board_witness :
  Tally.countPieces Player1
    (board (Reach.sessionAfter DrawnGame.drawnOps "g1" Reach.freshSession))
  = 21%nat.
Proof.
  pose proof (draw_only_on_full_board
                (Reach.stateAfter DrawnGame.drawnOps) "g1"
                (Reach.sessionAfter DrawnGame.drawnOps "g1"
                   Reach.freshSession)) as Hdraw.
  destruct Hdraw as (_ & Hcount & _).
  - exists DrawnGame.drawnOps. eexists. split; vm_compute; reflexivity.
  - vm_compute. reflexivity.
  - vm_compute. reflexivity.
  - vm_compute. reflexivity.
  - exact Hcount.
Defined.

(** X28.  Nobody moves twice in a row.  In a session whose two
    participants have different ids, after a move of a participant has
    been accepted, every further move of the same participant is refused
    and changes nothing: with 'Not your turn' if the session goes on, with
    'Game is not active' if the move ended it. *)
Theorem no_two_moves_in_a_row
    (games games' : gmap string GameState) (gid pid : string)
    (g : GameState) (p2 : Player) (column now : Z) (res : MoveResult) :
  games !! gid = Some g →
  player2 g = Some p2 →
  player_id p2 ≠ player_id (player1 g) →
  GameService.makeMove gid pid column now games = Some (res, games') →
  success res = true →
  ∀ column' now',
    GameService.makeMove gid pid column' now' games'
    = Some (GameService.failure
              (if bool_decide (mr_winner res = None ∧ isDraw res = None)
               then "Not your turn" else "Game is not active"),
            games').
Proof.
  intros Hg Hp2 Hne Hmove Hs column' now'.
  destruct (makeMove_inv _ _ _ _ _ _ _ Hmove)
    as [[Hfail _] | (g0 & p & r & won & Hg0 & Hst & Hp & Hpid & _ & _ &
                     _ & _ & _ & Hres)]; [congruence|].
  rewrite Hg in Hg0. injection Hg0 as <-. cbv zeta in Hres.
  destruct won; [|destruct (GameService.isBoardFull _)];
    injection Hres as -> ->.
  - rewrite bool_decide_eq_false_2 by (by intros [? ?]).
    eapply makeMove_not_active; [apply lookup_insert_eq | done].
  - rewrite bool_decide_eq_false_2 by (by intros [? ?]).
    eapply makeMove_not_active; [apply lookup_insert_eq | done].
  - rewrite bool_decide_eq_true_2 by done.
    eapply makeMove_not_your_turn; [apply lookup_insert_eq | done |].
    intros p'. unfold GameService.currentPlayerOf in *. simpl.
    destruct (currentTurn g); simpl.
    + rewrite Hp2. intros [= <-]. injection Hp as <-. congruence.
    + intros [= <-]. rewrite Hp2 in Hp. injection Hp as <-. congruence.
Qed.

Lemma no_two_moves_in_a_row_witness :
  GameService.makeMove "g1" "id-alice" 1 400 FinalMove.afterWin
  = Some (GameService.failure
            (if bool_decide (mr_winner FinalMove.winResult = None ∧
                             isDraw FinalMove.winResult = None)
             then "Not your turn" else "Game is not active"),
          FinalMove.afterWin).
Proof.
  apply (no_two_moves_in_a_row
           (Registry.sessions (Reach.stateAfter FinalMove.aliceWinsNext))
           FinalMove.afterWin "g1" "id-alice"
           (Reach.sessionAfter FinalMove.aliceWinsNext "g1"
              Reach.freshSession)
           Reach.bob 0 300 FinalMove.winResult).
  - vm_compute. reflexivity.
  - vm_compute. reflexivity.
  - vm_compute. discriminate.
  - vm_compute. reflexivity.
  - vm_compute. reflexivity.
Defined.


